(** * Baseline JPEG encoder (stb_image_write.h, JPEG-only cut) and the
      base64 transport coding of image_processor.cpp

    Shallow embedding of the integer part of the encoder: the bit writer,
    the magnitude coding, the entropy stage of [stbiw__jpg_processDU], the
    Huffman table builder, the quality scaling, the frame layout and the
    MCU walk of [stbi_write_jpg_to_func], and of [base64Encode] /
    [base64Decode], [downscaleRGBA] and [processAndEncode] of
    [ImageProcessor].

    Conventions.
    - A C [int] is a [Z]; where the source can leave the 32-bit range the
      wrap-around is written with [int32].  [unsigned short] and
      [unsigned char] stores are written with [u16] and [u8].  The pixel
      offsets of the encoder, the target offsets of [downscaleRGBA] and
      the vector sizes are [int]s and wrap; the pointer offset into the
      locked bitmap is kept in [Z].  The counters of the loops over the
      image run in [Z], where they agree with the [int]s of the source as
      long as a side plus 16 stays below [2^31].
    - A byte of the output is a [Z] in [0, 255]; the sink of
      [jpeg_write_callback] appends to a vector, so the delivered bytes are
      a [list Z] that only grows at its end.
    - The floating point stage (colour conversion, DCT, quantisation) is
      not modelled: the quantised, zigzag-ordered block [DU] it produces is
      an input of the entropy stage.  The [float] index and aspect ratio
      computations of [ImageProcessor] are inputs in the same way. *)

From Stdlib Require Import Ascii String ZArith List Bool Lia Arith.
Import ListNotations.
Local Open Scope Z_scope.

(** ** Machine integers *)

(** Two's complement wrap of a C [int]. *)
Definition int32 (z : Z) : Z := (z + 2^31) mod 2^32 - 2^31.

(** Store into an [unsigned short] / [unsigned char]. *)
Definition u16 (z : Z) : Z := z mod 65536.
Definition u8 (z : Z) : Z := z mod 256.

#[global] Arguments int32 z : simpl never.
#[global] Arguments u16 z : simpl never.
#[global] Arguments u8 z : simpl never.

(** A [unsigned short bs[2]]: [fst] is [bs[0]] (the code), [snd] is
    [bs[1]] (its length in bits). *)
Definition bits : Type := (Z * Z)%type.

(** ** Bit writer: [stbiw__jpg_writeBits] *)

Module BitWriter.

(** [*bitBufP], [*bitCntP] and the bytes handed to the sink so far. *)
Record writer : Type := mkWriter { bitBuf : Z; bitCnt : Z; out : list Z }.

(** [stbiw__putc]. *)
Definition stbiw__putc (o : list Z) (c : Z) : list Z := o ++ [c].

(** [while (bitCnt >= 8) { c = (bitBuf >> 16) & 255; stbiw__putc(c);
      if (c == 255) stbiw__putc(0); bitBuf <<= 8; bitCnt -= 8; }]
    Every round takes 8 off [bitCnt], so the loop runs [bitCnt / 8] times;
    [fuel] bounds the number of rounds. *)
Fixpoint writeBits_loop (fuel : nat) (bitBuf bitCnt : Z) (o : list Z) : writer :=
  match fuel with
  | O => mkWriter bitBuf bitCnt o
  | S fuel' =>
      if 8 <=? bitCnt then
        let c := Z.land (Z.shiftr bitBuf 16) 255 in
        let o1 := stbiw__putc o c in
        let o2 := if c =? 255 then stbiw__putc o1 0 else o1 in
        writeBits_loop fuel' (int32 (Z.shiftl bitBuf 8)) (bitCnt - 8) o2
      else mkWriter bitBuf bitCnt o
  end.

(** [bitCnt += bs[1]; bitBuf |= bs[0] << (24 - bitCnt); while ...].
    C leaves the shift undefined when [24 - bitCnt] is negative; every call
    of the encoder has [bs[1] <= 16] and [bitCnt <= 7] on entry.  The loop
    gets [bitCnt] rounds of fuel, more than the [bitCnt / 8] it can use
    ([writeBits_loop_exit]). *)
Definition stbiw__jpg_writeBits (w : writer) (bs : bits) : writer :=
  let bitCnt := bitCnt w + snd bs in
  let bitBuf := int32 (Z.lor (bitBuf w) (Z.shiftl (fst bs) (24 - bitCnt))) in
  writeBits_loop (Z.to_nat bitCnt) bitBuf bitCnt (out w).

(** Byte-stuffing check: every 0xFF is directly followed by 0x00. *)
Fixpoint stuffedb (l : list Z) : bool :=
  match l with
  | [] => true
  | c :: l' =>
      (if c =? 255 then match l' with 0 :: _ => true | _ => false end else true)
      && stuffedb l'
  end.

Definition stuffed (l : list Z) : Prop :=
  forall i, nth_error l i = Some 255 -> nth_error l (S i) = Some 0.

(** The bytes a sequence of calls adds to the sink. *)
Definition emitted (w : writer) (calls : list bits) : list Z :=
  skipn (List.length (out w)) (out (fold_left stbiw__jpg_writeBits calls w)).

End BitWriter.

(** ** Magnitude coding: [stbiw__jpg_calcBits] *)

Module Magnitude.

(** [while (tmp1 >>= 1) ++bits[1];] with [bits[1]] an [unsigned short].
    A non-negative [int] is below [2^31], so at most 30 rounds run. *)
Fixpoint calcBits_loop (fuel : nat) (tmp1 : Z) (n : Z) : Z :=
  match fuel with
  | O => n
  | S fuel' =>
      let tmp1 := Z.shiftr tmp1 1 in
      if tmp1 =? 0 then n else calcBits_loop fuel' tmp1 (u16 (n + 1))
  end.

(** [tmp1 = val < 0 ? -val : val; val = val < 0 ? val-1 : val;
     bits[1] = 1; while (tmp1 >>= 1) ++bits[1];
     bits[0] = val & ((1<<bits[1])-1);] *)
Definition stbiw__jpg_calcBits (val : Z) : bits :=
  let tmp1 := if val <? 0 then int32 (- val) else val in
  let val := if val <? 0 then int32 (val - 1) else val in
  let n := calcBits_loop 32 tmp1 1 in
  (u16 (Z.land val (int32 (Z.shiftl 1 n) - 1)), n).

(** The spec's words: [size] is the number of bits needed to represent
    the magnitude, and a negative value is stored as [v - 1] masked to
    [size] bits. *)
Definition size_spec (v : Z) : Z := Z.log2 (Z.abs v) + 1.

Definition magnitude_spec (v : Z) : bits :=
  let size := size_spec v in
  (if v <? 0 then Z.land (v - 1) (Z.ones size) else v, size).

End Magnitude.

(** ** Entropy stage of [stbiw__jpg_processDU] *)

Module BlockEncoder.
Import Magnitude.

Section ProcessDU.
(** The function touches the bit buffer and the sink only through
    [stbiw__jpg_writeBits], so it is written over any writer [W]; the
    encoder uses it at [BitWriter.writer], and at [list bits] it records
    the calls it makes. *)
Context {W : Type}.
Variable writeBits : W -> bits -> W.
(** [HTDC[256][2]], [HTAC[256][2]], by index. *)
Variables HTDC HTAC : Z -> bits.
(** [int DU[64]], as left by the quantisation loop. *)
Variable DU : list Z.

Definition DUat (i : Z) : Z := nth (Z.to_nat i) DU 0.

(** [for (; (end0pos>0)&&(DU[end0pos]==0); --end0pos);]  The loops of
    this function walk positions of the block, so 64 rounds bound each of
    them. *)
Fixpoint scan_end0pos (fuel : nat) (end0pos : Z) : Z :=
  match fuel with
  | O => end0pos
  | S fuel' =>
      if (0 <? end0pos) && (DUat end0pos =? 0)
      then scan_end0pos fuel' (end0pos - 1)
      else end0pos
  end.

(** [for (; DU[i]==0 && i<=end0pos; ++i);] *)
Fixpoint skip_zeroes (fuel : nat) (end0pos i : Z) : Z :=
  match fuel with
  | O => i
  | S fuel' =>
      if (DUat i =? 0) && (i <=? end0pos)
      then skip_zeroes fuel' end0pos (i + 1)
      else i
  end.

(** [for (nrmarker=1; nrmarker<=lng; ++nrmarker) writeBits(M16zeroes);] *)
Fixpoint write_M16zeroes (fuel : nat) (lng nrmarker : Z) (w : W) : W :=
  match fuel with
  | O => w
  | S fuel' =>
      if nrmarker <=? lng
      then write_M16zeroes fuel' lng (nrmarker + 1) (writeBits w (HTAC 0xF0))
      else w
  end.

(** [for (i=1; i<=end0pos; ++i) { ... }], entered with the current [i]. *)
Fixpoint ac_loop (fuel : nat) (end0pos i : Z) (w : W) : W :=
  match fuel with
  | O => w
  | S fuel' =>
      if i <=? end0pos then
        let startpos := i in
        let i := skip_zeroes 64 end0pos i in
        let nrzeroes := i - startpos in
        let w := if 16 <=? nrzeroes
                 then write_M16zeroes (Z.to_nat nrzeroes)
                                      (Z.shiftr nrzeroes 4) 1 w
                 else w in
        let nrzeroes := if 16 <=? nrzeroes
                        then Z.land nrzeroes 15 else nrzeroes in
        let bits := stbiw__jpg_calcBits (DUat i) in
        let w := writeBits w (HTAC (Z.shiftl nrzeroes 4 + snd bits)) in
        let w := writeBits w bits in
        ac_loop fuel' end0pos (i + 1) w
      else w
  end.

(** Lines 101-109: the DC term. *)
Definition encode_DC (w : W) (DC : Z) : W :=
  let diff := int32 (DUat 0 - DC) in
  if diff =? 0 then writeBits w (HTDC 0)
  else
    let bits := stbiw__jpg_calcBits diff in
    let w := writeBits w (HTDC (snd bits)) in
    writeBits w bits.

(** Lines 111-141: the AC terms. *)
Definition encode_AC (w : W) : W :=
  let EOB := HTAC 0x00 in
  let end0pos := scan_end0pos 63 63 in
  if end0pos =? 0 then writeBits w EOB
  else
    let w := ac_loop 63 end0pos 1 w in
    if negb (end0pos =? 63) then writeBits w EOB else w.

(** The function from line 101 on; the result pairs the writer with the
    returned [DU[0]]. *)
Definition stbiw__jpg_processDU (w : W) (DC : Z) : W * Z :=
  (encode_AC (encode_DC w DC), DUat 0).

End ProcessDU.

(** What one [stbiw__jpg_writeBits] call of [stbiw__jpg_processDU]
    carries: a Huffman code looked up in the DC or the AC table by its
    symbol, or raw magnitude bits. *)
Inductive token : Type :=
| DCcode (category : Z)
| ACcode (symbol : Z)
| Magn (b : bits).

Definition EOB : token := ACcode 0x00.
Definition ZRL : token := ACcode 0xF0.

Definition code_of (HTDC HTAC : Z -> bits) (t : token) : bits :=
  match t with
  | DCcode c => HTDC c
  | ACcode s => HTAC s
  | Magn b => b
  end.

Definition tokenb (t u : token) : bool :=
  match t, u with
  | DCcode a, DCcode b => a =? b
  | ACcode a, ACcode b => a =? b
  | Magn (a, n), Magn (b, m) => (a =? b) && (n =? m)
  | _, _ => false
  end.

(** The spec's words for the DC term. *)
Definition dc_spec (diff : Z) : list token :=
  if diff =? 0 then [DCcode 0]
  else [DCcode (size_spec diff); Magn (magnitude_spec diff)].

(** The spec's words for a nonzero value [v] that follows [run] zeros:
    one ZRL per full 16 zeros, then the code of [(run mod 16, size)] and
    the magnitude bits. *)
Definition run_tokens (run : nat) (v : Z) : list token :=
  repeat ZRL (run / 16)
  ++ [ACcode (Z.shiftl (Z.of_nat (run mod 16)) 4 + snd (stbiw__jpg_calcBits v));
      Magn (stbiw__jpg_calcBits v)].

(** The spec's words for the AC terms, over the coefficients at positions
    1..63: [run] counts the zeros seen since the last nonzero value; zeros
    that reach position 63 give one EOB. *)
Fixpoint ac_spec (run : nat) (ac : list Z) : list token :=
  match ac with
  | [] => if (run =? 0)%nat then [] else [EOB]
  | v :: ac' =>
      if v =? 0 then ac_spec (S run) ac'
      else run_tokens run v ++ ac_spec 0 ac'
  end.

(** The coefficients up to the last nonzero one: nothing, or a list whose
    last value is not zero. *)
Definition ends_nonzero (l : list Z) : Prop :=
  l = [] \/ exists b v, l = b ++ [v] /\ v <> 0.

Definition count_EOB (l : list token) : nat :=
  List.length (filter (tokenb EOB) l).

(** The recording writer. *)
Definition record (l : list bits) (b : bits) : list bits := l ++ [b].

End BlockEncoder.

(** ** Constant tables *)

Module Tables.

Definition stbiw__jpg_ZigZag : list Z :=
  [ 0; 1; 5; 6;14;15;27;28; 2; 4; 7;13;16;26;29;42; 3; 8;12;17;25;30;41;43;
    9;11;18;24;31;40;44;53;10;19;23;32;39;45;52;54;20;22;33;38;46;51;55;60;
   21;34;37;47;50;56;59;61;35;36;48;49;57;58;62;63].

Definition stbiw__jpg_std_dc_luminance_nrcodes : list Z :=
  [0;0;1;5;1;1;1;1;1;1;0;0;0;0;0;0;0].
Definition stbiw__jpg_std_dc_luminance_values : list Z :=
  [0;1;2;3;4;5;6;7;8;9;10;11].
Definition stbiw__jpg_std_ac_luminance_nrcodes : list Z :=
  [0;0;2;1;3;3;2;4;3;5;5;4;4;0;0;1;0x7d].
Definition stbiw__jpg_std_ac_luminance_values : list Z :=
  [0x01;0x02;0x03;0x00;0x04;0x11;0x05;0x12;0x21;0x31;0x41;0x06;0x13;0x51;0x61;0x07;
   0x22;0x71;0x14;0x32;0x81;0x91;0xa1;0x08;0x23;0x42;0xb1;0xc1;0x15;0x52;0xd1;0xf0;
   0x24;0x33;0x62;0x72;0x82;0x09;0x0a;0x16;0x17;0x18;0x19;0x1a;0x25;0x26;0x27;0x28;
   0x29;0x2a;0x34;0x35;0x36;0x37;0x38;0x39;0x3a;0x43;0x44;0x45;0x46;0x47;0x48;0x49;
   0x4a;0x53;0x54;0x55;0x56;0x57;0x58;0x59;0x5a;0x63;0x64;0x65;0x66;0x67;0x68;0x69;
   0x6a;0x73;0x74;0x75;0x76;0x77;0x78;0x79;0x7a;0x83;0x84;0x85;0x86;0x87;0x88;0x89;
   0x8a;0x92;0x93;0x94;0x95;0x96;0x97;0x98;0x99;0x9a;0xa2;0xa3;0xa4;0xa5;0xa6;0xa7;
   0xa8;0xa9;0xaa;0xb2;0xb3;0xb4;0xb5;0xb6;0xb7;0xb8;0xb9;0xba;0xc2;0xc3;0xc4;0xc5;
   0xc6;0xc7;0xc8;0xc9;0xca;0xd2;0xd3;0xd4;0xd5;0xd6;0xd7;0xd8;0xd9;0xda;0xe1;0xe2;
   0xe3;0xe4;0xe5;0xe6;0xe7;0xe8;0xe9;0xea;0xf1;0xf2;0xf3;0xf4;0xf5;0xf6;0xf7;0xf8;
   0xf9;0xfa].
Definition stbiw__jpg_std_dc_chrominance_nrcodes : list Z :=
  [0;0;3;1;1;1;1;1;1;1;1;1;0;0;0;0;0].
Definition stbiw__jpg_std_dc_chrominance_values : list Z :=
  [0;1;2;3;4;5;6;7;8;9;10;11].
Definition stbiw__jpg_std_ac_chrominance_nrcodes : list Z :=
  [0;0;2;1;2;4;4;3;4;7;5;4;4;0;1;2;0x77].
Definition stbiw__jpg_std_ac_chrominance_values : list Z :=
  [0x00;0x01;0x02;0x03;0x11;0x04;0x05;0x21;0x31;0x06;0x12;0x41;0x51;0x07;0x61;0x71;
   0x13;0x22;0x32;0x81;0x08;0x14;0x42;0x91;0xa1;0xb1;0xc1;0x09;0x23;0x33;0x52;0xf0;
   0x15;0x62;0x72;0xd1;0x0a;0x16;0x24;0x34;0xe1;0x25;0xf1;0x17;0x18;0x19;0x1a;0x26;
   0x27;0x28;0x29;0x2a;0x35;0x36;0x37;0x38;0x39;0x3a;0x43;0x44;0x45;0x46;0x47;0x48;
   0x49;0x4a;0x53;0x54;0x55;0x56;0x57;0x58;0x59;0x5a;0x63;0x64;0x65;0x66;0x67;0x68;
   0x69;0x6a;0x73;0x74;0x75;0x76;0x77;0x78;0x79;0x7a;0x82;0x83;0x84;0x85;0x86;0x87;
   0x88;0x89;0x8a;0x92;0x93;0x94;0x95;0x96;0x97;0x98;0x99;0x9a;0xa2;0xa3;0xa4;0xa5;
   0xa6;0xa7;0xa8;0xa9;0xaa;0xb2;0xb3;0xb4;0xb5;0xb6;0xb7;0xb8;0xb9;0xba;0xc2;0xc3;
   0xc4;0xc5;0xc6;0xc7;0xc8;0xc9;0xca;0xd2;0xd3;0xd4;0xd5;0xd6;0xd7;0xd8;0xd9;0xda;
   0xe2;0xe3;0xe4;0xe5;0xe6;0xe7;0xe8;0xe9;0xea;0xf2;0xf3;0xf4;0xf5;0xf6;0xf7;0xf8;
   0xf9;0xfa].

Definition YQT : list Z :=
  [16;11;10;16;24;40;51;61;12;12;14;19;26;58;60;55;14;13;16;24;40;57;69;56;
   14;17;22;29;51;87;80;62;18;22;37;56;68;109;103;77;24;35;55;64;81;104;113;92;
   49;64;78;87;103;121;120;101;72;92;95;98;112;100;103;99].
Definition UVQT : list Z :=
  [17;18;24;47;99;99;99;99;18;21;26;66;99;99;99;99;24;26;56;99;99;99;99;99;
   47;66;99;99;99;99;99;99;99;99;99;99;99;99;99;99;99;99;99;99;99;99;99;99;
   99;99;99;99;99;99;99;99;99;99;99;99;99;99;99;99].

(** [a[i]] for an array held as a list. *)
Definition at_ (a : list Z) (i : Z) : Z := nth (Z.to_nat i) a 0.

End Tables.

(** ** Huffman table builder: [stbiw__jpg_buildHuffmanTable] *)

Module Huffman.
Import Tables.

(** [unsigned short htable[256][2]], by symbol. *)
Definition htable : Type := Z -> bits.

(** [htable[s][0] = c; htable[s][1] = l;] *)
Definition store (h : htable) (s : Z) (v : bits) : htable :=
  fun x => if x =? s then v else h x.

(** What the type of the array says of its rows, whatever they hold:
    both entries are [unsigned short]s. *)
Definition ushort_rows (h : htable) : Prop :=
  forall s, 0 <= fst (h s) < 65536 /\ 0 <= snd (h s) < 65536.

Section Build.
Variables nrcodes std_table : list Z.

(** [for (i=1; i<=(int)nrcodes[j]; i++) { htable[std_table[k]][0] =
      (unsigned short)code++; htable[std_table[k]][1] = (unsigned short)j;
      k++; }] *)
Fixpoint symbols_loop (fuel : nat) (j i k code : Z) (h : htable)
  : Z * Z * htable :=
  match fuel with
  | O => (k, code, h)
  | S fuel' =>
      if i <=? at_ nrcodes j then
        let h := store h (at_ std_table k) (u16 code, u16 j) in
        symbols_loop fuel' j (i + 1) (k + 1) (int32 (code + 1)) h
      else (k, code, h)
  end.

(** [for (j=1; j<=16; j++) { ...; code *= 2; }]; an [unsigned char]
    count is at most 255, which bounds the inner loop. *)
Fixpoint lengths_loop (fuel : nat) (j k code : Z) (h : htable) : htable :=
  match fuel with
  | O => h
  | S fuel' =>
      if j <=? 16 then
        let '(k, code, h) := symbols_loop 255 j 1 k code h in
        lengths_loop fuel' (j + 1) k (int32 (code * 2)) h
      else h
  end.

Definition stbiw__jpg_buildHuffmanTable (h : htable) : htable :=
  lengths_loop 16 1 0 0 h.

(** The spec's words: walking the bit lengths from [j] on, the symbols of
    each length take consecutive codes from the running counter, which is
    doubled after each length.  [counts] are the numbers of codes of the
    lengths [j], [j+1], ...; [syms] the symbols not yet assigned. *)
Fixpoint canonical_from (j code : Z) (counts syms : list Z)
  : list (Z * bits) :=
  match counts with
  | [] => []
  | n :: counts' =>
      let m := Z.to_nat n in
      combine (firstn m syms)
              (map (fun i => (code + Z.of_nat i, j)) (seq 0 m))
      ++ canonical_from (j + 1) (2 * (code + n)) counts' (skipn m syms)
  end.

Definition canonical_codes : list (Z * bits) :=
  canonical_from 1 0 (tl nrcodes) std_table.

End Build.

(** Writing a list of assignments into a table, first to last. *)
Definition assign (h : htable) (sv : Z * bits) : htable :=
  store h (fst sv) (snd sv).

(** Canonical order of a list of assignments that starts at length [j]
    with running counter [code]: each entry has a length [l >= j] and the
    code the counter has reached after [l - j] doublings, and the entries
    after it go on from [l] with that code plus one.  So lengths never
    decrease, and inside one length each code is the one before plus
    one. *)
Fixpoint canonical_chain (j code : Z) (t : list (Z * bits)) : Prop :=
  match t with
  | [] => True
  | (_, (c, l)) :: rest =>
      j <= l /\ c = code * 2 ^ (l - j) /\ canonical_chain l (c + 1) rest
  end.

Definition code_len_lt (a b : Z * bits) : Prop :=
  snd (snd a) <= snd (snd b)
  /\ (snd (snd a) = snd (snd b) -> fst (snd a) < fst (snd b)).

(** The counts leave room at every length: with the counter at [code] on
    length [j], [n] more codes still fit into [j] bits. *)
Fixpoint kraftb (j code : Z) (counts : list Z) : bool :=
  match counts with
  | [] => true
  | n :: counts' =>
      (0 <=? n) && (n <=? 255) && (code + n <=? 2 ^ j)
      && kraftb (j + 1) (2 * (code + n)) counts'
  end.

Fixpoint nodupb (l : list Z) : bool :=
  match l with
  | [] => true
  | x :: r => negb (existsb (Z.eqb x) r) && nodupb r
  end.

(** A table specification the builder can take: 17 counts that fit,
    exactly as many symbols as the counts add up to, no symbol twice. *)
Definition well_formedb (nrcodes std_table : list Z) : bool :=
  (List.length nrcodes =? 17)%nat
  && kraftb 1 0 (tl nrcodes)
  && (fold_right Z.add 0 (tl nrcodes) =? Z.of_nat (List.length std_table))
  && nodupb std_table.

(** The four builds of one encode: DC/AC for luminance and chrominance. *)
Definition std_specs : list (list Z * list Z) :=
  [ (stbiw__jpg_std_dc_luminance_nrcodes,
     stbiw__jpg_std_dc_luminance_values);
    (stbiw__jpg_std_ac_luminance_nrcodes,
     stbiw__jpg_std_ac_luminance_values);
    (stbiw__jpg_std_dc_chrominance_nrcodes,
     stbiw__jpg_std_dc_chrominance_values);
    (stbiw__jpg_std_ac_chrominance_nrcodes,
     stbiw__jpg_std_ac_chrominance_values) ].

End Huffman.

(** ** Quality handling and quantisation divisors *)

Module Quant.
Import Tables.

(** Lines 194-197: [quality = quality ? quality : 90;
    subsample = quality <= 90 ? 1 : 0;
    quality = quality < 1 ? 1 : quality > 100 ? 100 : quality;
    quality = quality < 50 ? 5000 / quality : 200 - quality * 2;]
    The result is [(subsample, quality)] with [quality] now the scale. *)
Definition quality_setup (quality : Z) : Z * Z :=
  let quality := if quality =? 0 then 90 else quality in
  let subsample := if quality <=? 90 then 1 else 0 in
  let quality := if quality <? 1 then 1
                 else if 100 <? quality then 100 else quality in
  let quality := if quality <? 50 then 5000 ÷ quality
                 else 200 - quality * 2 in
  (subsample, quality).

Definition subsample_of (quality : Z) : Z := fst (quality_setup quality).
Definition scale_of (quality : Z) : Z := snd (quality_setup quality).

(** [yti = (QT[i]*quality+50)/100; yti = yti < 1 ? 1 : yti > 255 ? 255 : yti;]
    with [quality] the scale; the same lines serve [uvti] on [UVQT]. *)
Definition divisor (QT : list Z) (scale i : Z) : Z :=
  let ti := (at_ QT i * scale + 50) ÷ 100 in
  if ti <? 1 then 1 else if 255 <? ti then 255 else ti.

Definition yti (quality i : Z) : Z := divisor YQT (scale_of quality) i.
Definition uvti (quality i : Z) : Z := divisor UVQT (scale_of quality) i.

(** The spec's words. *)
Definition clamp (lo hi v : Z) : Z := Z.max lo (Z.min hi v).

Definition clamp_quality (quality : Z) : Z := clamp 1 100 quality.

Definition scale_spec (quality : Z) : Z :=
  if quality <? 50 then 5000 / quality else 200 - 2 * quality.

(** [r] is [x / 100] rounded to the nearest integer, a tie going up. *)
Definition rounds_to (x r : Z) : Prop := -50 < 100 * r - x <= 50.

End Quant.

(** ** Stream assembler: [stbi_write_jpg_to_func] *)

Module Encoder.
Import Tables Huffman Quant BitWriter BlockEncoder.

(** [for (v = start; v < limit; v += step)]: the values [v] takes. *)
Fixpoint for_range (fuel : nat) (v limit step : Z) : list Z :=
  match fuel with
  | O => []
  | S fuel' => if v <? limit then v :: for_range fuel' (v + step) limit step
               else []
  end.

(** The loop variable grows by [step >= 1] from [start], so
    [limit - start] rounds are enough. *)
Definition for_loop (start limit step : Z) : list Z :=
  for_range (Z.to_nat (limit - start)) start limit step.

(** ['J'], ['F'], ['I'], ['F'] are 74, 70, 73, 70. *)
Definition head0 : list Z :=
  [0xFF;0xD8;0xFF;0xE0;0;0x10;74;70;73;70;0;1;1;0;0;1;0;1;0;0;
   0xFF;0xDB;0;0x84;0].

Definition head2 : list Z :=
  [0xFF;0xDA;0;0xC;3;1;0;2;0x11;3;0x11;0;0x3F;0].

Definition head1 (width height subsample : Z) : list Z :=
  [0xFF;0xC0;0;0x11;8;
   u8 (Z.shiftr height 8); u8 (Z.land height 0xff);
   u8 (Z.shiftr width 8); u8 (Z.land width 0xff);
   3;1; u8 (if subsample =? 0 then 0x11 else 0x22);
   0;2;0x11;1;3;0x11;1;0xFF;0xC4;0x01;0xA2;0].

(** Lines 220-236, the bytes handed to [func] before the scan. *)
Definition headers (width height subsample : Z) : list Z :=
  head0
  ++ map (fun i => at_ YQT (at_ stbiw__jpg_ZigZag i)) (for_loop 0 64 1)
  ++ [0x01]
  ++ map (fun i => at_ UVQT (at_ stbiw__jpg_ZigZag i)) (for_loop 0 64 1)
  ++ head1 width height subsample
  ++ firstn 16 (tl stbiw__jpg_std_dc_luminance_nrcodes)
  ++ firstn 12 stbiw__jpg_std_dc_luminance_values
  ++ [0x10]
  ++ firstn 16 (tl stbiw__jpg_std_ac_luminance_nrcodes)
  ++ firstn 162 stbiw__jpg_std_ac_luminance_values
  ++ [0x01]
  ++ firstn 16 (tl stbiw__jpg_std_dc_chrominance_nrcodes)
  ++ firstn 12 stbiw__jpg_std_dc_chrominance_values
  ++ [0x11]
  ++ firstn 16 (tl stbiw__jpg_std_ac_chrominance_nrcodes)
  ++ firstn 162 stbiw__jpg_std_ac_chrominance_values
  ++ head2.

(** Side of an MCU in pixels: lines 248-249 step by 16, lines 282-283 by 8. *)
Definition mcu_size (subsample : Z) : Z := if subsample =? 0 then 8 else 16.

(** The [(x, y)] origins of the MCUs in the order the two outer loops
    visit them. *)
Definition mcu_origins (width height subsample : Z) : list (Z * Z) :=
  flat_map (fun y => map (fun x => (x, y))
                         (for_loop 0 width (mcu_size subsample)))
           (for_loop 0 height (mcu_size subsample)).

(** Lines 251-255 and 285-289: the offsets [p] computed while one MCU is
    converted, [pos] running with the list.  [row], [col], the clamped
    indices and [p] are [int]s: every sum and product wraps. *)
Definition mcu_offsets (width height comp subsample x y : Z) : list Z :=
  flat_map
    (fun row =>
       let clamped_row := if row <? height then row else int32 (height - 1) in
       map (fun col =>
              let clamped_col :=
                if col <? width then col else int32 (width - 1) in
              int32 (int32 (int32 (clamped_row * width) + clamped_col) * comp))
           (for_loop x (int32 (x + mcu_size subsample)) 1))
    (for_loop y (int32 (y + mcu_size subsample)) 1).

(** [dataR[p]], [dataG[p]], [dataB[p]] as indices into [data]. *)
Definition pixel_reads (comp p : Z) : list Z :=
  let ofsG := if 2 <? comp then 1 else 0 in
  let ofsB := if 2 <? comp then 2 else 0 in
  [p; ofsG + p; ofsB + p].

(** All offsets of one encode, MCU after MCU. *)
Definition all_offsets (width height comp subsample : Z) : list Z :=
  flat_map
    (fun xy => mcu_offsets width height comp subsample (fst xy) (snd xy))
    (mcu_origins width height subsample).

Section Encode.
(** What the four table arrays hold before they are written: they are
    [auto] arrays, and line 201-202 clears rows 0..63 of the DC pair
    only. *)
Variables YDC0 UDC0 YAC0 UAC0 : htable.
(** The floating point stage: the quantised block of data unit number
    [n] of the MCU at [(x, y)]. *)
Variable quantized : Z -> Z -> nat -> list Z.

Definition clear64 (h : htable) : htable :=
  fun i => if (0 <=? i) && (i <? 64) then (0, 0) else h i.

(** Lines 210-213. *)
Definition YDC_HT : htable :=
  stbiw__jpg_buildHuffmanTable
    stbiw__jpg_std_dc_luminance_nrcodes stbiw__jpg_std_dc_luminance_values
    (clear64 YDC0).
Definition YAC_HT : htable :=
  stbiw__jpg_buildHuffmanTable
    stbiw__jpg_std_ac_luminance_nrcodes stbiw__jpg_std_ac_luminance_values
    YAC0.
Definition UDC_HT : htable :=
  stbiw__jpg_buildHuffmanTable
    stbiw__jpg_std_dc_chrominance_nrcodes stbiw__jpg_std_dc_chrominance_values
    (clear64 UDC0).
Definition UAC_HT : htable :=
  stbiw__jpg_buildHuffmanTable
    stbiw__jpg_std_ac_chrominance_nrcodes stbiw__jpg_std_ac_chrominance_values
    UAC0.

(** [bitBuf]/[bitCnt]/sink and the three predictors [DCY], [DCU], [DCV]. *)
Record scan : Type := mkScan { wr : writer; DCY : Z; DCU : Z; DCV : Z }.

(** [DCY = stbiw__jpg_processDU(..., fdtbl_Y, DCY, YDC_HT, YAC_HT);] and
    the same for [DCU] and [DCV] with the chrominance tables; [n] numbers
    the call inside its MCU. *)
Definition unit_Y (x y : Z) (n : nat) (s : scan) : scan :=
  let '(w, dc) :=
    stbiw__jpg_processDU stbiw__jpg_writeBits YDC_HT YAC_HT
                         (quantized x y n) (wr s) (DCY s) in
  mkScan w dc (DCU s) (DCV s).
Definition unit_U (x y : Z) (n : nat) (s : scan) : scan :=
  let '(w, dc) :=
    stbiw__jpg_processDU stbiw__jpg_writeBits UDC_HT UAC_HT
                         (quantized x y n) (wr s) (DCU s) in
  mkScan w (DCY s) dc (DCV s).
Definition unit_V (x y : Z) (n : nat) (s : scan) : scan :=
  let '(w, dc) :=
    stbiw__jpg_processDU stbiw__jpg_writeBits UDC_HT UAC_HT
                         (quantized x y n) (wr s) (DCV s) in
  mkScan w (DCY s) (DCU s) dc.

(** Lines 262-277 (four Y units at [Y+0], [Y+8], [Y+128], [Y+136], then
    [subU] and [subV]) and 296-298 ([Y], [U], [V]). *)
Definition encode_mcu (subsample : Z) (s : scan) (xy : Z * Z) : scan :=
  let '(x, y) := xy in
  if subsample =? 0 then
    unit_V x y 2 (unit_U x y 1 (unit_Y x y 0 s))
  else
    unit_V x y 5 (unit_U x y 4
      (unit_Y x y 3 (unit_Y x y 2 (unit_Y x y 1 (unit_Y x y 0 s))))).

Definition fillBits : bits := (0x7F, 7).

(** The writer after the last MCU, before the fill bits. *)
Definition scan_all (width height subsample : Z) : scan :=
  fold_left (encode_mcu subsample)
            (mcu_origins width height subsample)
            (mkScan (mkWriter 0 0 (headers width height subsample)) 0 0 0).

(** The result is the returned [int] and the bytes the sink got.
    [data_null] stands for [!data]. *)
Definition stbi_write_jpg_to_func
           (data_null : bool) (width height comp quality : Z) : Z * list Z :=
  if data_null || (width =? 0) || (height =? 0) || (4 <? comp) || (comp <? 1)
  then (0, [])
  else
    let subsample := subsample_of quality in
    let s := scan_all width height subsample in
    let w := stbiw__jpg_writeBits (wr s) fillBits in
    (1, out w ++ [0xFF; 0xD9]).

End Encode.

End Encoder.

(** ** Transport coding: [ImageProcessor::base64Encode] / [base64Decode] *)

Module Base64.

Definition base64_chars : string :=
  "ABCDEFGHIJKLMNOPQRSTUVWXYZabcdefghijklmnopqrstuvwxyz0123456789+/".

(** [base64_chars[i]]. *)
Definition char_at (i : Z) : ascii :=
  match String.get (Z.to_nat i) base64_chars with
  | Some c => c
  | None => "000"%char
  end.

Definition code (c : ascii) : Z := Z.of_N (N_of_ascii c).

(** [result += c]. *)
Definition push (result : string) (c : ascii) : string :=
  String.append result (String c EmptyString).

(** [uint32_t] arithmetic. *)
Definition u32 (z : Z) : Z := z mod 2^32.

Definition byte_at (data : list Z) (i : Z) : Z := nth (Z.to_nat i) data 0.

(** The [while (i < len)] loop of [base64Encode]; each round moves [i]
    forward, so [len] rounds of fuel are enough. *)
Fixpoint encode_loop (fuel : nat) (data : list Z) (len i : Z) (result : string)
  : string :=
  match fuel with
  | O => result
  | S fuel' =>
      if i <? len then
        let '(octet_a, i) :=
          if i <? len then (byte_at data i, i + 1) else (0, i) in
        let '(octet_b, i) :=
          if i <? len then (byte_at data i, i + 1) else (0, i) in
        let '(octet_c, i) :=
          if i <? len then (byte_at data i, i + 1) else (0, i) in
        let triple :=
          u32 (u32 (Z.shiftl octet_a 16) + u32 (Z.shiftl octet_b 8) + octet_c) in
        let result := push result (char_at (Z.land (Z.shiftr triple 18) 0x3F)) in
        let result := push result (char_at (Z.land (Z.shiftr triple 12) 0x3F)) in
        let result :=
          push result (if len + 1 <? i then "="%char
                       else char_at (Z.land (Z.shiftr triple 6) 0x3F)) in
        let result :=
          push result (if len <? i then "="%char
                       else char_at (Z.land triple 0x3F)) in
        encode_loop fuel' data len i result
      else result
  end.

Definition base64Encode (data : list Z) : string :=
  let len := Z.of_nat (List.length data) in
  encode_loop (Z.to_nat len) data len 0 EmptyString.

(** [memset(decodeTable, -1, ...); for (i = 0; i < 64; i++)
     decodeTable[(unsigned char)base64_chars[i]] = i;] *)
Definition decodeTable : Z -> Z :=
  fold_left (fun t i => fun c => if c =? code (char_at i) then i else t c)
            (map Z.of_nat (seq 0 64))
            (fun _ => -1).

(** [for (unsigned char c : encoded) { if (decodeTable[c] == -1) break; ... }] *)
Fixpoint decode_loop (encoded : string) (val valb : Z) (result : list Z)
  : list Z :=
  match encoded with
  | EmptyString => result
  | String c rest =>
      if decodeTable (code c) =? -1 then result
      else
        let val := int32 (Z.shiftl val 6 + decodeTable (code c)) in
        let valb := valb + 6 in
        if 0 <=? valb
        then decode_loop rest val (valb - 8)
                         (result ++ [Z.land (Z.shiftr val valb) 0xFF])
        else decode_loop rest val valb result
  end.

Definition base64Decode (encoded : string) : list Z :=
  match encoded with
  | EmptyString => []
  | _ => decode_loop encoded 0 (-8) []
  end.

Definition sextet (triple shift : Z) : ascii :=
  char_at (Z.land (Z.shiftr triple shift) 0x3F).

(** The four characters of three octets. *)
Definition group (a b c : Z) : string :=
  let t := a * 65536 + b * 256 + c in
  String (sextet t 18) (String (sextet t 12)
    (String (sextet t 6) (String (char_at (Z.land t 0x3F)) EmptyString))).

(** The groups of a byte sequence, the last one filled up with zero
    octets. *)
Fixpoint groups (data : list Z) : string :=
  match data with
  | [] => EmptyString
  | [a] => group a 0 0
  | [a; b] => group a b 0
  | a :: b :: c :: rest => String.append (group a b c) (groups rest)
  end.

(** A byte sequence filled up with zero bytes to a multiple of three. *)
Definition zero_fill (data : list Z) : list Z :=
  data ++ repeat 0 ((3 - List.length data mod 3) mod 3).

(** Standard base64 with ['='] padding (RFC 4648), to compare the encoder
    with. *)
Fixpoint base64_std (data : list Z) : string :=
  match data with
  | [] => EmptyString
  | [a] =>
      let t := Z.shiftl a 16 in
      String (sextet t 18) (String (sextet t 12) "==")
  | [a; b] =>
      let t := Z.shiftl a 16 + Z.shiftl b 8 in
      String (sextet t 18) (String (sextet t 12) (String (sextet t 6) "="))
  | a :: b :: c :: rest =>
      let t := Z.shiftl a 16 + Z.shiftl b 8 + c in
      String (sextet t 18) (String (sextet t 12)
        (String (sextet t 6) (String (sextet t 0) (base64_std rest))))
  end.

End Base64.

(** ** Bit strings of the entropy segment *)

Module BitStream.
Import BitWriter.

(** Byte stuffing of a byte string: a zero byte after every 0xFF. *)
Definition stuff (raw : list Z) : list Z :=
  flat_map (fun c => if c =? 255 then [255; 0] else [c]) raw.

(** The number a byte string spells, most significant byte first, behind
    the digits of [acc]. *)
Definition be_value (acc : Z) (raw : list Z) : Z :=
  fold_left (fun a c => a * 256 + c) raw acc.

(** The bits of the 24-bit window of [bitBuf] that are not yet in the
    sink: the [bitCnt] bits from bit 23 down. *)
Definition pending (w : writer) : Z :=
  (bitBuf w mod 2 ^ 24) / 2 ^ (24 - bitCnt w).

(** Between two calls fewer than 8 bits are pending and the window is
    clear below them. *)
Definition aligned (w : writer) : Prop :=
  0 <= bitCnt w < 8 /\ bitBuf w mod 2 ^ (24 - bitCnt w) = 0.

(** The number a sequence of codes spells, each on its length, behind
    the digits of [acc]; and the number of bits it takes. *)
Definition bits_value (acc : Z) (calls : list bits) : Z :=
  fold_left (fun a b => a * 2 ^ snd b + fst b) calls acc.

Definition bits_length (calls : list bits) : Z :=
  fold_right (fun b n => snd b + n) 0 calls.

(** A code that [stbiw__jpg_writeBits] can take: at most 16 bits, and no
    bit set above its length. *)
Definition fits (b : bits) : Prop :=
  0 <= snd b <= 16 /\ 0 <= fst b < 2 ^ snd b.

End BitStream.

(** ** Baseline symbols *)

Module Baseline.
Import BlockEncoder BitStream.

(** The symbols a baseline block can ask for: DC categories 0..11; for
    the AC terms EOB, ZRL and every run 0..15 with a size 1..10. *)
Definition baseline_dc_symbols : list Z := map Z.of_nat (seq 0 12).

Definition baseline_ac_symbols : list Z :=
  0x00 :: 0xF0
  :: flat_map (fun run => map (fun size => Z.shiftl run 4 + size)
                              (map Z.of_nat (seq 1 10)))
              (map Z.of_nat (seq 0 16)).

(** Every symbol of [symbols] is listed in [values]. *)
Definition coversb (values symbols : list Z) : bool :=
  forallb (fun s => existsb (Z.eqb s) values) symbols.

(** A token whose symbol is a baseline one, or whose magnitude bits fit. *)
Definition baseline_token (t : token) : Prop :=
  match t with
  | DCcode c => In c baseline_dc_symbols
  | ACcode s => In s baseline_ac_symbols
  | Magn b => fits b
  end.

End Baseline.

(** ** Reading the calls of a data unit back *)

Module Readback.
Import BlockEncoder Baseline.

(** A list without the zeros at its end. *)
Fixpoint trim (l : list Z) : list Z :=
  match l with
  | [] => []
  | v :: r =>
      match trim r with
      | [] => if v =? 0 then [] else [v]
      | t => v :: t
      end
  end.

(** The value that magnitude bits stand for: bits with the top bit set
    are the value, the others are the value plus [2^size - 1]. *)
Definition extend (b : bits) : Z :=
  if 2 ^ (snd b - 1) <=? fst b then fst b else fst b - 2 ^ snd b + 1.

Definition bits_eqb (a b : bits) : bool :=
  (fst a =? fst b) && (snd a =? snd b).

(** The baseline AC symbol whose row of [HTAC] is [b]. *)
Definition symbol_of (HTAC : Z -> bits) (b : bits) : Z :=
  hd 0 (filter (fun s => bits_eqb (HTAC s) b) baseline_ac_symbols).

(** Reading the AC calls of a data unit back into coefficients, up to
    the last nonzero one: ZRL stands for 16 zeros, EOB ends the block, any
    other code gives the zeros of its run and is followed by the
    magnitude bits of a value. *)
Fixpoint read_AC (HTAC : Z -> bits) (calls : list bits) : list Z :=
  match calls with
  | [] => []
  | c :: r =>
      let s := symbol_of HTAC c in
      if s =? 0xF0 then repeat 0 16 ++ read_AC HTAC r
      else if s =? 0x00 then []
      else
        match r with
        | [] => []
        | m :: r' =>
            repeat 0 (Z.to_nat (Z.shiftr s 4)) ++ extend m :: read_AC HTAC r'
        end
  end.

End Readback.

(** ** Image pipeline: [ImageProcessor] *)

Module Processor.
Import Encoder Base64.

(** [v[i] = x] on a [std::vector<uint8_t>]; the code writes inside the
    vector only, outside of it the model leaves the vector as it is. *)
Fixpoint upd (l : list Z) (i : nat) (x : Z) : list Z :=
  match l, i with
  | [], _ => []
  | _ :: t, O => x :: t
  | a :: t, S i' => a :: upd t i' x
  end.

Definition store_at (v : list Z) (i x : Z) : list Z :=
  if i <? 0 then v else upd v (Z.to_nat i) x.

Section Downscale.
(** [static_cast<int>(n * (static_cast<float>(srcSize) / dstSize))], the
    [float] product cut to an [int], as a function of [srcSize],
    [dstSize] and [n]. *)
Variable scaled : Z -> Z -> Z -> Z.

(** Lines 102-108: the offset of [srcPixel] in [srcPixels], a pointer
    offset, in [Z]. *)
Definition srcPixel (srcWidth srcHeight srcStride dstWidth dstHeight y x : Z)
  : Z :=
  let srcX := scaled srcWidth dstWidth x in
  let srcY := scaled srcHeight dstHeight y in
  let srcX := Z.min srcX (srcWidth - 1) in
  let srcY := Z.min srcY (srcHeight - 1) in
  srcY * srcStride + srcX * 4.

(** Lines 109-114: the body of the inner loop; the index
    [(y * dstWidth + x) * 3] is an [int]. *)
Definition copy_pixel (srcPixels : list Z)
           (srcWidth srcHeight srcStride dstWidth dstHeight : Z)
           (y : Z) (dst : list Z) (x : Z) : list Z :=
  let s := srcPixel srcWidth srcHeight srcStride dstWidth dstHeight y x in
  let d := int32 (int32 (int32 (y * dstWidth) + x) * 3) in
  let dst := store_at dst d (byte_at srcPixels s) in
  let dst := store_at dst (d + 1) (byte_at srcPixels (s + 1)) in
  store_at dst (d + 2) (byte_at srcPixels (s + 2)).

(** The three bytes the target pixel [(x, y)] gets. *)
Definition rgb_at (srcPixels : list Z)
           (srcWidth srcHeight srcStride dstWidth dstHeight : Z) (y x : Z)
  : list Z :=
  let s := srcPixel srcWidth srcHeight srcStride dstWidth dstHeight y x in
  [byte_at srcPixels s; byte_at srcPixels (s + 1); byte_at srcPixels (s + 2)].

(** [downscaleRGBA].  The size [dstWidth * dstHeight * 3] handed to the
    vector constructor is an [int] product and wraps; the result is
    [None] when it is negative, which makes the constructor throw. *)
Definition downscaleRGBA (srcPixels : list Z)
           (srcWidth srcHeight srcStride dstWidth dstHeight : Z)
  : option (list Z) :=
  let size := int32 (int32 (dstWidth * dstHeight) * 3) in
  if size <? 0 then None
  else
    let dst := repeat 0 (Z.to_nat size) in
    Some (fold_left
            (fun dst y =>
               fold_left (copy_pixel srcPixels srcWidth srcHeight srcStride
                                     dstWidth dstHeight y)
                         (for_loop 0 dstWidth 1) dst)
            (for_loop 0 dstHeight 1) dst).
End Downscale.

(** The fields of the [ImageProcessor] singleton. *)
Record ImageProcessor : Type := mkImageProcessor {
  targetWidth_ : Z; targetHeight_ : Z; quality_ : Z; isLowMemory_ : bool }.

(** The constructor. *)
Definition initial : ImageProcessor := mkImageProcessor 360 640 40 false.

Definition setConfig (this : ImageProcessor) (targetWidth targetHeight quality : Z)
  : ImageProcessor :=
  mkImageProcessor targetWidth targetHeight quality (isLowMemory_ this).

Definition setLowMemory (this : ImageProcessor) (isLowMemory : bool)
  : ImageProcessor :=
  mkImageProcessor (targetWidth_ this) (targetHeight_ this) (quality_ this)
                   isLowMemory.

Definition isLowMemory (this : ImageProcessor) : bool := isLowMemory_ this.

(** [jpeg_write_callback]: [buffer->insert(buffer->end(), bytes, bytes + size)]. *)
Definition jpeg_write_callback (buffer data : list Z) : list Z := buffer ++ data.

(** What [AndroidBitmap_getInfo] fills in and the function reads. *)
Record AndroidBitmapInfo : Type := mkInfo {
  info_width : Z; info_height : Z; info_stride : Z }.

Section ProcessAndEncode.
Variable scaled : Z -> Z -> Z -> Z.
(** [static_cast<int>(targetW / aspectRatio)] and
    [static_cast<int>(targetH * aspectRatio)] with
    [aspectRatio = static_cast<float>(info.width) / info.height], as
    functions of [info.width], [info.height] and the target side. *)
Variables fit_height fit_width : Z -> Z -> Z -> Z.
(** Whether [data()] of an empty vector is null. *)
Variable empty_data_null : bool.
(** The encoder's inputs that the model keeps abstract. *)
Variables YDC0 UDC0 YAC0 UAC0 : Huffman.htable.
Variable quantized : Z -> Z -> nat -> list Z.

(** Lines 153-164. *)
Definition target_size (this : ImageProcessor) (info : AndroidBitmapInfo)
  : Z * Z :=
  let targetW := targetWidth_ this in
  let targetH := fit_height (info_width info) (info_height info) targetW in
  if targetHeight_ this <? targetH
  then (fit_width (info_width info) (info_height info) (targetHeight_ this),
        targetHeight_ this)
  else (targetW, targetH).

(** [processAndEncode].  [env_null] and [bitmap_null] stand for the two
    pointer tests, [getInfo] and [lockPixels] for what the two JNI calls
    give ([None] when they fail).  The result is [None] when a vector
    size, an [int] product, is negative, so that the call throws instead
    of returning. *)
Definition processAndEncode (this : ImageProcessor)
           (env_null bitmap_null : bool)
           (getInfo : option AndroidBitmapInfo)
           (lockPixels : option (list Z)) : option string :=
  if isLowMemory this then Some EmptyString
  else if env_null || bitmap_null then Some EmptyString
  else
    match getInfo with
    | None => Some EmptyString
    | Some info =>
        match lockPixels with
        | None => Some EmptyString
        | Some pixels =>
            let '(targetW, targetH) := target_size this info in
            match downscaleRGBA scaled pixels (info_width info)
                                (info_height info) (info_stride info)
                                targetW targetH with
            | None => None
            | Some rgbData =>
                if int32 (targetW * targetH) <? 0 then None
                else
                  let quality := quality_ this in
                  let data_null :=
                    match rgbData with [] => empty_data_null | _ => false end in
                  let '(result, bytes) :=
                    stbi_write_jpg_to_func YDC0 UDC0 YAC0 UAC0 quantized
                                           data_null targetW targetH 3 quality in
                  let jpegData := jpeg_write_callback [] bytes in
                  if result =? 0 then Some EmptyString
                  else Some (base64Encode jpegData)
            end
        end
    end.
End ProcessAndEncode.

End Processor.

(** ** Sample inputs *)

Module Samples.

(** The AC coefficients of a block: two zeros, -3, seventeen zeros, 1 and
    zeros to the end. *)
Definition block_ac : list Z :=
  [0; 0; -3] ++ repeat 0 17 ++ [1] ++ repeat 0 42.

Definition block : list Z := 5 :: block_ac.

(** A table that gives every symbol itself as an 8-bit code. *)
Definition sym_table : Z -> bits := fun s => (s, 8).

End Samples.

(** * Properties *)

Import BitWriter Magnitude BlockEncoder Tables Huffman Quant Encoder Base64.

(** ** Machine integers *)

Lemma int32_small z : - 2^31 <= z < 2^31 -> int32 z = z.
Proof.
  intros H. unfold int32.
  rewrite Z.mod_small; lia.
Qed.

Lemma u16_small z : 0 <= z < 65536 -> u16 z = z.
Proof. intros H. unfold u16. apply Z.mod_small. lia. Qed.

(** ** Bit writer *)

Example writeBits_ex1 :
  stbiw__jpg_writeBits (mkWriter 0 0 []) (255, 8) = mkWriter (-16777216) 0 [255; 0].
Proof. reflexivity. Qed.

Example writeBits_ex2 :
  fold_left stbiw__jpg_writeBits [(5, 3); (0x1F, 5); (0xFF, 8); (1, 2)]
            (mkWriter 0 0 [])
  = mkWriter (-12582912) 2 [191; 255; 0].
Proof. vm_compute. reflexivity. Qed.

Lemma stuffedb_app l m :
  stuffedb l = true -> stuffedb m = true -> stuffedb (l ++ m) = true.
Proof.
  induction l as [|c l IH]; simpl; intros Hl Hm; [assumption|].
  apply andb_true_iff in Hl as [Hc Hl].
  rewrite (IH Hl Hm), andb_true_r.
  destruct (c =? 255); [|reflexivity].
  destruct l as [|d l']; [discriminate|]. exact Hc.
Qed.

Lemma stuffedb_stuffed l : stuffedb l = true -> stuffed l.
Proof.
  induction l as [|c l IH]; intros Hl i Hi.
  - destruct i; discriminate.
  - simpl in Hl. apply andb_true_iff in Hl as [Hc Hl].
    destruct i as [|i]; simpl in *.
    + injection Hi as ->. simpl in Hc.
      destruct l as [|d l']; [discriminate|].
      destruct d; try discriminate. reflexivity.
    + apply (IH Hl i Hi).
Qed.

(** One round of the loop, as one step. *)
Lemma writeBits_loop_round fuel bb bc o :
  8 <= bc ->
  writeBits_loop (S fuel) bb bc o
  = writeBits_loop fuel (int32 (Z.shiftl bb 8)) (bc - 8)
      (o ++ (let c := Z.land (Z.shiftr bb 16) 255 in
             if c =? 255 then [c; 0] else [c])).
Proof.
  intros H. cbn [writeBits_loop]. apply Z.leb_le in H. rewrite H. unfold stbiw__putc.
  destruct (Z.land (Z.shiftr bb 16) 255 =? 255); [|reflexivity].
  rewrite <- app_assoc. reflexivity.
Qed.

Lemma writeBits_loop_done fuel bb bc o :
  bc < 8 -> writeBits_loop fuel bb bc o = mkWriter bb bc o.
Proof.
  intros H. destruct fuel; [reflexivity|]. cbn [writeBits_loop].
  apply Z.leb_gt in H. rewrite H. reflexivity.
Qed.

(** The loop only appends, and what it appends is stuffed. *)
Lemma writeBits_loop_out fuel : forall bb bc o,
  exists chunk, out (writeBits_loop fuel bb bc o) = o ++ chunk
                /\ stuffedb chunk = true.
Proof.
  induction fuel as [|fuel IH]; intros bb bc o.
  - exists []. simpl. rewrite app_nil_r. auto.
  - destruct (Z_le_gt_dec 8 bc) as [H|H].
    + rewrite writeBits_loop_round by assumption.
      match goal with |- context [writeBits_loop fuel ?b ?c (o ++ ?k)] =>
        destruct (IH b c (o ++ k)) as [chunk [E S]]; exists (k ++ chunk) end.
      rewrite E, app_assoc. split; [reflexivity|].
      apply stuffedb_app; [|assumption].
      cbv zeta. destruct (Z.land (Z.shiftr bb 16) 255 =? 255) eqn:E255.
      * apply Z.eqb_eq in E255. rewrite E255. reflexivity.
      * cbn [stuffedb]. rewrite E255. reflexivity.
    + rewrite writeBits_loop_done by lia. exists []. simpl.
      rewrite app_nil_r. auto.
Qed.

(** With the fuel [stbiw__jpg_writeBits] gives it, the loop stops on its own test. *)
Lemma writeBits_loop_exit fuel : forall bb bc o,
  (Z.to_nat bc <= fuel)%nat -> bitCnt (writeBits_loop fuel bb bc o) < 8.
Proof.
  induction fuel as [|fuel IH]; intros bb bc o Hf.
  - cbn [writeBits_loop bitCnt]. lia.
  - destruct (Z_le_gt_dec 8 bc) as [H|H].
    + rewrite writeBits_loop_round by assumption. apply IH. lia.
    + rewrite writeBits_loop_done by lia. cbn [bitCnt]. lia.
Qed.

(** More fuel than the loop needs changes nothing. *)
Lemma writeBits_loop_fuel fuel : forall fuel' bb bc o,
  (Z.to_nat bc <= fuel)%nat -> (fuel <= fuel')%nat ->
  writeBits_loop fuel' bb bc o = writeBits_loop fuel bb bc o.
Proof.
  induction fuel as [|fuel IH]; intros fuel' bb bc o Hf Hle.
  - rewrite !writeBits_loop_done by lia. reflexivity.
  - destruct fuel' as [|fuel']; [lia|].
    destruct (Z_le_gt_dec 8 bc) as [H|H].
    + rewrite !writeBits_loop_round by assumption. apply IH; lia.
    + rewrite !writeBits_loop_done by lia. reflexivity.
Qed.

Lemma writeBits_out w bs :
  exists chunk, out (stbiw__jpg_writeBits w bs) = out w ++ chunk
                /\ stuffedb chunk = true.
Proof. unfold stbiw__jpg_writeBits. apply writeBits_loop_out. Qed.

Lemma writeBits_calls_out calls : forall w,
  exists seg, out (fold_left stbiw__jpg_writeBits calls w) = out w ++ seg
              /\ stuffedb seg = true.
Proof.
  induction calls as [|bs calls IH]; intros w; simpl.
  - exists []. rewrite app_nil_r. auto.
  - destruct (IH (stbiw__jpg_writeBits w bs)) as [seg [E S]].
    destruct (writeBits_out w bs) as [chunk [Ec Sc]].
    exists (chunk ++ seg). rewrite E, Ec, app_assoc.
    split; [reflexivity|]. apply stuffedb_app; assumption.
Qed.

Lemma emitted_spec w calls :
  out (fold_left stbiw__jpg_writeBits calls w) = out w ++ emitted w calls
  /\ stuffedb (emitted w calls) = true.
Proof.
  destruct (writeBits_calls_out calls w) as [seg [E S]].
  unfold emitted. rewrite E, skipn_app, skipn_all, Nat.sub_diag. simpl.
  auto.
Qed.

(** ** Magnitude coding *)

Example calcBits_ex :
  map stbiw__jpg_calcBits [1; -1; 5; -3; 1023; -1024; 0]
  = [(1, 1); (0, 1); (5, 3); (0, 2); (1023, 10); (1023, 11); (0, 1)].
Proof. vm_compute. reflexivity. Qed.

(** The loop counts the shifts it takes to clear [tmp1]. *)
Lemma calcBits_loop_log2 fuel : forall tmp1 n,
  0 <= tmp1 -> Z.log2 tmp1 <= Z.of_nat fuel ->
  0 <= n -> n + Z.log2 tmp1 < 65536 ->
  calcBits_loop fuel tmp1 n = n + Z.log2 tmp1.
Proof.
  induction fuel as [|fuel IH]; intros tmp1 n Ht Hf Hn Hb.
  - pose proof (Z.log2_nonneg tmp1). cbn [calcBits_loop]. lia.
  - cbn [calcBits_loop].
    destruct (Z.shiftr tmp1 1 =? 0) eqn:E.
    + apply Z.eqb_eq, Z.shiftr_eq_0_iff in E.
      destruct E as [-> | [_ E]]; [change (Z.log2 0) with 0; lia|].
      pose proof (Z.log2_nonneg tmp1). lia.
    + apply Z.eqb_neq in E.
      assert (0 < tmp1) as Hpos.
      { destruct (Z.eq_dec tmp1 0) as [->|]; [|lia].
        exfalso. apply E. apply Z.shiftr_0_l. }
      assert (1 <= Z.log2 tmp1) as Hlog.
      { destruct (Z_lt_le_dec (Z.log2 tmp1) 1) as [H|H]; [|assumption].
        exfalso. apply E. apply Z.shiftr_eq_0; lia. }
      pose proof (Z.log2_shiftr tmp1 1 Hpos) as Hs.
      rewrite Z.max_r in Hs by lia.
      rewrite u16_small by lia.
      rewrite IH; try lia.
      apply Z.shiftr_nonneg. lia.
Qed.

(** Whatever the input, the loop leaves a size between [n] and [n + fuel]. *)
Lemma calcBits_loop_range fuel : forall tmp1 n,
  0 <= n -> n + Z.of_nat fuel < 65536 ->
  n <= calcBits_loop fuel tmp1 n <= n + Z.of_nat fuel.
Proof.
  induction fuel as [|fuel IH]; intros tmp1 n Hn Hb; cbn [calcBits_loop].
  - lia.
  - destruct (Z.shiftr tmp1 1 =? 0); [lia|].
    rewrite u16_small by lia.
    specialize (IH (Z.shiftr tmp1 1) (n + 1)). lia.
Qed.

Lemma calcBits_size_pos v : 1 <= snd (stbiw__jpg_calcBits v) <= 33.
Proof.
  unfold stbiw__jpg_calcBits. cbn [snd].
  match goal with |- _ <= calcBits_loop 32 ?t 1 <= _ =>
    pose proof (calcBits_loop_range 32 t 1) end.
  lia.
Qed.

Lemma calcBits_size v :
  - 2^31 < v < 2^31 -> snd (stbiw__jpg_calcBits v) = size_spec v.
Proof.
  intros Hv. unfold stbiw__jpg_calcBits, size_spec. cbn [snd].
  assert ((if v <? 0 then int32 (- v) else v) = Z.abs v) as ->.
  { destruct (v <? 0) eqn:E.
    - apply Z.ltb_lt in E. rewrite int32_small; lia.
    - apply Z.ltb_ge in E. lia. }
  assert (Z.log2 (Z.abs v) < 31) as Hl.
  { destruct (Z.eq_dec v 0) as [->|Hz]; [reflexivity|].
    apply Z.log2_lt_pow2; lia. }
  pose proof (Z.log2_nonneg (Z.abs v)).
  rewrite calcBits_loop_log2; lia.
Qed.

Lemma abs_lt_pow2_size v : Z.abs v < 2 ^ size_spec v.
Proof.
  unfold size_spec.
  destruct (Z.eq_dec v 0) as [->|Hz]; [reflexivity|].
  apply Z.log2_spec. lia.
Qed.

Lemma mask_ones n : 0 <= n < 31 -> int32 (Z.shiftl 1 n) - 1 = Z.ones n.
Proof.
  intros Hn. rewrite Z.shiftl_mul_pow2, Z.mul_1_l by lia.
  assert (0 < 2 ^ n) by (apply Z.pow_pos_nonneg; lia).
  assert (2 ^ n < 2 ^ 31) by (apply Z.pow_lt_mono_r; lia).
  rewrite int32_small by lia.
  rewrite Z.ones_equiv. lia.
Qed.

(** On 16-bit magnitudes [stbiw__jpg_calcBits] is the sign coding of the spec. *)
Lemma calcBits_magnitude v :
  Z.abs v < 65536 -> stbiw__jpg_calcBits v = magnitude_spec v.
Proof.
  intros Hv.
  assert (snd (stbiw__jpg_calcBits v) = size_spec v) as Hs
      by (apply calcBits_size; lia).
  unfold magnitude_spec. rewrite (surjective_pairing (stbiw__jpg_calcBits v)), Hs.
  f_equal. unfold stbiw__jpg_calcBits in *. cbn [fst snd] in *. rewrite Hs.
  assert (0 <= Z.log2 (Z.abs v) < 16) as Hl.
  { split; [apply Z.log2_nonneg|].
    destruct (Z.eq_dec v 0) as [->|Hz]; [reflexivity|].
    apply Z.log2_lt_pow2; lia. }
  assert (1 <= size_spec v <= 16) as Hsz by (unfold size_spec; lia).
  pose proof (abs_lt_pow2_size v) as Hp.
  assert (2 ^ size_spec v <= 2 ^ 16) as Hp16
      by (apply Z.pow_le_mono_r; lia).
  rewrite mask_ones by lia.
  rewrite !Z.land_ones by lia.
  destruct (v <? 0) eqn:E.
  - apply Z.ltb_lt in E. rewrite int32_small by lia.
    apply u16_small.
    pose proof (Z.mod_pos_bound (v - 1) (2 ^ size_spec v)). lia.
  - apply Z.ltb_ge in E.
    rewrite Z.mod_small by lia. apply u16_small. lia.
Qed.

(** ** Run-length structure of the AC tokens *)

Example ac_spec_ex :
  ac_spec 0 ([0; 0; -3] ++ repeat 0 17 ++ [1] ++ repeat 0 42)
  = [ACcode 0x22; Magn (0, 2); ZRL; ACcode 0x11; Magn (1, 1); EOB].
Proof. vm_compute. reflexivity. Qed.

Lemma ac_spec_zeros k : forall run,
  ac_spec run (repeat 0 k) = if (run + k =? 0)%nat then [] else [EOB].
Proof.
  induction k as [|k IH]; intros run; cbn [repeat ac_spec].
  - rewrite Nat.add_0_r. reflexivity.
  - rewrite Z.eqb_refl, IH.
    replace (S run + k)%nat with (run + S k)%nat by lia. reflexivity.
Qed.

Lemma ac_spec_run k : forall run v rest,
  v <> 0 ->
  ac_spec run (repeat 0 k ++ v :: rest)
  = run_tokens (run + k) v ++ ac_spec 0 rest.
Proof.
  induction k as [|k IH]; intros run v rest Hv; cbn [repeat app ac_spec].
  - apply Z.eqb_neq in Hv. rewrite Hv, Nat.add_0_r. reflexivity.
  - rewrite Z.eqb_refl, IH by assumption.
    replace (S run + k)%nat with (run + S k)%nat by lia. reflexivity.
Qed.

Lemma ac_spec_split l1 : forall run v l2,
  v <> 0 ->
  ac_spec run (l1 ++ v :: l2) = ac_spec run (l1 ++ [v]) ++ ac_spec 0 l2.
Proof.
  induction l1 as [|u l1 IH]; intros run v l2 Hv.
  - pose proof (ac_spec_run 0 run v l2 Hv) as E1.
    pose proof (ac_spec_run 0 run v [] Hv) as E2.
    cbn [repeat app] in *. rewrite E1, E2.
    cbn [ac_spec Nat.eqb]. rewrite app_nil_r. reflexivity.
  - cbn [app ac_spec]. destruct (u =? 0).
    + apply IH. assumption.
    + rewrite (IH 0%nat v l2 Hv), !app_assoc. reflexivity.
Qed.

(** Leading zeros of a list that holds a nonzero value. *)
Lemma first_nonzero (l : list Z) :
  (exists v, In v l /\ v <> 0) ->
  exists k v rest, l = repeat 0 k ++ v :: rest /\ v <> 0.
Proof.
  induction l as [|u l IH]; intros [v [Hin Hv]]; [contradiction|].
  destruct (Z.eq_dec u 0) as [->|Hu].
  - destruct Hin as [<-|Hin]; [contradiction|].
    destruct IH as [k [v' [rest [-> Hv']]]]; [eauto|].
    exists (S k), v', rest. auto.
  - exists 0%nat, u, l. auto.
Qed.

(** Any list is a part that is empty or ends in a nonzero value, followed
    by zeros. *)
Lemma trailing_zeros (l : list Z) :
  exists body m, l = body ++ repeat 0 m /\ ends_nonzero body.
Proof.
  induction l as [|x l IH] using rev_ind.
  - exists [], 0%nat. split; [reflexivity | left; reflexivity].
  - destruct (Z.eq_dec x 0) as [->|Hx].
    + destruct IH as [body [m [-> Hb]]].
      exists body, (S m). split; [|assumption].
      rewrite <- app_assoc, <- repeat_cons. reflexivity.
    + exists (l ++ [x]), 0%nat. cbn [repeat]. rewrite app_nil_r.
      split; [reflexivity|]. right. exists l, x. auto.
Qed.

Lemma count_EOB_app l m : count_EOB (l ++ m) = (count_EOB l + count_EOB m)%nat.
Proof. unfold count_EOB. rewrite filter_app, length_app. reflexivity. Qed.

Lemma count_EOB_ZRL n : count_EOB (repeat ZRL n) = 0%nat.
Proof. induction n; [reflexivity | exact IHn]. Qed.

Lemma count_EOB_run run v : count_EOB (run_tokens run v) = 0%nat.
Proof.
  unfold run_tokens. rewrite count_EOB_app, count_EOB_ZRL.
  unfold count_EOB. cbn [filter tokenb EOB].
  pose proof (calcBits_size_pos v) as Hs.
  assert (0 <= Z.shiftl (Z.of_nat (run mod 16)) 4) as Hsh
      by (apply Z.shiftl_nonneg; lia).
  destruct (0 =? _) eqn:E; [apply Z.eqb_eq in E; lia|].
  destruct (stbiw__jpg_calcBits v). reflexivity.
Qed.

(** No EOB is among the tokens of coefficients that end in a nonzero
    value. *)
Lemma count_EOB_nonzero_end l : forall run v,
  v <> 0 -> count_EOB (ac_spec run (l ++ [v])) = 0%nat.
Proof.
  induction l as [|u l IH]; intros run v Hv.
  - pose proof (ac_spec_run 0 run v [] Hv) as E.
    cbn [repeat app] in *. rewrite E, count_EOB_app, count_EOB_run.
    reflexivity.
  - cbn [app ac_spec]. destruct (u =? 0); [apply IH; assumption|].
    rewrite count_EOB_app, count_EOB_run, IH by assumption. reflexivity.
Qed.

Lemma ends_nonzero_suffix l1 l2 : ends_nonzero (l1 ++ l2) -> ends_nonzero l2.
Proof.
  intros H. destruct l2 as [|x l2] using rev_ind; [left; reflexivity|].
  right. destruct H as [H | [b [v [H Hv]]]].
  - apply app_eq_nil in H as [_ H]. apply app_eq_nil in H as [_ H].
    discriminate.
  - rewrite app_assoc in H. apply app_inj_tail in H as [_ ->].
    exists l2, v. auto.
Qed.

Lemma nth_after_zeros k (v : Z) r : nth k (repeat 0 k ++ v :: r) 0 = v.
Proof. induction k; [reflexivity | exact IHk]. Qed.

(** ** The entropy stage against the token lists *)

Section BlockEncoderProofs.
Context {W : Type} (emit : W -> bits -> W) (HTDC HTAC : Z -> bits).

Lemma DUat_nat DU n : DUat DU (Z.of_nat n) = nth n DU 0.
Proof. unfold DUat. rewrite Nat2Z.id. reflexivity. Qed.

(** The backward scan stops on the last nonzero coefficient, or on 0. *)
Lemma scan_end0pos_spec d0 body M :
  ends_nonzero body ->
  forall m fuel, (m <= M)%nat -> (m <= fuel)%nat ->
    scan_end0pos (d0 :: body ++ repeat 0 M) fuel
                 (Z.of_nat (List.length body + m))
    = Z.of_nat (List.length body).
Proof.
  intros Hb. induction m as [|m IH]; intros fuel HM Hf.
  - rewrite Nat.add_0_r. destruct fuel; [reflexivity|].
    cbn [scan_end0pos].
    destruct Hb as [-> | [b [v [-> Hv]]]]; [reflexivity|].
    rewrite DUat_nat, length_app, Nat.add_comm. cbn [List.length Nat.add nth].
    rewrite <- app_assoc. cbn [app]. rewrite nth_middle.
    apply Z.eqb_neq in Hv. rewrite Hv, andb_false_r. reflexivity.
  - destruct fuel as [|fuel]; [lia|]. cbn [scan_end0pos].
    rewrite DUat_nat.
    replace (List.length body + S m)%nat with (S (List.length body + m)) by lia.
    cbn [nth]. rewrite app_nth2_plus, nth_repeat_lt by lia.
    replace (0 <? Z.of_nat (S (List.length body + m))) with true
      by (symmetry; apply Z.ltb_lt; lia).
    cbn [andb Z.eqb].
    replace (Z.of_nat (S (List.length body + m)) - 1)
      with (Z.of_nat (List.length body + m)) by lia.
    apply IH; lia.
Qed.

(** The forward scan stops on the next nonzero coefficient. *)
Lemma skip_zeroes_spec DU pre k v rest e :
  DU = pre ++ repeat 0 k ++ v :: rest -> v <> 0 ->
  Z.of_nat (List.length pre + k) <= e ->
  forall d j fuel, (j + d = k)%nat -> (d < fuel)%nat ->
    skip_zeroes DU fuel e (Z.of_nat (List.length pre + j))
    = Z.of_nat (List.length pre + k).
Proof.
  intros -> Hv He. induction d as [|d IH]; intros j fuel Hj Hf;
    (destruct fuel as [|fuel]; [lia|]); cbn [skip_zeroes];
    rewrite DUat_nat, app_nth2_plus.
  - replace j with k by lia. rewrite nth_after_zeros.
    apply Z.eqb_neq in Hv. rewrite Hv. reflexivity.
  - rewrite app_nth1 by (rewrite repeat_length; lia).
    rewrite nth_repeat_lt by lia. cbn [Z.eqb andb].
    replace (Z.of_nat (List.length pre + j) <=? e) with true
      by (symmetry; apply Z.leb_le; lia).
    replace (Z.of_nat (List.length pre + j) + 1)
      with (Z.of_nat (List.length pre + S j)) by lia.
    apply IH; lia.
Qed.

Lemma write_M16zeroes_spec n : forall fuel lng nrmarker w,
  (n <= fuel)%nat -> lng - nrmarker + 1 = Z.of_nat n ->
  write_M16zeroes emit HTAC fuel lng nrmarker w
  = fold_left emit (repeat (HTAC 0xF0) n) w.
Proof.
  induction n as [|n IH]; intros fuel lng nrmarker w Hf Hn.
  - destruct fuel; [reflexivity|]. cbn [write_M16zeroes].
    replace (nrmarker <=? lng) with false
      by (symmetry; apply Z.leb_gt; lia).
    reflexivity.
  - destruct fuel as [|fuel]; [lia|]. cbn [write_M16zeroes].
    replace (nrmarker <=? lng) with true
      by (symmetry; apply Z.leb_le; lia).
    cbn [repeat fold_left]. apply IH; lia.
Qed.

(** The ZRL codes and the reduced run, as [run_tokens] has them. *)
Lemma zrl_codes k w :
  (if 16 <=? Z.of_nat k
   then write_M16zeroes emit HTAC (Z.to_nat (Z.of_nat k))
                        (Z.shiftr (Z.of_nat k) 4) 1 w
   else w)
  = fold_left emit (map (code_of HTDC HTAC) (repeat ZRL (k / 16))) w.
Proof.
  rewrite map_repeat. cbn [code_of ZRL].
  destruct (16 <=? Z.of_nat k) eqn:E.
  - apply write_M16zeroes_spec.
    + rewrite Nat2Z.id. apply Nat.Div0.div_le_upper_bound. lia.
    + rewrite Z.shiftr_div_pow2, Nat2Z.inj_div by lia.
      change (2 ^ 4) with 16. change (Z.of_nat 16) with 16. lia.
  - apply Z.leb_gt in E. rewrite Nat.div_small by lia. reflexivity.
Qed.

Lemma reduced_run k :
  (if 16 <=? Z.of_nat k then Z.land (Z.of_nat k) 15 else Z.of_nat k)
  = Z.of_nat (k mod 16).
Proof.
  destruct (16 <=? Z.of_nat k) eqn:E.
  - change 15 with (Z.ones 4). rewrite Z.land_ones, Nat2Z.inj_mod by lia.
    reflexivity.
  - apply Z.leb_gt in E. rewrite Nat.mod_small by lia. reflexivity.
Qed.

(** The main loop, entered at the first coefficient of [body], writes
    the tokens of [body]. *)
Lemma ac_loop_spec fuel : forall DU pre body post w,
  DU = pre ++ body ++ post -> ends_nonzero body ->
  (List.length body <= fuel)%nat -> (List.length body <= 64)%nat ->
  ac_loop emit HTAC DU fuel
          (Z.of_nat (List.length pre + List.length body) - 1)
          (Z.of_nat (List.length pre)) w
  = fold_left emit (map (code_of HTDC HTAC) (ac_spec 0 body)) w.
Proof.
  induction fuel as [|fuel IH]; intros DU pre body post w HDU Hb Hf H64.
  - destruct body; [reflexivity | cbn [List.length] in Hf; lia].
  - cbn [ac_loop]. destruct Hb as [-> | [b [u [Hbody Hu]]]].
    + cbn [List.length].
      replace (_ <=? _) with false by (symmetry; apply Z.leb_gt; lia).
      reflexivity.
    + destruct (first_nonzero body) as [k [v [rest [Hrun Hv]]]].
      { exists u. split; [|assumption].
        rewrite Hbody. apply in_or_app. right. left. reflexivity. }
      assert (ends_nonzero rest) as Hrest.
      { apply (ends_nonzero_suffix (repeat 0 k ++ [v])).
        rewrite <- app_assoc. cbn [app]. rewrite <- Hrun, Hbody.
        right. exists b, u. auto. }
      assert (List.length body = (k + S (List.length rest))%nat) as Hlen.
      { rewrite Hrun, length_app, repeat_length. reflexivity. }
      clear Hbody Hu b u.
      replace (_ <=? _) with true by (symmetry; apply Z.leb_le; lia).
      assert (DU = pre ++ repeat 0 k ++ v :: (rest ++ post)) as HDU'.
      { rewrite HDU, Hrun, <- app_assoc. reflexivity. }
      pose proof (skip_zeroes_spec DU pre k v (rest ++ post)
                    (Z.of_nat (List.length pre + List.length body) - 1)
                    HDU' Hv ltac:(lia) k 0%nat 64%nat
                    ltac:(lia) ltac:(lia)) as Hskip.
      rewrite Nat.add_0_r in Hskip. rewrite Hskip.
      replace (Z.of_nat (List.length pre + k) - Z.of_nat (List.length pre))
        with (Z.of_nat k) by lia.
      rewrite zrl_codes, reduced_run, DUat_nat.
      replace (nth (List.length pre + k) DU 0) with v
        by (rewrite HDU', app_nth2_plus, nth_after_zeros; reflexivity).
      replace (ac_spec 0 body) with (run_tokens k v ++ ac_spec 0 rest)
        by (rewrite Hrun; symmetry; apply (ac_spec_run k 0 v rest Hv)).
      unfold run_tokens.
      rewrite !map_app, !fold_left_app. cbn [map fold_left code_of].
      specialize (IH DU (pre ++ repeat 0 k ++ [v]) rest post).
      rewrite !length_app, repeat_length in IH. cbn [List.length] in IH.
      replace (Z.of_nat (List.length pre + (k + 1) + List.length rest))
        with (Z.of_nat (List.length pre + List.length body)) in IH by lia.
      replace (Z.of_nat (List.length pre + (k + 1)))
        with (Z.of_nat (List.length pre + k) + 1) in IH by lia.
      apply IH; [|assumption|lia|lia].
      rewrite HDU, Hrun, <- !app_assoc. reflexivity.
Qed.

Lemma encode_AC_spec d0 ac w :
  List.length ac = 63%nat ->
  encode_AC emit HTAC (d0 :: ac) w
  = fold_left emit (map (code_of HTDC HTAC) (ac_spec 0 ac)) w.
Proof.
  intros Hlen. destruct (trailing_zeros ac) as [body [m [Hac Hb]]].
  assert (List.length body + m = 63)%nat as Hsum
      by (rewrite <- Hlen, Hac, length_app, repeat_length; reflexivity).
  unfold encode_AC.
  assert (scan_end0pos (d0 :: ac) 63 63 = Z.of_nat (List.length body)) as ->.
  { rewrite Hac. change 63 with (Z.of_nat 63). rewrite <- Hsum.
    apply scan_end0pos_spec; [assumption|lia|lia]. }
  destruct (Z.of_nat (List.length body) =? 0) eqn:E0.
  - apply Z.eqb_eq in E0.
    assert (body = []) as -> by (destruct body; [reflexivity|discriminate]).
    cbn [app List.length Nat.add] in *. subst m. rewrite Hac.
    reflexivity.
  - apply Z.eqb_neq in E0.
    pose proof (ac_loop_spec 63 (d0 :: ac) [d0] body (repeat 0 m) w) as Hloop.
    cbn [List.length Nat.add] in Hloop.
    replace (Z.of_nat (S (List.length body)) - 1)
      with (Z.of_nat (List.length body)) in Hloop by lia.
    change (Z.of_nat 1) with 1 in Hloop.
    rewrite Hloop; [|rewrite Hac; reflexivity|assumption|lia|lia].
    destruct Hb as [-> | [b [v [Hbv Hv]]]]; [contradiction E0; reflexivity|].
    destruct (Z.of_nat (List.length body) =? 63) eqn:E63; cbn [negb].
    + apply Z.eqb_eq in E63. assert (m = 0%nat) as -> by lia.
      rewrite Hac. cbn [repeat]. rewrite app_nil_r. reflexivity.
    + apply Z.eqb_neq in E63.
      rewrite Hac, Hbv, <- app_assoc. cbn [app].
      rewrite (ac_spec_split b 0 v (repeat 0 m) Hv), ac_spec_zeros.
      destruct m as [|m]; [lia|]. cbn [Nat.add Nat.eqb].
      rewrite map_app, fold_left_app. reflexivity.
Qed.

Lemma encode_DC_spec DU w DC :
  Z.abs (DUat DU 0 - DC) < 65536 ->
  encode_DC emit HTDC DU w DC
  = fold_left emit (map (code_of HTDC HTAC) (dc_spec (DUat DU 0 - DC))) w.
Proof.
  intros Hd. unfold encode_DC, dc_spec.
  rewrite int32_small by lia.
  destruct (DUat DU 0 - DC =? 0); [reflexivity|].
  rewrite calcBits_magnitude by assumption. reflexivity.
Qed.

(** What holds of the writer before a data unit and is kept by every
    [stbiw__jpg_writeBits] call holds after the data unit, whatever the block. *)
Section Invariant.
Variable P : W -> Prop.
Hypothesis P_emit : forall w b, P w -> P (emit w b).

Lemma write_M16zeroes_inv fuel : forall lng nrmarker w,
  P w -> P (write_M16zeroes emit HTAC fuel lng nrmarker w).
Proof.
  induction fuel as [|fuel IH]; intros lng nrmarker w Hw;
    cbn [write_M16zeroes]; [assumption|].
  destruct (nrmarker <=? lng); auto.
Qed.

Lemma ac_loop_inv DU fuel : forall e i w,
  P w -> P (ac_loop emit HTAC DU fuel e i w).
Proof.
  induction fuel as [|fuel IH]; intros e i w Hw; cbn [ac_loop];
    [assumption|].
  destruct (i <=? e); [|assumption].
  apply IH. do 2 apply P_emit.
  destruct (16 <=? _); [apply write_M16zeroes_inv|]; assumption.
Qed.

Lemma processDU_inv DU w DC :
  P w -> P (fst (stbiw__jpg_processDU emit HTDC HTAC DU w DC)).
Proof.
  intros Hw. unfold stbiw__jpg_processDU, encode_AC, encode_DC. cbn [fst].
  assert (P (if int32 (DUat DU 0 - DC) =? 0 then emit w (HTDC 0)
             else emit (emit w (HTDC (snd (stbiw__jpg_calcBits (int32 (DUat DU 0 - DC))))))
                       (stbiw__jpg_calcBits (int32 (DUat DU 0 - DC))))) as Hdc
      by (destruct (_ =? 0); auto).
  destruct (scan_end0pos DU 63 63 =? 0); [auto|].
  destruct (negb _); auto using ac_loop_inv.
Qed.
End Invariant.
End BlockEncoderProofs.

(** ** Block encoder: the AC terms *)

(** For a coefficient below [2^15] in magnitude the size fits the low
    nibble, so the symbol is the byte [(run << 4) | size] and is neither
    EOB nor ZRL. *)
Lemma run_symbol_byte (k : nat) (v : Z) :
  v <> 0 -> Z.abs v < 32768 ->
  let run := Z.of_nat (k mod 16) in
  let sym := Z.shiftl run 4 + snd (stbiw__jpg_calcBits v) in
  snd (stbiw__jpg_calcBits v) = size_spec v
  /\ 1 <= size_spec v <= 15
  /\ sym = Z.lor (Z.shiftl run 4) (size_spec v)
  /\ 0 < sym < 256 /\ sym <> 0xF0.
Proof.
  intros Hv Hr run sym.
  assert (snd (stbiw__jpg_calcBits v) = size_spec v) as Hs
      by (apply calcBits_size; lia).
  assert (0 <= Z.log2 (Z.abs v) < 15) as Hl
      by (split; [apply Z.log2_nonneg | apply Z.log2_lt_pow2; lia]).
  assert (1 <= size_spec v <= 15) as Hsz by (unfold size_spec; lia).
  assert (0 <= run < 16) as Hrun
      by (unfold run; pose proof (Nat.mod_upper_bound k 16); lia).
  subst sym. rewrite Hs. clearbody run.
  assert (forallb
            (fun r => forallb
                        (fun z => Z.shiftl r 4 + z =? Z.lor (Z.shiftl r 4) z)
                        (map Z.of_nat (seq 1 15)))
            (map Z.of_nat (seq 0 16)) = true) as Hall
      by (vm_compute; reflexivity).
  rewrite forallb_forall in Hall.
  assert (In run (map Z.of_nat (seq 0 16))) as Hin1
      by (apply in_map_iff; exists (Z.to_nat run); split;
          [lia | apply in_seq; lia]).
  specialize (Hall run Hin1). rewrite forallb_forall in Hall.
  assert (In (size_spec v) (map Z.of_nat (seq 1 15))) as Hin2
      by (apply in_map_iff; exists (Z.to_nat (size_spec v)); split;
          [lia | apply in_seq; lia]).
  specialize (Hall _ Hin2). apply Z.eqb_eq in Hall.
  rewrite Z.shiftl_mul_pow2 in * by lia. change (2 ^ 4) with 16 in *.
  repeat split; try assumption; lia.
Qed.

Example encode_AC_ex :
  encode_AC record Samples.sym_table Samples.block []
  = [(0x22, 8); (0, 2); (0xF0, 8); (0x11, 8); (1, 1); (0x00, 8)].
Proof. vm_compute. reflexivity. Qed.

(** C1.  For a block of 64 quantised coefficients, the
    [stbiw__jpg_writeBits] calls [stbiw__jpg_processDU] makes after those
    of the DC term are those of the tokens [ac_spec] gives for positions
    1..63, whatever the writer and the tables.  A nonzero value that
    follows [k] zeros gives [k / 16] ZRL codes, the code of symbol
    [((k mod 16) << 4) + size] and the magnitude bits; zeros from some
    position through 63 give the tokens of what comes before them and
    then one EOB, the only one, with nothing after it; with a nonzero
    value at position 63 no EOB is among the tokens; 63 zeros give
    exactly one EOB.  For values below [2^15] in magnitude [size] is the
    number of bits of the magnitude, at most 15, and the symbol is the
    byte [(run << 4) | size]. *)
Theorem processDU_AC_run_length :
  forall (W : Type) (emit : W -> bits -> W) (HTDC HTAC : Z -> bits)
         (d0 : Z) (ac : list Z) (w : W),
    List.length ac = 63%nat ->
    encode_AC emit HTAC (d0 :: ac) w
    = fold_left emit (map (code_of HTDC HTAC) (ac_spec 0 ac)) w
    /\ (forall DC,
          stbiw__jpg_processDU emit HTDC HTAC (d0 :: ac) w DC
          = (fold_left emit (map (code_of HTDC HTAC) (ac_spec 0 ac))
                       (encode_DC emit HTDC (d0 :: ac) w DC),
             d0))
    /\ (forall l1 k v rest,
          ac = l1 ++ repeat 0 k ++ v :: rest -> ends_nonzero l1 -> v <> 0 ->
          ac_spec 0 ac
          = ac_spec 0 l1
            ++ repeat ZRL (k / 16)
            ++ [ACcode (Z.shiftl (Z.of_nat (k mod 16)) 4
                        + snd (stbiw__jpg_calcBits v));
                Magn (stbiw__jpg_calcBits v)]
            ++ ac_spec 0 rest)
    /\ (forall l1 m,
          ac = l1 ++ repeat 0 (S m) -> ends_nonzero l1 ->
          ac_spec 0 ac = ac_spec 0 l1 ++ [EOB]
          /\ count_EOB (ac_spec 0 l1) = 0%nat
          /\ count_EOB (ac_spec 0 ac) = 1%nat)
    /\ (forall l v,
          ac = l ++ [v] -> v <> 0 -> count_EOB (ac_spec 0 ac) = 0%nat)
    /\ (ac = repeat 0 63 -> ac_spec 0 ac = [EOB])
    /\ (forall (k : nat) v,
          v <> 0 -> Z.abs v < 32768 ->
          let run := Z.of_nat (k mod 16) in
          let sym := Z.shiftl run 4 + snd (stbiw__jpg_calcBits v) in
          snd (stbiw__jpg_calcBits v) = size_spec v
          /\ 1 <= size_spec v <= 15
          /\ sym = Z.lor (Z.shiftl run 4) (size_spec v)
          /\ 0 < sym < 256 /\ sym <> 0xF0).
Proof.
  intros W emit HTDC HTAC d0 ac w Hlen.
  split; [apply encode_AC_spec; assumption|].
  split; [|split; [|split; [|split; [|split]]]];
    [| | | | | exact run_symbol_byte].
  - intros DC. unfold stbiw__jpg_processDU.
    rewrite (encode_AC_spec emit HTDC HTAC) by assumption. reflexivity.
  - intros l1 k v rest -> [-> | [b [u [-> Hu]]]] Hv.
    + cbn [app ac_spec Nat.eqb].
      rewrite (ac_spec_run k 0 v rest Hv). unfold run_tokens.
      rewrite <- app_assoc. reflexivity.
    + rewrite <- app_assoc. cbn [app].
      rewrite (ac_spec_split b 0 u _ Hu), (ac_spec_run k 0 v rest Hv).
      unfold run_tokens. rewrite <- !app_assoc. reflexivity.
  - intros l1 m -> [-> | [b [u [-> Hu]]]].
    + cbn [app]. rewrite (ac_spec_zeros (S m) 0). auto.
    + rewrite <- app_assoc. cbn [app].
      rewrite (ac_spec_split b 0 u _ Hu), (ac_spec_zeros (S m) 0).
      cbn [Nat.add Nat.eqb].
      rewrite count_EOB_app, (count_EOB_nonzero_end b 0 u Hu). auto.
  - intros l v -> Hv. apply count_EOB_nonzero_end. assumption.
  - intros ->. apply (ac_spec_zeros 63 0).
Qed.

Lemma processDU_AC_run_length_witness :
  List.length Samples.block_ac = 63%nat
  /\ encode_AC record Samples.sym_table (5 :: Samples.block_ac) []
     = fold_left record
         (map (code_of Samples.sym_table Samples.sym_table)
              (ac_spec 0 Samples.block_ac)) [].
Proof.
  split; [reflexivity|].
  exact (proj1 (processDU_AC_run_length
                  (list bits) record Samples.sym_table Samples.sym_table
                  5 Samples.block_ac [] eq_refl)).
Defined.

Example processDU_ex :
  stbiw__jpg_processDU record Samples.sym_table Samples.sym_table
                       Samples.block [] 8
  = ([(2, 8); (0, 2);
      (0x22, 8); (0, 2); (0xF0, 8); (0x11, 8); (1, 1); (0x00, 8)], 5).
Proof. vm_compute. reflexivity. Qed.

(** ** Huffman table builder *)

Example buildHuffmanTable_ex :
  map (stbiw__jpg_buildHuffmanTable
         stbiw__jpg_std_ac_luminance_nrcodes stbiw__jpg_std_ac_luminance_values
                         (fun _ => (0, 0)))
      [0x00; 0xF0; 0x01; 0xFA]
  = [(10, 4); (2041, 11); (0, 2); (65534, 16)].
Proof. vm_compute. reflexivity. Qed.

Lemma nodupb_NoDup l : nodupb l = true -> NoDup l.
Proof.
  induction l as [|x l IH]; intros H; [constructor|].
  cbn [nodupb] in H. apply andb_true_iff in H as [Hx Hl].
  constructor; [|auto].
  intros Hin. apply negb_true_iff in Hx.
  assert (existsb (Z.eqb x) l = true) as E
      by (apply existsb_exists; exists x; split; [assumption|apply Z.eqb_refl]).
  congruence.
Qed.

(** After the assignments, a symbol that occurs once holds its pair, and
    an unassigned symbol holds what it held before. *)
Lemma assign_lookup t : forall h s v,
  NoDup (map fst t) -> In (s, v) t -> fold_left assign t h s = v.
Proof.
  induction t as [|[s' v'] t IH]; intros h s v Hnd Hin; [contradiction|].
  cbn [map fst] in Hnd. inversion Hnd as [|? ? Hnot Hnd']; subst.
  cbn [fold_left]. destruct Hin as [E|Hin].
  - injection E as -> ->.
    assert (forall t' h', ~ In s (map fst t') ->
                          fold_left assign t' h' s = h' s) as Hkeep.
    { clear. induction t' as [|[a b] t' IH]; intros h' Hn; [reflexivity|].
      cbn [fold_left]. rewrite IH.
      - unfold assign, store. cbn [fst snd].
        destruct (s =? a) eqn:E; [|reflexivity].
        apply Z.eqb_eq in E. subst a. exfalso. apply Hn. left. reflexivity.
      - intros H. apply Hn. right. assumption. }
    rewrite Hkeep by assumption.
    unfold assign, store. cbn [fst snd]. rewrite Z.eqb_refl. reflexivity.
  - apply IH; assumption.
Qed.

Section BuildProofs.
Variables nrcodes std_table : list Z.

(** The inner loop writes the next [m] symbols with consecutive codes. *)
Lemma symbols_loop_spec m : forall fuel j i k code h done syms,
  std_table = done ++ syms -> k = Z.of_nat (List.length done) ->
  (m <= List.length syms)%nat -> (m <= fuel)%nat ->
  Z.of_nat m = at_ nrcodes j - i + 1 ->
  0 <= code -> code + Z.of_nat m <= 65536 -> 0 <= j < 65536 ->
  symbols_loop nrcodes std_table fuel j i k code h
  = (k + Z.of_nat m, code + Z.of_nat m,
     fold_left assign
       (combine (firstn m syms)
                (map (fun t => (code + Z.of_nat t, j)) (seq 0 m))) h).
Proof.
  induction m as [|m IH];
    intros fuel j i k code h done syms Hstd Hk Hlen Hf Hm Hc Hb Hj.
  - rewrite !Z.add_0_r. cbn [firstn seq map combine fold_left].
    destruct fuel; [reflexivity|]. cbn [symbols_loop].
    replace (i <=? at_ nrcodes j) with false
      by (symmetry; apply Z.leb_gt; lia).
    reflexivity.
  - destruct fuel as [|fuel]; [lia|].
    destruct syms as [|s0 syms]; [cbn [List.length] in Hlen; lia|].
    cbn [symbols_loop].
    replace (i <=? at_ nrcodes j) with true
      by (symmetry; apply Z.leb_le; lia).
    assert (at_ std_table k = s0) as ->.
    { unfold at_. rewrite Hk, Nat2Z.id, Hstd. apply nth_middle. }
    rewrite int32_small by lia.
    rewrite (IH fuel j (i + 1) (k + 1) (code + 1) _ (done ++ [s0]) syms);
      try lia.
    + cbn [firstn seq map combine fold_left List.length] in *.
      rewrite <- seq_shift, map_map, Z.add_0_r, !u16_small by lia.
      f_equal; [f_equal; lia|].
      f_equal. f_equal. apply map_ext. intros t. f_equal. lia.
    + rewrite Hstd, <- app_assoc. reflexivity.
    + rewrite length_app. cbn [List.length]. lia.
    + cbn [List.length] in Hlen. lia.
Qed.

Lemma kraftb_sum_nonneg counts : forall j code,
  kraftb j code counts = true -> 0 <= fold_right Z.add 0 counts.
Proof.
  induction counts as [|n counts IH]; intros j code H; cbn in *; [lia|].
  repeat (apply andb_true_iff in H as [H ?]).
  apply Z.leb_le in H. specialize (IH _ _ H0). lia.
Qed.

(** The outer loop writes the canonical assignments of the lengths it
    still has to walk. *)
Lemma lengths_loop_spec counts : forall fuel j k code h donec done syms,
  nrcodes = donec ++ counts -> j = Z.of_nat (List.length donec) ->
  std_table = done ++ syms -> k = Z.of_nat (List.length done) ->
  (List.length counts <= fuel)%nat ->
  j + Z.of_nat (List.length counts) = 17 -> 1 <= j ->
  kraftb j code counts = true -> 0 <= code ->
  fold_right Z.add 0 counts <= Z.of_nat (List.length syms) ->
  lengths_loop nrcodes std_table fuel j k code h
  = fold_left assign (canonical_from j code counts syms) h.
Proof.
  induction counts as [|n counts IH];
    intros fuel j k code h donec done syms Hnr Hj Hstd Hk Hf H17 H1 Hkr Hc Hs.
  - cbn [List.length] in H17. destruct fuel; [reflexivity|].
    cbn [lengths_loop].
    replace (j <=? 16) with false by (symmetry; apply Z.leb_gt; lia).
    reflexivity.
  - destruct fuel as [|fuel]; [cbn [List.length] in Hf; lia|].
    cbn [List.length] in Hf, H17. cbn [kraftb] in Hkr.
    repeat (apply andb_true_iff in Hkr as [Hkr ?]).
    apply Z.leb_le in Hkr.
    repeat match goal with H : (_ <=? _) = true |- _ => apply Z.leb_le in H end.
    pose proof (kraftb_sum_nonneg counts _ _ H) as Hrest.
    cbn [fold_right] in Hs.
    assert (2 ^ j <= 2 ^ 16) by (apply Z.pow_le_mono_r; lia).
    cbn [lengths_loop canonical_from].
    replace (j <=? 16) with true by (symmetry; apply Z.leb_le; lia).
    assert (at_ nrcodes j = n) as Hat.
    { unfold at_. rewrite Hj, Nat2Z.id, Hnr. apply nth_middle. }
    rewrite (symbols_loop_spec (Z.to_nat n) 255 j 1 k code h done syms);
      try assumption; try lia.
    rewrite Z2Nat.id by lia.
    rewrite int32_small by lia.
    rewrite fold_left_app.
    replace ((code + n) * 2) with (2 * (code + n)) by lia.
    apply (IH fuel (j + 1) (k + n) (2 * (code + n)) _
              (donec ++ [n]) (done ++ firstn (Z.to_nat n) syms)
              (skipn (Z.to_nat n) syms)); try assumption; try lia.
    + rewrite Hnr, <- app_assoc. reflexivity.
    + rewrite length_app. cbn [List.length]. lia.
    + rewrite Hstd, <- app_assoc, firstn_skipn. reflexivity.
    + rewrite length_app, firstn_length_le by lia. lia.
    + rewrite length_skipn. lia.
Qed.

Lemma well_formedb_parts :
  well_formedb nrcodes std_table = true ->
  exists c0 counts,
    nrcodes = c0 :: counts /\ List.length counts = 16%nat
    /\ kraftb 1 0 counts = true
    /\ fold_right Z.add 0 counts = Z.of_nat (List.length std_table)
    /\ NoDup std_table.
Proof.
  unfold well_formedb. intros H.
  repeat (apply andb_true_iff in H as [H ?]).
  apply Nat.eqb_eq in H. destruct nrcodes as [|c0 counts]; [discriminate|].
  exists c0, counts. cbn [tl List.length] in *.
  split; [reflexivity|]. split; [lia|]. split; [assumption|].
  split; [apply Z.eqb_eq; assumption | apply nodupb_NoDup; assumption].
Qed.

Lemma buildHuffmanTable_spec h :
  well_formedb nrcodes std_table = true ->
  stbiw__jpg_buildHuffmanTable nrcodes std_table h
  = fold_left assign (canonical_codes nrcodes std_table) h.
Proof.
  intros Hwf.
  destruct (well_formedb_parts Hwf) as [c0 [counts [Hnr [Hlen [Hkr [Hsum _]]]]]].
  unfold stbiw__jpg_buildHuffmanTable, canonical_codes.
  replace (tl nrcodes) with counts by (rewrite Hnr; reflexivity).
  apply (lengths_loop_spec counts 16 1 0 0 h [c0] [] std_table);
    try assumption; try reflexivity; try lia.
Qed.
End BuildProofs.

(** The symbols are assigned in the order of the value table. *)
Lemma combine_codes_fst (f : nat -> bits) m : forall a (syms : list Z),
  (m <= List.length syms)%nat ->
  map fst (combine (firstn m syms) (map f (seq a m))) = firstn m syms.
Proof.
  induction m as [|m IH]; intros a syms Hm; [reflexivity|].
  destruct syms as [|s0 syms]; [cbn [List.length] in Hm; lia|].
  cbn [firstn seq map combine fst]. rewrite IH; [reflexivity|].
  cbn [List.length] in Hm. lia.
Qed.

Lemma canonical_from_symbols counts : forall j code syms,
  kraftb j code counts = true ->
  fold_right Z.add 0 counts <= Z.of_nat (List.length syms) ->
  map fst (canonical_from j code counts syms)
  = firstn (Z.to_nat (fold_right Z.add 0 counts)) syms.
Proof.
  induction counts as [|n counts IH]; intros j code syms Hkr Hs;
    [reflexivity|].
  cbn [kraftb] in Hkr. repeat (apply andb_true_iff in Hkr as [Hkr ?]).
  apply Z.leb_le in Hkr.
  pose proof (kraftb_sum_nonneg counts _ _ H) as Hrest.
  cbn [fold_right canonical_from] in *.
  rewrite map_app, combine_codes_fst by lia.
  rewrite IH; [|assumption|rewrite length_skipn; lia].
  rewrite Z2Nat.inj_add by lia.
  rewrite <- (firstn_skipn (Z.to_nat n) syms) at 3.
  rewrite <- (firstn_length_le syms (n:=Z.to_nat n)) at 3 by lia.
  rewrite firstn_app_2. reflexivity.
Qed.

(** The assignments are in canonical order. *)
Lemma canonical_chain_halve t : forall j code,
  canonical_chain (j + 1) (2 * code) t -> canonical_chain j code t.
Proof.
  destruct t as [|[s [c l]] t]; intros j code H; [exact I|].
  cbn [canonical_chain] in *. destruct H as [Hj [Hc Ht]].
  split; [lia|]. split; [|assumption].
  replace (l - j) with (Z.succ (l - (j + 1))) by lia.
  rewrite Z.pow_succ_r by lia. lia.
Qed.

Lemma canonical_chain_level m : forall j code (syms : list Z) rest,
  (m <= List.length syms)%nat ->
  canonical_chain j (code + Z.of_nat m) rest ->
  canonical_chain j code
    (combine (firstn m syms) (map (fun t => (code + Z.of_nat t, j)) (seq 0 m))
     ++ rest).
Proof.
  induction m as [|m IH]; intros j code syms rest Hm Hrest.
  - cbn [firstn combine app]. rewrite Z.add_0_r in Hrest. assumption.
  - destruct syms as [|s0 syms]; [cbn [List.length] in Hm; lia|].
    cbn [firstn seq map combine app canonical_chain].
    rewrite Z.sub_diag, Z.add_0_r, Z.mul_1_r.
    split; [lia|]. split; [reflexivity|].
    rewrite <- seq_shift, map_map.
    rewrite (map_ext _ (fun t => (code + 1 + Z.of_nat t, j)))
      by (intros t; f_equal; lia).
    apply IH; [cbn [List.length] in Hm; lia|].
    replace (code + 1 + Z.of_nat m) with (code + Z.of_nat (S m)) by lia.
    assumption.
Qed.

Lemma canonical_from_chain counts : forall j code syms,
  kraftb j code counts = true ->
  fold_right Z.add 0 counts <= Z.of_nat (List.length syms) ->
  canonical_chain j code (canonical_from j code counts syms).
Proof.
  induction counts as [|n counts IH]; intros j code syms Hkr Hs; [exact I|].
  cbn [kraftb] in Hkr. repeat (apply andb_true_iff in Hkr as [Hkr ?]).
  apply Z.leb_le in Hkr.
  pose proof (kraftb_sum_nonneg counts _ _ H) as Hrest.
  cbn [fold_right canonical_from] in *.
  apply canonical_chain_level; [lia|].
  rewrite Z2Nat.id by lia.
  apply canonical_chain_halve, IH; [assumption|].
  rewrite length_skipn. lia.
Qed.

Lemma canonical_chain_lower t : forall j code,
  0 <= code -> canonical_chain j code t ->
  Forall (fun e => j <= snd (snd e)
                   /\ code * 2 ^ (snd (snd e) - j) <= fst (snd e)) t.
Proof.
  induction t as [|[s [c l]] t IH]; intros j code Hc H; constructor.
  - cbn [canonical_chain fst snd] in *. lia.
  - cbn [canonical_chain] in H. destruct H as [Hj [Hcl Ht]].
    assert (0 < 2 ^ (l - j)) by (apply Z.pow_pos_nonneg; lia).
    assert (0 <= c) by nia.
    specialize (IH l (c + 1) ltac:(lia) Ht).
    eapply Forall_impl; [|exact IH]. cbn beta.
    intros [s' [c' l']]. cbn [fst snd]. intros [Hl Hlow].
    split; [lia|].
    replace (l' - j) with ((l - j) + (l' - l)) by lia.
    rewrite Z.pow_add_r by lia.
    assert (0 < 2 ^ (l' - l)) by (apply Z.pow_pos_nonneg; lia).
    nia.
Qed.

Lemma canonical_chain_sorted t : forall j code,
  0 <= code -> canonical_chain j code t -> ForallOrdPairs code_len_lt t.
Proof.
  induction t as [|[s [c l]] t IH]; intros j code Hc H; [constructor|].
  cbn [canonical_chain] in H. destruct H as [Hj [Hcl Ht]].
  assert (0 < 2 ^ (l - j)) by (apply Z.pow_pos_nonneg; lia).
  assert (0 <= c) by nia.
  constructor; [|apply (IH l (c + 1)); [lia|assumption]].
  pose proof (canonical_chain_lower t l (c + 1) ltac:(lia) Ht) as Hlow.
  eapply Forall_impl; [|exact Hlow]. cbn beta.
  intros [s' [c' l']]. unfold code_len_lt. cbn [fst snd].
  intros [Hl Hc']. split; [assumption|]. intros <-.
  rewrite Z.sub_diag, Z.mul_1_r in Hc'. lia.
Qed.

Lemma std_specs_well_formed nrcodes std_table :
  In (nrcodes, std_table) std_specs -> well_formedb nrcodes std_table = true.
Proof.
  intros H. cbn [std_specs In] in H.
  repeat (destruct H as [H|H]; [injection H as <- <-; vm_compute; reflexivity|]).
  contradiction.
Qed.

(** C4.  Each of the four tables [stbi_write_jpg_to_func] builds is the
    canonical one of its specification: [stbiw__jpg_buildHuffmanTable]
    writes, in this order, the assignments [canonical_codes] lists, which
    walk the lengths 1..16, give the symbols of a length consecutive codes
    from the running counter and double the counter after each length;
    the symbols are those of the value table in its order; every symbol
    ends up with its code and length; and in assignment order the lengths
    never decrease while the codes of one length increase. *)
Theorem buildHuffmanTable_canonical :
  forall nrcodes std_table,
    In (nrcodes, std_table) std_specs ->
    forall h : htable,
      let t := canonical_codes nrcodes std_table in
      stbiw__jpg_buildHuffmanTable nrcodes std_table h = fold_left assign t h
      /\ map fst t = std_table
      /\ (forall s c l, In (s, (c, l)) t ->
                        stbiw__jpg_buildHuffmanTable nrcodes std_table h s = (c, l))
      /\ canonical_chain 1 0 t
      /\ ForallOrdPairs code_len_lt t.
Proof.
  intros nrcodes std_table Hin h t.
  pose proof (std_specs_well_formed _ _ Hin) as Hwf.
  destruct (well_formedb_parts _ _ Hwf)
    as [c0 [counts [Hnr [Hlen [Hkr [Hsum Hnd]]]]]].
  assert (map fst t = std_table) as Hfst.
  { unfold t, canonical_codes. rewrite Hnr. cbn [tl].
    rewrite canonical_from_symbols by (assumption || lia).
    rewrite Hsum, Nat2Z.id. apply firstn_all. }
  assert (canonical_chain 1 0 t) as Hchain.
  { unfold t, canonical_codes. rewrite Hnr. cbn [tl].
    apply canonical_from_chain; [assumption|lia]. }
  split; [apply buildHuffmanTable_spec; assumption|].
  split; [assumption|]. split; [|split; [assumption|]].
  - intros s c l Hs. rewrite buildHuffmanTable_spec by assumption.
    apply assign_lookup; [|assumption].
    fold t. rewrite Hfst. assumption.
  - apply (canonical_chain_sorted t 1 0); [lia|assumption].
Qed.

Lemma buildHuffmanTable_canonical_witness :
  In (stbiw__jpg_std_ac_luminance_nrcodes, stbiw__jpg_std_ac_luminance_values)
     std_specs
  /\ stbiw__jpg_buildHuffmanTable
       stbiw__jpg_std_ac_luminance_nrcodes stbiw__jpg_std_ac_luminance_values
                       (fun _ => (0, 0))
     = fold_left assign
         (canonical_codes stbiw__jpg_std_ac_luminance_nrcodes
                          stbiw__jpg_std_ac_luminance_values)
         (fun _ => (0, 0)).
Proof.
  assert (In (stbiw__jpg_std_ac_luminance_nrcodes,
              stbiw__jpg_std_ac_luminance_values) std_specs)
    as Hin by (right; left; reflexivity).
  split; [exact Hin|].
  exact (proj1 (buildHuffmanTable_canonical _ _ Hin (fun _ => (0, 0)))).
Defined.

(** ** Quality scaling *)

Example quality_setup_ex :
  map quality_setup [1; 49; 50; 75; 90; 91; 100]
  = [(1, 5000); (1, 102); (1, 100); (1, 50); (1, 20); (0, 18); (0, 0)].
Proof. vm_compute. reflexivity. Qed.

(** The scale is the integer quotient: at quality 30 it is 166, and the
    chrominance base value 99 gives 164, where the exact quotient
    [5000 / 30] would give [99 * 5000 / 3000 = 165]. *)
Example scale_integer_quotient :
  scale_of 30 = 166 /\ at_ UVQT 4 = 99 /\ uvti 30 4 = 164
  /\ rounds_to (99 * 166) 164.
Proof. vm_compute. repeat split; discriminate. Qed.

Lemma at_nonneg (a : list Z) i : Forall (fun b => 0 <= b) a -> 0 <= at_ a i.
Proof.
  intros H. unfold at_.
  destruct (nth_in_or_default (Z.to_nat i) a 0) as [Hin | ->]; [|lia].
  revert Hin. apply Forall_forall. assumption.
Qed.

Lemma YQT_nonneg i : 0 <= at_ YQT i.
Proof. apply at_nonneg. unfold YQT. repeat constructor; lia. Qed.

Lemma UVQT_nonneg i : 0 <= at_ UVQT i.
Proof. apply at_nonneg. unfold UVQT. repeat constructor; lia. Qed.

Lemma quality_setup_in_range quality :
  1 <= quality <= 100 ->
  quality_setup quality
  = (if quality <=? 90 then 1 else 0, scale_spec quality).
Proof.
  intros Hq. unfold quality_setup, scale_spec.
  replace (quality =? 0) with false by (symmetry; apply Z.eqb_neq; lia).
  replace (quality <? 1) with false by (symmetry; apply Z.ltb_ge; lia).
  replace (100 <? quality) with false by (symmetry; apply Z.ltb_ge; lia).
  rewrite Z.quot_div_nonneg by lia.
  replace (quality * 2) with (2 * quality) by lia. reflexivity.
Qed.

Lemma scale_spec_nonneg quality : 1 <= quality <= 100 -> 0 <= scale_spec quality.
Proof.
  intros Hq. unfold scale_spec. destruct (quality <? 50) eqn:E.
  - apply Z.div_pos; lia.
  - apply Z.ltb_ge in E. lia.
Qed.

(** The divisor is the rounded quotient, clamped. *)
Lemma divisor_rounds QT scale i :
  0 <= at_ QT i -> 0 <= scale ->
  exists r, rounds_to (at_ QT i * scale) r
            /\ divisor QT scale i = clamp 1 255 r.
Proof.
  intros Hb Hs. exists ((at_ QT i * scale + 50) / 100). split.
  - unfold rounds_to.
    pose proof (Z.div_mod (at_ QT i * scale + 50) 100 ltac:(lia)).
    pose proof (Z.mod_pos_bound (at_ QT i * scale + 50) 100 ltac:(lia)).
    lia.
  - unfold divisor, clamp. rewrite Z.quot_div_nonneg by nia.
    destruct (_ <? 1) eqn:E1; [apply Z.ltb_lt in E1; lia|].
    apply Z.ltb_ge in E1.
    destruct (255 <? _) eqn:E2;
      [apply Z.ltb_lt in E2 | apply Z.ltb_ge in E2]; lia.
Qed.

Lemma divisor_range QT scale i : 1 <= divisor QT scale i <= 255.
Proof.
  unfold divisor.
  destruct (_ <? 1) eqn:E1; [lia|]. apply Z.ltb_ge in E1.
  destruct (255 <? _) eqn:E2;
    [apply Z.ltb_lt in E2 | apply Z.ltb_ge in E2]; lia.
Qed.

(** C5.  For a quality in [1, 100] the scale is [5000 / quality] (the
    integer quotient) below 50 and [200 - 2 * quality] from 50 on, and
    each of the 64 luminance and 64 chrominance divisors is
    [b * scale / 100] rounded to the nearest integer and clamped to
    [1, 255], [b] being the base value; so every divisor lies in
    [1, 255]. *)
Theorem quantization_divisors :
  forall quality i,
    1 <= quality <= 100 -> 0 <= i < 64 ->
    scale_of quality = scale_spec quality
    /\ (exists r, rounds_to (at_ YQT i * scale_spec quality) r
                  /\ yti quality i = clamp 1 255 r)
    /\ (exists r, rounds_to (at_ UVQT i * scale_spec quality) r
                  /\ uvti quality i = clamp 1 255 r)
    /\ 1 <= yti quality i <= 255
    /\ 1 <= uvti quality i <= 255.
Proof.
  intros quality i Hq Hi.
  assert (scale_of quality = scale_spec quality) as Hs
      by (unfold scale_of; rewrite quality_setup_in_range by assumption;
          reflexivity).
  pose proof (scale_spec_nonneg quality Hq) as Hn.
  unfold yti, uvti. rewrite Hs.
  split; [reflexivity|].
  split; [apply divisor_rounds; [apply YQT_nonneg | assumption]|].
  split; [apply divisor_rounds; [apply UVQT_nonneg | assumption]|].
  split; apply divisor_range.
Qed.

Lemma quantization_divisors_witness :
  1 <= 75 <= 100 /\ 0 <= 0 < 64
  /\ scale_of 75 = scale_spec 75
  /\ 1 <= yti 75 0 <= 255.
Proof.
  assert (1 <= 75 <= 100) as Hq by lia.
  assert (0 <= 0 < 64) as Hi by lia.
  pose proof (quantization_divisors 75 0 Hq Hi) as [Hs [_ [_ [Hy _]]]].
  auto.
Defined.

(** The only rejections are those of line 192; quality plays no part. *)
Lemma accepted YDC0 UDC0 YAC0 UAC0 quantized width height comp quality :
  width <> 0 -> height <> 0 -> 1 <= comp <= 4 ->
  fst (stbi_write_jpg_to_func YDC0 UDC0 YAC0 UAC0 quantized
         false width height comp quality) = 1.
Proof.
  intros Hw Hh Hc. unfold stbi_write_jpg_to_func.
  replace (width =? 0) with false by (symmetry; apply Z.eqb_neq; lia).
  replace (height =? 0) with false by (symmetry; apply Z.eqb_neq; lia).
  replace (4 <? comp) with false by (symmetry; apply Z.ltb_ge; lia).
  replace (comp <? 1) with false by (symmetry; apply Z.ltb_ge; lia).
  reflexivity.
Qed.

(** C9, as the spec states it, fails at quality 0: zero is outside
    [1, 100], its nearest bound is 1, and the first luminance divisor is
    3 where quality 1 gives 255. *)
Lemma quality_zero_not_clamped :
  (0 < 1 \/ 100 < 0)
  /\ clamp_quality 0 = 1
  /\ quality_setup 0 = (1, 20)
  /\ quality_setup (clamp_quality 0) = (1, 5000)
  /\ yti 0 0 = 3
  /\ yti (clamp_quality 0) 0 = 255
  /\ quality_setup 0 <> quality_setup (clamp_quality 0)
  /\ yti 0 0 <> yti (clamp_quality 0) 0.
Proof.
  split; [left; lia|]. repeat split; try reflexivity; vm_compute; discriminate.
Qed.

(** C9, amended.  A quality outside [1, 100] other than 0 gives the
    subsampling mode, the scale and so every divisor of the nearest bound
    of [1, 100]; quality 0 gives those of quality 90; and no quality
    makes the call fail. *)
Theorem quality_out_of_range :
  forall quality,
    quality < 1 \/ 100 < quality ->
    (quality <> 0 ->
     quality_setup quality = quality_setup (clamp_quality quality)
     /\ subsample_of quality = subsample_of (clamp_quality quality)
     /\ forall i, yti quality i = yti (clamp_quality quality) i
                  /\ uvti quality i = uvti (clamp_quality quality) i)
    /\ (quality = 0 ->
        quality_setup quality = quality_setup 90
        /\ subsample_of quality = subsample_of 90
        /\ forall i, yti quality i = yti 90 i /\ uvti quality i = uvti 90 i)
    /\ (forall YDC0 UDC0 YAC0 UAC0 quantized width height comp,
          width <> 0 -> height <> 0 -> 1 <= comp <= 4 ->
          fst (stbi_write_jpg_to_func YDC0 UDC0 YAC0 UAC0 quantized
                 false width height comp quality) = 1).
Proof.
  intros quality Hout. split; [|split].
  - intros Hnz.
    assert (quality_setup quality = quality_setup (clamp_quality quality)) as E.
    { unfold clamp_quality, clamp. destruct Hout as [Hlo | Hhi].
      - replace (Z.max 1 (Z.min 100 quality)) with 1 by lia.
        unfold quality_setup.
        replace (quality =? 0) with false by (symmetry; apply Z.eqb_neq; lia).
        replace (quality <=? 90) with true by (symmetry; apply Z.leb_le; lia).
        replace (quality <? 1) with true by (symmetry; apply Z.ltb_lt; lia).
        reflexivity.
      - replace (Z.max 1 (Z.min 100 quality)) with 100 by lia.
        unfold quality_setup.
        replace (quality =? 0) with false by (symmetry; apply Z.eqb_neq; lia).
        replace (quality <=? 90) with false by (symmetry; apply Z.leb_gt; lia).
        replace (quality <? 1) with false by (symmetry; apply Z.ltb_ge; lia).
        replace (100 <? quality) with true by (symmetry; apply Z.ltb_lt; lia).
        reflexivity. }
    unfold subsample_of, yti, uvti, scale_of. rewrite E. auto.
  - intros ->. repeat split; reflexivity.
  - intros YDC0 UDC0 YAC0 UAC0 quantized width height comp Hw Hh Hc.
    apply accepted; assumption.
Qed.

Lemma quality_out_of_range_witness :
  (-5 < 1 \/ 100 < -5)
  /\ quality_setup (-5) = quality_setup (clamp_quality (-5)).
Proof.
  assert (-5 < 1 \/ 100 < -5) as H by (left; lia).
  split; [exact H|].
  exact (proj1 (proj1 (quality_out_of_range (-5) H) ltac:(lia))).
Defined.

(** ** Stream assembler *)

Example stbi_write_jpg_to_func_ex :
  let '(r, bytes) :=
    stbi_write_jpg_to_func (fun _ => (0, 0)) (fun _ => (0, 0))
                           (fun _ => (0, 0)) (fun _ => (0, 0))
                           (fun _ _ _ => 5 :: repeat 0 63)
                           false 17 9 3 75 in
  (r, List.length bytes, firstn 2 bytes, skipn 607 bytes)
  = (1, 619%nat, [0xFF; 0xD8],
     [150; 138; 40; 173; 77; 66; 138; 40; 160; 15; 0xFF; 0xD9]).
Proof. vm_compute. reflexivity. Qed.

Lemma for_range_In fuel : forall v limit step x,
  0 <= step -> In x (for_range fuel v limit step) -> v <= x < limit.
Proof.
  induction fuel as [|fuel IH]; intros v limit step x Hs Hin;
    cbn [for_range] in Hin; [contradiction|].
  destruct (v <? limit) eqn:E; [|contradiction].
  apply Z.ltb_lt in E. destruct Hin as [<- | Hin]; [lia|].
  specialize (IH _ _ _ _ Hs Hin). lia.
Qed.

Lemma for_loop_In start limit step x :
  0 <= step -> In x (for_loop start limit step) -> start <= x < limit.
Proof. unfold for_loop. apply for_range_In. Qed.

(** The fuel of [for_loop] is enough: every value the C loop reaches is
    in the list. *)
Lemma for_range_complete fuel : forall v limit step k,
  1 <= step -> 0 <= k -> v + k * step < limit ->
  (Z.to_nat (limit - v) <= fuel)%nat ->
  In (v + k * step) (for_range fuel v limit step).
Proof.
  induction fuel as [|fuel IH]; intros v limit step k Hs Hk Hlt Hf.
  - exfalso. nia.
  - cbn [for_range].
    replace (v <? limit) with true by (symmetry; apply Z.ltb_lt; nia).
    destruct (Z.eq_dec k 0) as [->|Hnz]; [left; lia|].
    right. replace (v + k * step) with (v + step + (k - 1) * step) by lia.
    apply IH; [assumption|lia|lia|lia].
Qed.

Lemma for_loop_complete start limit step k :
  1 <= step -> 0 <= k -> start + k * step < limit ->
  In (start + k * step) (for_loop start limit step).
Proof.
  intros Hs Hk Hlt. unfold for_loop. apply for_range_complete; lia.
Qed.

(** A loop that steps by one from [v] to [v + n] runs [n] times. *)
Lemma for_range_unit_length n : forall v limit,
  limit = v + Z.of_nat n -> List.length (for_range n v limit 1) = n.
Proof.
  induction n as [|n IH]; intros v limit Hl; [reflexivity|].
  cbn [for_range].
  replace (v <? limit) with true by (symmetry; apply Z.ltb_lt; lia).
  cbn [List.length]. rewrite IH; [reflexivity | lia].
Qed.

Lemma for_loop_unit_length v n :
  0 <= n -> List.length (for_loop v (v + n) 1) = Z.to_nat n.
Proof.
  intros Hn. unfold for_loop.
  replace (v + n - v) with n by lia.
  apply for_range_unit_length. lia.
Qed.

(** The values a counting loop visits. *)
Lemma for_range_steps fuel : forall v limit step,
  1 <= step -> (Z.to_nat (limit - v) <= fuel)%nat ->
  for_range fuel v limit step
  = map (fun k => v + Z.of_nat k * step)
        (seq 0 (Z.to_nat ((limit - v + step - 1) / step))).
Proof.
  induction fuel as [|fuel IH]; intros v limit step Hs Hf.
  - assert ((limit - v + step - 1) / step <= 0) as Hq
        by (apply Z.lt_succ_r, Z.div_lt_upper_bound; lia).
    replace (Z.to_nat _) with 0%nat by lia. reflexivity.
  - cbn [for_range]. destruct (v <? limit) eqn:E.
    + apply Z.ltb_lt in E.
      rewrite IH by lia.
      replace ((limit - v + step - 1) / step)
        with ((limit - (v + step) + step - 1) / step + 1)
        by (rewrite <- (Z.div_add _ 1 step) by lia; f_equal; lia).
      assert (0 <= (limit - (v + step) + step - 1) / step)
        by (apply Z.div_pos; lia).
      rewrite Z2Nat.inj_add by lia. change (Z.to_nat 1) with 1%nat.
      rewrite Nat.add_1_r. cbn [seq map]. f_equal; [lia|].
      rewrite <- seq_shift, map_map. apply map_ext. intros k. lia.
    + apply Z.ltb_ge in E.
      assert ((limit - v + step - 1) / step <= 0) as Hq
          by (apply Z.lt_succ_r, Z.div_lt_upper_bound; lia).
      replace (Z.to_nat _) with 0%nat by lia. reflexivity.
Qed.

Lemma for_loop_steps limit step :
  1 <= step ->
  for_loop 0 limit step
  = map (fun k => Z.of_nat k * step)
        (seq 0 (Z.to_nat ((limit + step - 1) / step))).
Proof.
  intros Hs. unfold for_loop. rewrite for_range_steps by lia.
  rewrite Z.sub_0_r. apply map_ext. intros k. lia.
Qed.

Lemma for_loop_from v n :
  for_loop v (v + n) 1 = map (fun k => v + Z.of_nat k) (seq 0 (Z.to_nat n)).
Proof.
  unfold for_loop. rewrite for_range_steps by lia.
  replace ((v + n - v + 1 - 1) / 1) with n by (rewrite Z.div_1_r; lia).
  apply map_ext. intros k. lia.
Qed.

Lemma flat_map_const_length {A B} (f : A -> list B) n l :
  (forall a, List.length (f a) = n) ->
  List.length (flat_map f l) = (List.length l * n)%nat.
Proof.
  intros H. induction l as [|a l IH]; [reflexivity|].
  cbn [flat_map List.length]. rewrite length_app, H, IH. lia.
Qed.

Lemma nth_flat_map_const {A} (f : A -> list Z) n (da : A) l : forall i j,
  (forall a, List.length (f a) = n) ->
  (i < List.length l)%nat -> (j < n)%nat ->
  nth (i * n + j) (flat_map f l) 0 = nth j (f (nth i l da)) 0.
Proof.
  induction l as [|a l IH]; intros i j Hn Hi Hj; [cbn [List.length] in Hi; lia|].
  cbn [flat_map]. destruct i as [|i].
  - cbn [Nat.mul Nat.add nth]. apply app_nth1. rewrite Hn. assumption.
  - cbn [List.length] in Hi. cbn [nth].
    rewrite app_nth2 by (rewrite Hn; cbn [Nat.mul]; lia).
    rewrite Hn. replace (S i * n + j - n)%nat with (i * n + j)%nat
      by (cbn [Nat.mul]; lia).
    apply IH; [assumption|lia|assumption].
Qed.

Lemma mcu_size_cases subsample :
  mcu_size subsample = 8 \/ mcu_size subsample = 16.
Proof. unfold mcu_size. destruct (subsample =? 0); auto. Qed.

Lemma mcu_origins_In width height subsample x y :
  In (x, y) (mcu_origins width height subsample) ->
  0 <= x < width /\ 0 <= y < height.
Proof.
  unfold mcu_origins. intros H.
  apply in_flat_map in H as [y' [Hy H]].
  apply in_map_iff in H as [x' [E Hx]]. injection E as -> ->.
  pose proof (mcu_size_cases subsample).
  apply for_loop_In in Hx; [|lia]. apply for_loop_In in Hy; [|lia]. lia.
Qed.

(** Where the buffer size fits an [int] and the loop bounds do not
    overflow, no step of the offset computation wraps: the offsets of one
    MCU are those of its rows and columns, each cut to the last row and
    column of the image. *)
Lemma mcu_offsets_clamped width height comp subsample x y :
  1 <= width -> 1 <= height -> 1 <= comp <= 4 ->
  width * height * comp < 2 ^ 31 ->
  0 <= x -> 0 <= y -> x + 16 < 2 ^ 31 -> y + 16 < 2 ^ 31 ->
  mcu_offsets width height comp subsample x y
  = flat_map
      (fun i =>
         map (fun j => (Z.min (y + Z.of_nat i) (height - 1) * width
                        + Z.min (x + Z.of_nat j) (width - 1)) * comp)
             (seq 0 (Z.to_nat (mcu_size subsample))))
      (seq 0 (Z.to_nat (mcu_size subsample))).
Proof.
  intros Hw Hh Hc Hsize Hx Hy Hxo Hyo. unfold mcu_offsets.
  pose proof (mcu_size_cases subsample) as Hs.
  assert (width <= width * height) as Hwh by nia.
  assert (height <= width * height) as Hhw by nia.
  assert (width * height <= width * height * comp) as Hwhc by nia.
  rewrite !int32_small by lia. rewrite !for_loop_from.
  rewrite flat_map_concat_map, map_map, <- flat_map_concat_map.
  apply flat_map_ext. intros i. rewrite map_map. apply map_ext. intros j.
  set (row := y + Z.of_nat i). set (col := x + Z.of_nat j).
  assert ((if row <? height then row else height - 1)
          = Z.min row (height - 1)) as ->
      by (destruct (row <? height) eqn:E;
          [apply Z.ltb_lt in E | apply Z.ltb_ge in E]; lia).
  assert ((if col <? width then col else width - 1)
          = Z.min col (width - 1)) as ->
      by (destruct (col <? width) eqn:E;
          [apply Z.ltb_lt in E | apply Z.ltb_ge in E]; lia).
  assert (0 <= Z.min row (height - 1) <= height - 1) as Hr by (unfold row; lia).
  assert (0 <= Z.min col (width - 1) <= width - 1) as Hcl by (unfold col; lia).
  set (r := Z.min row (height - 1)) in *. set (c := Z.min col (width - 1)) in *.
  assert (0 <= r * width <= (height - 1) * width) by nia.
  assert (0 <= r * width + c <= width * height - 1) by nia.
  assert (0 <= (r * width + c) * comp) by nia.
  assert ((r * width + c) * comp + comp <= width * height * comp) by nia.
  rewrite (int32_small (r * width)) by lia.
  rewrite (int32_small (r * width + c)) by lia.
  apply int32_small. lia.
Qed.

(** Every offset of one MCU addresses a pixel of the image. *)
Lemma mcu_offsets_bound width height comp subsample x y :
  1 <= width -> 1 <= height -> 1 <= comp <= 4 ->
  width * height * comp < 2 ^ 31 ->
  0 <= x -> 0 <= y -> x + 16 < 2 ^ 31 -> y + 16 < 2 ^ 31 ->
  Forall (fun p => exists r c, 0 <= r < height /\ 0 <= c < width
                               /\ p = (r * width + c) * comp)
         (mcu_offsets width height comp subsample x y).
Proof.
  intros Hw Hh Hc Hsize Hx Hy Hxo Hyo.
  rewrite mcu_offsets_clamped by assumption.
  apply Forall_flat_map, Forall_forall. intros i _.
  apply Forall_map, Forall_forall. intros j _.
  exists (Z.min (y + Z.of_nat i) (height - 1)),
         (Z.min (x + Z.of_nat j) (width - 1)).
  split; [lia|]. split; [lia|reflexivity].
Qed.

Lemma mcu_offsets_length width height comp subsample x y :
  1 <= width -> 1 <= height -> 1 <= comp <= 4 ->
  width * height * comp < 2 ^ 31 ->
  0 <= x -> 0 <= y -> x + 16 < 2 ^ 31 -> y + 16 < 2 ^ 31 ->
  List.length (mcu_offsets width height comp subsample x y)
  = Z.to_nat (mcu_size subsample * mcu_size subsample).
Proof.
  intros Hw Hh Hc Hsize Hx Hy Hxo Hyo.
  rewrite mcu_offsets_clamped by assumption.
  pose proof (mcu_size_cases subsample) as Hs.
  rewrite (flat_map_const_length _ (Z.to_nat (mcu_size subsample)))
    by (intros i; rewrite length_map, length_seq; reflexivity).
  rewrite length_seq. lia.
Qed.

(** The offset at row [i] and column [j] of an MCU. *)
Lemma mcu_offsets_nth width height comp subsample x y i j :
  1 <= width -> 1 <= height -> 1 <= comp <= 4 ->
  width * height * comp < 2 ^ 31 ->
  0 <= x -> 0 <= y -> x + 16 < 2 ^ 31 -> y + 16 < 2 ^ 31 ->
  0 <= i < mcu_size subsample -> 0 <= j < mcu_size subsample ->
  nth (Z.to_nat (i * mcu_size subsample + j))
      (mcu_offsets width height comp subsample x y) 0
  = (Z.min (y + i) (height - 1) * width + Z.min (x + j) (width - 1)) * comp.
Proof.
  intros Hw Hh Hc Hsize Hx Hy Hxo Hyo Hi Hj.
  rewrite mcu_offsets_clamped by assumption.
  replace (Z.to_nat (i * mcu_size subsample + j))
    with (Z.to_nat i * Z.to_nat (mcu_size subsample) + Z.to_nat j)%nat by nia.
  rewrite (nth_flat_map_const _ (Z.to_nat (mcu_size subsample)) 0%nat)
    by (try (intros a; rewrite length_map, length_seq; reflexivity);
        rewrite ?length_seq; lia).
  rewrite seq_nth by lia. cbn [Nat.add].
  match goal with
  | |- nth ?k (map ?f ?l) 0 = _ =>
      rewrite (nth_indep (map f l) 0 (f 0%nat))
        by (rewrite length_map, length_seq; lia);
      rewrite (map_nth f l 0%nat)
  end.
  rewrite seq_nth by lia. cbn [Nat.add]. rewrite !Z2Nat.id by lia.
  reflexivity.
Qed.

(** The MCU walk reaches every pixel of the image. *)
Lemma all_offsets_cover width height comp subsample r c :
  1 <= comp <= 4 -> width * height * comp < 2 ^ 31 ->
  width + 16 < 2 ^ 31 -> height + 16 < 2 ^ 31 ->
  0 <= r < height -> 0 <= c < width ->
  In ((r * width + c) * comp) (all_offsets width height comp subsample).
Proof.
  intros Hcomp Hsz Hwo Hho Hr Hc. unfold all_offsets.
  pose proof (mcu_size_cases subsample) as Hs.
  set (size := mcu_size subsample) in *.
  assert (0 < size) as Hpos by lia.
  pose proof (Z.div_mod r size ltac:(lia)) as Er.
  pose proof (Z.mod_pos_bound r size Hpos) as Br.
  pose proof (Z.div_mod c size ltac:(lia)) as Ec.
  pose proof (Z.mod_pos_bound c size Hpos) as Bc.
  assert (0 <= r / size) by (apply Z.div_pos; lia).
  assert (0 <= c / size) by (apply Z.div_pos; lia).
  apply in_flat_map. exists (size * (c / size), size * (r / size)). split.
  - unfold mcu_origins. fold size. apply in_flat_map.
    exists (size * (r / size)). split.
    + replace (size * (r / size)) with (0 + (r / size) * size) by lia.
      apply for_loop_complete; lia.
    + apply (in_map (fun x => (x, size * (r / size)))).
      replace (size * (c / size)) with (0 + (c / size) * size) by lia.
      apply for_loop_complete; lia.
  - cbn [fst snd].
    pose proof (mcu_offsets_nth width height comp subsample
                  (size * (c / size)) (size * (r / size))
                  (r mod size) (c mod size)
                  ltac:(lia) ltac:(lia) Hcomp Hsz ltac:(lia) ltac:(lia)
                  ltac:(lia) ltac:(lia) ltac:(fold size; lia)
                  ltac:(fold size; lia)) as Hn.
    fold size in Hn.
    replace (size * (r / size) + r mod size) with r in Hn by lia.
    replace (size * (c / size) + c mod size) with c in Hn by lia.
    rewrite !Z.min_l in Hn by lia. rewrite <- Hn.
    apply nth_In.
    rewrite (mcu_offsets_length width height comp subsample)
      by (first [assumption | lia]).
    fold size. nia.
Qed.

Lemma all_zero_repeat (l : list Z) :
  Forall (fun p => p = 0) l -> l = repeat 0 (List.length l).
Proof.
  induction 1 as [|p l Hp _ IH]; [reflexivity|].
  cbn [List.length repeat]. rewrite Hp, <- IH. reflexivity.
Qed.

(** C8 without the bound on the buffer size, at a 46341 x 46341 image
    with one channel: the offset of the last pixel is
    [46340 * 46341 + 46340], which is [2^31 + 4632], and the [int] that
    holds it is [-2147479016]. *)
Lemma pixel_offset_wraps :
  ~ Forall (fun p => 0 <= p <= (46341 - 1) * 46341 * 1 + (46341 - 1) * 1)
           (all_offsets 46341 46341 1 0).
Proof.
  intros H. rewrite Forall_forall in H.
  assert (In (-2147479016) (all_offsets 46341 46341 1 0)) as Hin.
  { unfold all_offsets. apply in_flat_map. exists (46336, 46336). split.
    - unfold mcu_origins. apply in_flat_map. exists 46336. split.
      + change 46336 with (0 + 5792 * mcu_size 0).
        apply for_loop_complete; cbn; lia.
      + apply (in_map (fun x => (x, 46336))).
        change 46336 with (0 + 5792 * mcu_size 0).
        apply for_loop_complete; cbn; lia.
    - cbn [fst snd].
      assert (nth 36 (mcu_offsets 46341 46341 1 0 46336 46336) 0
              = -2147479016) as <- by (vm_compute; reflexivity).
      apply nth_In. vm_compute. lia. }
  specialize (H _ Hin). lia.
Qed.

(** C8.  For an image of at least one pixel with 1 to 4 channels whose
    buffer size [width * height * comp] fits an [int] (and whose sides
    leave room for the loop bounds), the offset [p] computed at row [i]
    and column [j] of an MCU is that of row [min (y+i) (height-1)] and
    column [min (x+j) (width-1)]: rows and columns beyond the edge take
    the last row and column.  So every offset lies between 0 and the
    offset of the last pixel, [(height-1)*width*comp + (width-1)*comp],
    and the three reads at [p] stay inside the [width*height*comp] bytes
    of the buffer; every MCU computes a full block of offsets (64, or 256
    when subsampled); for a 1x1 image all of them are 0; and the offset
    of every pixel of the image is among them. *)
Theorem pixel_offsets_in_bounds :
  forall width height comp subsample,
    1 <= width -> 1 <= height -> 1 <= comp <= 4 ->
    width * height * comp < 2 ^ 31 ->
    width + 16 < 2 ^ 31 -> height + 16 < 2 ^ 31 ->
    (forall x y i j,
        In (x, y) (mcu_origins width height subsample) ->
        0 <= i < mcu_size subsample -> 0 <= j < mcu_size subsample ->
        nth (Z.to_nat (i * mcu_size subsample + j))
            (mcu_offsets width height comp subsample x y) 0
        = (Z.min (y + i) (height - 1) * width
           + Z.min (x + j) (width - 1)) * comp)
    /\ Forall (fun p => 0 <= p <= (height - 1) * width * comp + (width - 1) * comp)
              (all_offsets width height comp subsample)
    /\ Forall (fun p => Forall (fun i => 0 <= i < width * height * comp)
                               (pixel_reads comp p))
              (all_offsets width height comp subsample)
    /\ (forall x y,
          In (x, y) (mcu_origins width height subsample) ->
          List.length (mcu_offsets width height comp subsample x y)
          = Z.to_nat (mcu_size subsample * mcu_size subsample))
    /\ (width = 1 -> height = 1 ->
        all_offsets width height comp subsample
        = repeat 0 (Z.to_nat (mcu_size subsample * mcu_size subsample)))
    /\ (forall r c, 0 <= r < height -> 0 <= c < width ->
          In ((r * width + c) * comp)
             (all_offsets width height comp subsample)).
Proof.
  intros width height comp subsample Hw Hh Hc Hsize Hwo Hho.
  assert (Forall (fun p => exists r c, 0 <= r < height /\ 0 <= c < width
                                       /\ p = (r * width + c) * comp)
                 (all_offsets width height comp subsample)) as Hall.
  { unfold all_offsets. apply Forall_flat_map, Forall_forall.
    intros [x y] Hxy. apply mcu_origins_In in Hxy. cbn [fst snd].
    apply mcu_offsets_bound; lia. }
  split; [|split; [|split; [|split; [|split]]]].
  - intros x y i j Hxy Hi Hj. apply mcu_origins_In in Hxy.
    apply mcu_offsets_nth; lia.
  - eapply Forall_impl; [|exact Hall]. cbn beta.
    intros p [r [c [Hr [Hcol ->]]]].
    assert (0 <= r * width + c <= (height - 1) * width + (width - 1)) by nia.
    nia.
  - eapply Forall_impl; [|exact Hall]. cbn beta.
    intros p [r [c [Hr [Hcol ->]]]]. unfold pixel_reads.
    assert (0 <= r * width + c <= width * height - 1) as Hpix by nia.
    assert (0 <= (r * width + c) * comp) by nia.
    assert ((r * width + c) * comp + comp <= width * height * comp) by nia.
    destruct (2 <? comp) eqn:E;
      [apply Z.ltb_lt in E | apply Z.ltb_ge in E];
      repeat constructor; lia.
  - intros x y Hxy. apply mcu_origins_In in Hxy.
    apply mcu_offsets_length; lia.
  - intros -> ->.
    assert (all_offsets 1 1 comp subsample
            = mcu_offsets 1 1 comp subsample 0 0) as E.
    { unfold all_offsets, mcu_origins.
      assert (forall s, for_loop 0 1 s = [0]) as Hone by reflexivity.
      rewrite !Hone. cbn [flat_map map app fst snd]. apply app_nil_r. }
    rewrite <- (mcu_offsets_length 1 1 comp subsample 0 0) by lia.
    rewrite <- E. apply all_zero_repeat.
    eapply Forall_impl; [|exact Hall]. cbn beta.
    intros p [r [c [Hr [Hcol ->]]]]. nia.
  - intros r c Hr Hcol. apply all_offsets_cover; assumption.
Qed.

Lemma pixel_offsets_in_bounds_witness :
  1 <= 17 /\ 1 <= 9 /\ 1 <= 3 <= 4 /\ 17 * 9 * 3 < 2 ^ 31
  /\ 17 + 16 < 2 ^ 31 /\ 9 + 16 < 2 ^ 31
  /\ Forall (fun p => 0 <= p <= (9 - 1) * 17 * 3 + (17 - 1) * 3)
            (all_offsets 17 9 3 1).
Proof.
  assert (1 <= 17) as Hw by lia.
  assert (1 <= 9) as Hh by lia.
  assert (1 <= 3 <= 4) as Hc by lia.
  assert (17 * 9 * 3 < 2 ^ 31) as Hs by (cbn; lia).
  assert (17 + 16 < 2 ^ 31) as Hwo by (cbn; lia).
  assert (9 + 16 < 2 ^ 31) as Hho by (cbn; lia).
  repeat (split; [assumption|]).
  exact (proj1 (proj2 (pixel_offsets_in_bounds 17 9 3 1 Hw Hh Hc Hs Hwo Hho))).
Defined.

Section EncoderProofs.
Variables YDC0 UDC0 YAC0 UAC0 : htable.
Variable quantized : Z -> Z -> nat -> list Z.

Lemma unit_Y_wr x y n s :
  wr (unit_Y YDC0 YAC0 quantized x y n s)
  = fst (stbiw__jpg_processDU stbiw__jpg_writeBits (YDC_HT YDC0) (YAC_HT YAC0)
                   (quantized x y n) (wr s) (DCY s)).
Proof. unfold unit_Y. destruct (stbiw__jpg_processDU _ _ _ _ _ _). reflexivity. Qed.

Lemma unit_U_wr x y n s :
  wr (unit_U UDC0 UAC0 quantized x y n s)
  = fst (stbiw__jpg_processDU stbiw__jpg_writeBits (UDC_HT UDC0) (UAC_HT UAC0)
                   (quantized x y n) (wr s) (DCU s)).
Proof. unfold unit_U. destruct (stbiw__jpg_processDU _ _ _ _ _ _). reflexivity. Qed.

Lemma unit_V_wr x y n s :
  wr (unit_V UDC0 UAC0 quantized x y n s)
  = fst (stbiw__jpg_processDU stbiw__jpg_writeBits (UDC_HT UDC0) (UAC_HT UAC0)
                   (quantized x y n) (wr s) (DCV s)).
Proof. unfold unit_V. destruct (stbiw__jpg_processDU _ _ _ _ _ _). reflexivity. Qed.

(** Each data unit hands its [DU[0]] to the predictor of its own
    channel and leaves the other two alone. *)
Lemma unit_predictors x y n s :
  let d := DUat (quantized x y n) 0 in
  (let s' := unit_Y YDC0 YAC0 quantized x y n s in
   DCY s' = d /\ DCU s' = DCU s /\ DCV s' = DCV s)
  /\ (let s' := unit_U UDC0 UAC0 quantized x y n s in
      DCY s' = DCY s /\ DCU s' = d /\ DCV s' = DCV s)
  /\ (let s' := unit_V UDC0 UAC0 quantized x y n s in
      DCY s' = DCY s /\ DCU s' = DCU s /\ DCV s' = d).
Proof. unfold unit_Y, unit_U, unit_V, stbiw__jpg_processDU. cbn. auto 10. Qed.

Section SinkInvariant.
Variable P : writer -> Prop.
Hypothesis P_writeBits : forall w b, P w -> P (stbiw__jpg_writeBits w b).

Lemma encode_mcu_inv subsample s xy :
  P (wr s) ->
  P (wr (encode_mcu YDC0 UDC0 YAC0 UAC0 quantized subsample s xy)).
Proof.
  intros Hs. destruct xy as [x y]. unfold encode_mcu.
  destruct (subsample =? 0);
    repeat first [ rewrite unit_V_wr | rewrite unit_U_wr
                 | rewrite unit_Y_wr
                 | apply processDU_inv; [exact P_writeBits|] ];
    assumption.
Qed.

Lemma scan_inv subsample origins : forall s,
  P (wr s) ->
  P (wr (fold_left (encode_mcu YDC0 UDC0 YAC0 UAC0 quantized subsample)
                   origins s)).
Proof.
  induction origins as [|xy origins IH]; intros s Hs; [assumption|].
  cbn [fold_left]. apply IH, encode_mcu_inv, Hs.
Qed.
End SinkInvariant.

(** The sink holds the headers and then a stuffed entropy segment. *)
Lemma scan_all_out width height subsample :
  exists seg,
    out (wr (scan_all YDC0 UDC0 YAC0 UAC0 quantized width height subsample))
    = headers width height subsample ++ seg
    /\ stuffedb seg = true.
Proof.
  unfold scan_all.
  apply (scan_inv (fun w => exists seg,
                     out w = headers width height subsample ++ seg
                     /\ stuffedb seg = true)).
  - intros w b [seg [E S]].
    destruct (writeBits_out w b) as [chunk [Ec Sc]].
    exists (seg ++ chunk). rewrite Ec, E, app_assoc.
    split; [reflexivity | apply stuffedb_app; assumption].
  - exists []. cbn [wr out]. rewrite app_nil_r. auto.
Qed.

Lemma headers_SOI width height subsample :
  headers width height subsample
  = [0xFF; 0xD8] ++ skipn 2 (headers width height subsample).
Proof. unfold headers, head0. cbn [app skipn]. reflexivity. Qed.

Lemma headers_length width height subsample :
  List.length (headers width height subsample) = 607%nat.
Proof.
  unfold headers. rewrite !length_app, !length_map. vm_compute. reflexivity.
Qed.

(** The whole output: headers, stuffed entropy segment, EOI. *)
Lemma stbi_write_jpg_to_func_shape width height comp quality :
  width <> 0 -> height <> 0 -> 1 <= comp <= 4 ->
  exists seg flush,
    out (wr (scan_all YDC0 UDC0 YAC0 UAC0 quantized width height
                      (subsample_of quality)))
    = headers width height (subsample_of quality) ++ seg
    /\ out (stbiw__jpg_writeBits
              (wr (scan_all YDC0 UDC0 YAC0 UAC0 quantized width height
                            (subsample_of quality))) fillBits)
       = headers width height (subsample_of quality) ++ seg ++ flush
    /\ stuffedb (seg ++ flush) = true
    /\ stbi_write_jpg_to_func YDC0 UDC0 YAC0 UAC0 quantized
         false width height comp quality
       = (1, headers width height (subsample_of quality)
             ++ seg ++ flush ++ [0xFF; 0xD9]).
Proof.
  intros Hw Hh Hc.
  destruct (scan_all_out width height (subsample_of quality))
    as [seg [Eseg Sseg]].
  destruct (writeBits_out
              (wr (scan_all YDC0 UDC0 YAC0 UAC0 quantized width height
                            (subsample_of quality))) fillBits)
    as [flush [Efl Sfl]].
  exists seg, flush. split; [assumption|].
  split; [rewrite Efl, Eseg, <- app_assoc; reflexivity|].
  split; [apply stuffedb_app; assumption|].
  unfold stbi_write_jpg_to_func.
  replace (width =? 0) with false by (symmetry; apply Z.eqb_neq; lia).
  replace (height =? 0) with false by (symmetry; apply Z.eqb_neq; lia).
  replace (4 <? comp) with false by (symmetry; apply Z.ltb_ge; lia).
  replace (comp <? 1) with false by (symmetry; apply Z.ltb_ge; lia).
  cbn [orb]. rewrite Efl, Eseg, <- !app_assoc. reflexivity.
Qed.
End EncoderProofs.

(** ** Byte stuffing and DC prediction in the stream *)

(** C3.  Each round of the loop of [stbiw__jpg_writeBits] takes the byte
    at bits 16..23 of the buffer, appends it to the output and appends
    0x00 right after it when it is 0xFF; so the bytes any sequence of
    [stbiw__jpg_writeBits] calls adds to the sink have every 0xFF
    directly followed by 0x00, and so has the entropy-coded segment of
    every stream the encoder writes, between the headers and EOI; after
    every call fewer than 8 bits are pending. *)
Theorem writeBits_byte_stuffing :
  (forall fuel bb bc o, 8 <= bc ->
     writeBits_loop (S fuel) bb bc o
     = writeBits_loop fuel (int32 (Z.shiftl bb 8)) (bc - 8)
         (o ++ (let c := Z.land (Z.shiftr bb 16) 255 in
                if c =? 255 then [c; 0] else [c])))
  /\ (forall w calls,
        out (fold_left stbiw__jpg_writeBits calls w) = out w ++ emitted w calls
        /\ stuffedb (emitted w calls) = true
        /\ stuffed (emitted w calls))
  /\ (forall YDC0 UDC0 YAC0 UAC0 quantized width height comp quality,
        width <> 0 -> height <> 0 -> 1 <= comp <= 4 ->
        exists segment,
          snd (stbi_write_jpg_to_func YDC0 UDC0 YAC0 UAC0 quantized
                 false width height comp quality)
          = headers width height (subsample_of quality)
            ++ segment ++ [0xFF; 0xD9]
          /\ stuffed segment)
  /\ (forall w bs, bitCnt (stbiw__jpg_writeBits w bs) < 8).
Proof.
  split; [exact writeBits_loop_round|]. split; [|split].
  - intros w calls. destruct (emitted_spec w calls) as [E S].
    auto using stuffedb_stuffed.
  - intros YDC0 UDC0 YAC0 UAC0 quantized width height comp quality Hw Hh Hc.
    destruct (stbi_write_jpg_to_func_shape YDC0 UDC0 YAC0 UAC0 quantized
                width height comp quality Hw Hh Hc)
      as [seg [flush [_ [_ [S E]]]]].
    exists (seg ++ flush). rewrite E. cbn [snd].
    rewrite <- app_assoc. auto using stuffedb_stuffed.
  - intros w bs. unfold stbiw__jpg_writeBits. apply writeBits_loop_exit. lia.
Qed.

(** C2.  [stbiw__jpg_processDU] codes the DC term as the difference
    [diff = DU[0] - DC] and returns [DU[0]], which the encoder keeps as
    the predictor of the channel the data unit belongs to.  For a
    difference of 16-bit magnitude the calls are: the DC code of category
    0 alone when [diff = 0]; otherwise the DC code of [size], the number
    of bits of [|diff|], then [size] magnitude bits, which are [diff]
    itself when positive and [diff - 1] masked to [size] bits when
    negative.  The AC part follows. *)
Theorem processDU_DC_differential :
  forall (W : Type) (emit : W -> bits -> W) (HTDC HTAC : Z -> bits)
         (DU : list Z) (w : W) (DC : Z),
    Z.abs (DUat DU 0 - DC) < 65536 ->
    let diff := DUat DU 0 - DC in
    stbiw__jpg_processDU emit HTDC HTAC DU w DC
    = (encode_AC emit HTAC DU
         (fold_left emit (map (code_of HTDC HTAC) (dc_spec diff)) w),
       DUat DU 0)
    /\ (diff = 0 -> dc_spec diff = [DCcode 0])
    /\ (diff <> 0 ->
        dc_spec diff
        = [DCcode (size_spec diff);
           Magn (if diff <? 0
                 then Z.land (diff - 1) (Z.ones (size_spec diff))
                 else diff,
                 size_spec diff)]
        /\ 2 ^ (size_spec diff - 1) <= Z.abs diff < 2 ^ size_spec diff)
    /\ (forall YDC0 UDC0 YAC0 UAC0 quantized x y n s,
          let d := DUat (quantized x y n) 0 in
          (let s' := unit_Y YDC0 YAC0 quantized x y n s in
           DCY s' = d /\ DCU s' = DCU s /\ DCV s' = DCV s)
          /\ (let s' := unit_U UDC0 UAC0 quantized x y n s in
              DCY s' = DCY s /\ DCU s' = d /\ DCV s' = DCV s)
          /\ (let s' := unit_V UDC0 UAC0 quantized x y n s in
              DCY s' = DCY s /\ DCU s' = DCU s /\ DCV s' = d)).
Proof.
  intros W emit HTDC HTAC DU w DC Hd diff.
  split; [|split; [|split]].
  - unfold stbiw__jpg_processDU.
    rewrite (encode_DC_spec emit HTDC HTAC) by assumption.
    reflexivity.
  - intros ->. reflexivity.
  - intros Hz. unfold dc_spec, magnitude_spec.
    apply Z.eqb_neq in Hz. rewrite Hz. split; [reflexivity|].
    apply Z.eqb_neq in Hz. unfold size_spec.
    replace (Z.log2 (Z.abs diff) + 1 - 1) with (Z.log2 (Z.abs diff)) by lia.
    apply Z.log2_spec. lia.
  - intros. apply unit_predictors.
Qed.

Lemma processDU_DC_differential_witness :
  Z.abs (DUat Samples.block 0 - 8) < 65536
  /\ stbiw__jpg_processDU record Samples.sym_table Samples.sym_table
                          Samples.block [] 8
     = (encode_AC record Samples.sym_table Samples.block
          (fold_left record
             (map (code_of Samples.sym_table Samples.sym_table) (dc_spec (-3)))
             []),
        5).
Proof.
  split; [reflexivity|].
  exact (proj1 (processDU_DC_differential
                  (list bits) record Samples.sym_table Samples.sym_table
                  Samples.block [] 8 eq_refl)).
Defined.

(** ** Shape of the stream *)

(** The rows of the tables stay [unsigned short]s through the builder. *)
Lemma store_ushort h s v :
  ushort_rows h -> 0 <= fst v < 65536 -> 0 <= snd v < 65536 ->
  ushort_rows (store h s v).
Proof.
  intros Hh Hf Hs x. unfold store. destruct (x =? s); [auto|apply Hh].
Qed.

Lemma u16_range z : 0 <= u16 z < 65536.
Proof. unfold u16. apply Z.mod_pos_bound. reflexivity. Qed.

Lemma symbols_loop_ushort nrcodes std_table fuel : forall j i k code h,
  ushort_rows h ->
  ushort_rows (snd (symbols_loop nrcodes std_table fuel j i k code h)).
Proof.
  induction fuel as [|fuel IH]; intros j i k code h Hh; cbn [symbols_loop];
    [exact Hh|].
  destruct (i <=? at_ nrcodes j); [|exact Hh].
  apply IH. apply store_ushort; [assumption|apply u16_range..].
Qed.

Lemma lengths_loop_ushort nrcodes std_table fuel : forall j k code h,
  ushort_rows h ->
  ushort_rows (lengths_loop nrcodes std_table fuel j k code h).
Proof.
  induction fuel as [|fuel IH]; intros j k code h Hh; cbn [lengths_loop];
    [exact Hh|].
  destruct (j <=? 16); [|exact Hh].
  pose proof (symbols_loop_ushort nrcodes std_table 255 j 1 k code h Hh) as Hs.
  destruct (symbols_loop nrcodes std_table 255 j 1 k code h) as [[k' code'] h'].
  apply IH. exact Hs.
Qed.

Lemma buildHuffmanTable_ushort nrcodes std_table h :
  ushort_rows h ->
  ushort_rows (stbiw__jpg_buildHuffmanTable nrcodes std_table h).
Proof. apply lengths_loop_ushort. Qed.

Lemma clear64_ushort h : ushort_rows h -> ushort_rows (clear64 h).
Proof.
  intros Hh s. unfold clear64. destruct (_ && _); [cbn; lia|apply Hh].
Qed.

(** The pending count stays in 0..7 under calls whose length is not
    negative. *)
Lemma writeBits_loop_cnt fuel : forall bb n o,
  0 <= n -> 0 <= bitCnt (writeBits_loop fuel bb n o).
Proof.
  induction fuel as [|fuel IH]; intros bb n o Hn; cbn [writeBits_loop];
    [exact Hn|].
  destruct (8 <=? n) eqn:E; [|exact Hn].
  apply Z.leb_le in E. apply IH. lia.
Qed.

Lemma writeBits_cnt w b :
  0 <= bitCnt w < 8 -> 0 <= snd b ->
  0 <= bitCnt (stbiw__jpg_writeBits w b) < 8.
Proof.
  intros Hw Hb. unfold stbiw__jpg_writeBits. split.
  - apply writeBits_loop_cnt. lia.
  - apply writeBits_loop_exit. lia.
Qed.

(** What is kept by every call a data unit can make, a table row or
    magnitude bits, is kept by the data unit. *)
Section InvariantOn.
Context {W : Type} (emit : W -> bits -> W) (HTDC HTAC : Z -> bits).
Variable P : W -> Prop.
Variable Q : bits -> Prop.
Hypothesis P_emit : forall w b, Q b -> P w -> P (emit w b).
Hypothesis Q_DC : forall s, Q (HTDC s).
Hypothesis Q_AC : forall s, Q (HTAC s).
Hypothesis Q_calcBits : forall v, Q (stbiw__jpg_calcBits v).

Lemma write_M16zeroes_inv_on fuel : forall lng nrmarker w,
  P w -> P (write_M16zeroes emit HTAC fuel lng nrmarker w).
Proof.
  induction fuel as [|fuel IH]; intros lng nrmarker w Hw;
    cbn [write_M16zeroes]; [assumption|].
  destruct (nrmarker <=? lng); auto.
Qed.

Lemma ac_loop_inv_on DU fuel : forall e i w,
  P w -> P (ac_loop emit HTAC DU fuel e i w).
Proof.
  induction fuel as [|fuel IH]; intros e i w Hw; cbn [ac_loop];
    [assumption|].
  destruct (i <=? e); [|assumption].
  apply IH. apply P_emit; [apply Q_calcBits|]. apply P_emit; [apply Q_AC|].
  destruct (16 <=? _); [apply write_M16zeroes_inv_on|]; assumption.
Qed.

Lemma processDU_inv_on DU w DC :
  P w -> P (fst (stbiw__jpg_processDU emit HTDC HTAC DU w DC)).
Proof.
  intros Hw. unfold stbiw__jpg_processDU, encode_AC, encode_DC. cbn [fst].
  assert (P (if int32 (DUat DU 0 - DC) =? 0 then emit w (HTDC 0)
             else emit (emit w (HTDC (snd (stbiw__jpg_calcBits (int32 (DUat DU 0 - DC))))))
                       (stbiw__jpg_calcBits (int32 (DUat DU 0 - DC))))) as Hdc
      by (destruct (_ =? 0); auto).
  destruct (scan_end0pos DU 63 63 =? 0); [auto|].
  destruct (negb _); auto using ac_loop_inv_on.
Qed.
End InvariantOn.

Section FlushProofs.
Variables YDC0 UDC0 YAC0 UAC0 : htable.
Variable quantized : Z -> Z -> nat -> list Z.
Hypothesis YDC0_rows : ushort_rows YDC0.
Hypothesis UDC0_rows : ushort_rows UDC0.
Hypothesis YAC0_rows : ushort_rows YAC0.
Hypothesis UAC0_rows : ushort_rows UAC0.

Lemma unit_cnt (f : Z -> Z -> nat -> scan -> scan) x y n s :
  f = unit_Y YDC0 YAC0 quantized \/ f = unit_U UDC0 UAC0 quantized
  \/ f = unit_V UDC0 UAC0 quantized ->
  0 <= bitCnt (wr s) < 8 -> 0 <= bitCnt (wr (f x y n s)) < 8.
Proof.
  assert (forall v, 0 <= snd (stbiw__jpg_calcBits v)) as Hcalc
      by (intros v; pose proof (calcBits_size_pos v); lia).
  assert (forall nr vals h s0, ushort_rows h ->
            0 <= snd (stbiw__jpg_buildHuffmanTable nr vals h s0)) as Hrow
      by (intros nr vals h s0 Hh;
          apply (buildHuffmanTable_ushort nr vals h Hh s0)).
  intros [-> | [-> | ->]] Hs;
    [rewrite unit_Y_wr | rewrite unit_U_wr | rewrite unit_V_wr];
    apply (processDU_inv_on stbiw__jpg_writeBits _ _
             (fun w => 0 <= bitCnt w < 8) (fun b => 0 <= snd b));
    try assumption;
    try (intros w b Hb Hw; apply writeBits_cnt; assumption);
    intros s0; apply Hrow; try apply clear64_ushort; assumption.
Qed.

Lemma scan_all_cnt width height subsample :
  0 <= bitCnt (wr (scan_all YDC0 UDC0 YAC0 UAC0 quantized
                            width height subsample)) < 8.
Proof.
  unfold scan_all.
  generalize (mcu_origins width height subsample) as origins.
  assert (0 <= bitCnt (wr (mkScan (mkWriter 0 0 (headers width height subsample))
                                  0 0 0)) < 8) as H0 by (cbn; lia).
  revert H0.
  generalize (mkScan (mkWriter 0 0 (headers width height subsample)) 0 0 0).
  intros s Hs origins. revert s Hs.
  induction origins as [|[x y] origins IH]; intros s Hs; [exact Hs|].
  cbn [fold_left]. apply IH. unfold encode_mcu.
  destruct (subsample =? 0);
    repeat (apply unit_cnt; [auto|]); exact Hs.
Qed.
End FlushProofs.

(** The byte the fill bits complete. *)
Lemma stuff_one c :
  (if c =? 255 then [c; 0] else [c]) = BitStream.stuff [c].
Proof.
  unfold BitStream.stuff. cbn [flat_map]. rewrite app_nil_r.
  destruct (c =? 255) eqn:E; [apply Z.eqb_eq in E; subst c|]; reflexivity.
Qed.

Lemma lor_low_ones t c :
  0 <= t < 256 -> 1 <= c <= 7 ->
  Z.lor t (2 ^ (8 - c) - 1) = t / 2 ^ (8 - c) * 2 ^ (8 - c) + (2 ^ (8 - c) - 1).
Proof.
  intros Ht Hc.
  assert (forallb
            (fun t' =>
               forallb (fun c' =>
                          Z.lor t' (2 ^ (8 - c') - 1)
                          =? t' / 2 ^ (8 - c') * 2 ^ (8 - c') + (2 ^ (8 - c') - 1))
                       (map Z.of_nat (seq 1 7)))
            (map Z.of_nat (seq 0 256)) = true) as Hall
      by (vm_compute; reflexivity).
  rewrite forallb_forall in Hall.
  assert (In t (map Z.of_nat (seq 0 256))) as Hin
      by (apply in_map_iff; exists (Z.to_nat t); split; [lia|apply in_seq; lia]).
  specialize (Hall t Hin). rewrite forallb_forall in Hall.
  apply Z.eqb_eq, Hall, in_map_iff.
  exists (Z.to_nat c). split; [lia|apply in_seq; lia].
Qed.

Lemma fill_byte B c :
  1 <= c <= 7 ->
  Z.land (Z.shiftr (int32 (Z.lor B (Z.shiftl 127 (24 - (c + 7))))) 16) 255
  = BitStream.pending (mkWriter B c []) * 2 ^ (8 - c) + (2 ^ (8 - c) - 1).
Proof.
  intros Hc. unfold BitStream.pending. cbn [bitBuf bitCnt].
  assert (forall z, Z.land (Z.shiftr (int32 z) 16) 255
                    = Z.land (Z.shiftr z 16) 255) as Hwrap.
  { intros z. unfold int32. change 255 with (Z.ones 8).
    rewrite !Z.land_ones, !Z.shiftr_div_pow2 by lia.
    change (2 ^ 31) with 2147483648. change (2 ^ 32) with 4294967296.
    change (2 ^ 16) with 65536. change (2 ^ 8) with 256.
    Z.to_euclidean_division_equations; lia. }
  rewrite Hwrap, Z.shiftr_lor, Z.land_lor_distr_l.
  assert (Z.land (Z.shiftr (Z.shiftl 127 (24 - (c + 7))) 16) 255
          = 2 ^ (8 - c) - 1) as ->.
  { assert (c = 1 \/ c = 2 \/ c = 3 \/ c = 4 \/ c = 5 \/ c = 6 \/ c = 7)
      as Hcase by lia.
    repeat (destruct Hcase as [-> | Hcase]); try subst c; reflexivity. }
  assert (0 <= Z.land (Z.shiftr B 16) 255 < 256) as Ht.
  { change 255 with (Z.ones 8). rewrite Z.land_ones by lia.
    apply Z.mod_pos_bound. reflexivity. }
  rewrite lor_low_ones by assumption. f_equal. f_equal.
  change 255 with (Z.ones 8). rewrite Z.land_ones, Z.shiftr_div_pow2 by lia.
  assert (c = 1 \/ c = 2 \/ c = 3 \/ c = 4 \/ c = 5 \/ c = 6 \/ c = 7)
    as Hcase by lia.
  repeat (destruct Hcase as [-> | Hcase]); try subst c;
    cbn; Z.to_euclidean_division_equations; lia.
Qed.

(** The fill bits on any writer with fewer than 8 bits pending: with
    none pending nothing is written; else one byte, the pending bits
    followed by one bits. *)
Lemma fillBits_out w :
  0 <= bitCnt w < 8 ->
  out (stbiw__jpg_writeBits w fillBits)
  = out w ++ (if bitCnt w =? 0 then []
              else BitStream.stuff
                     [BitStream.pending w * 2 ^ (8 - bitCnt w)
                      + (2 ^ (8 - bitCnt w) - 1)]).
Proof.
  intros Hc. unfold stbiw__jpg_writeBits, fillBits. cbn [fst snd].
  destruct (Z.eq_dec (bitCnt w) 0) as [E0 | Hnz].
  - rewrite E0. cbn [Z.eqb Z.add]. rewrite writeBits_loop_done by lia.
    cbn [out]. rewrite app_nil_r. reflexivity.
  - replace (bitCnt w =? 0) with false by (symmetry; apply Z.eqb_neq; lia).
    replace (Z.to_nat (bitCnt w + 7)) with (S (Z.to_nat (bitCnt w + 6))) by lia.
    rewrite writeBits_loop_round by lia. cbv zeta.
    rewrite writeBits_loop_done by lia. cbn [out].
    rewrite stuff_one, fill_byte by lia.
    unfold BitStream.pending. cbn [bitBuf bitCnt]. reflexivity.
Qed.



(** The sampling byte of the luminance component in SOF0. *)
Lemma headers_sampling_flag width height subsample :
  nth 165 (headers width height subsample) 0
  = nth 11 (head1 width height subsample) 0.
Proof. unfold headers. vm_compute. reflexivity. Qed.

(** C6.  For a quality in [1, 100] the mode depends on the quality alone:
    up to 90 the encoder subsamples chroma (luminance sampling byte 0x22
    in SOF0, MCUs 16 pixels wide and high, coded as four Y data units,
    one Cb and one Cr); above 90 it does not (sampling byte 0x11, MCUs of
    8 pixels, one data unit per channel). *)
Theorem subsampling_from_quality :
  forall quality,
    1 <= quality <= 100 ->
    subsample_of quality = (if quality <=? 90 then 1 else 0)
    /\ mcu_size (subsample_of quality) = (if quality <=? 90 then 16 else 8)
    /\ (forall width height,
          nth 11 (head1 width height (subsample_of quality)) 0
          = (if quality <=? 90 then 0x22 else 0x11))
    /\ (forall YDC0 UDC0 YAC0 UAC0 quantized width height comp,
          1 <= width -> 1 <= height -> 1 <= comp <= 4 ->
          nth 165 (snd (stbi_write_jpg_to_func YDC0 UDC0 YAC0 UAC0 quantized
                          false width height comp quality)) 0
          = (if quality <=? 90 then 0x22 else 0x11))
    /\ (forall YDC0 UDC0 YAC0 UAC0 quantized s x y,
          encode_mcu YDC0 UDC0 YAC0 UAC0 quantized (subsample_of quality)
                     s (x, y)
          = if quality <=? 90
            then unit_V UDC0 UAC0 quantized x y 5
                   (unit_U UDC0 UAC0 quantized x y 4
                      (unit_Y YDC0 YAC0 quantized x y 3
                         (unit_Y YDC0 YAC0 quantized x y 2
                            (unit_Y YDC0 YAC0 quantized x y 1
                               (unit_Y YDC0 YAC0 quantized x y 0 s)))))
            else unit_V UDC0 UAC0 quantized x y 2
                   (unit_U UDC0 UAC0 quantized x y 1
                      (unit_Y YDC0 YAC0 quantized x y 0 s))).
Proof.
  intros quality Hq.
  assert (subsample_of quality = (if quality <=? 90 then 1 else 0)) as Hs
      by (unfold subsample_of; rewrite quality_setup_in_range by assumption;
          reflexivity).
  assert (forall width height,
             nth 11 (head1 width height (subsample_of quality)) 0
             = (if quality <=? 90 then 0x22 else 0x11)) as Hflag
      by (intros; rewrite Hs; destruct (quality <=? 90); reflexivity).
  split; [assumption|].
  split; [rewrite Hs; destruct (quality <=? 90); reflexivity|].
  split; [assumption|]. split.
  - intros YDC0 UDC0 YAC0 UAC0 quantized width height comp Hw Hh Hc.
    destruct (stbi_write_jpg_to_func_shape YDC0 UDC0 YAC0 UAC0 quantized
                width height comp quality ltac:(lia) ltac:(lia) Hc)
      as [seg [flush [_ [_ [_ E]]]]].
    rewrite E. cbn [snd].
    rewrite app_nth1 by (rewrite headers_length; lia).
    rewrite headers_sampling_flag. apply Hflag.
  - intros. rewrite Hs. destruct (quality <=? 90); reflexivity.
Qed.

Lemma subsampling_from_quality_witness :
  1 <= 75 <= 100 /\ subsample_of 75 = 1 /\ mcu_size (subsample_of 75) = 16.
Proof.
  assert (1 <= 75 <= 100) as Hq by lia.
  split; [assumption|].
  destruct (subsampling_from_quality 75 Hq) as [Hs [Hm _]].
  split; [exact Hs | exact Hm].
Defined.

(** ** Transport coding *)

Example base64_ex :
  base64Encode [77; 97; 110] = "TWFu"%string
  /\ base64Decode "TWFu" = [77; 97; 110]
  /\ base64Decode "TQ==" = [77]
  /\ base64Decode "TWE=" = [77; 97].
Proof. vm_compute. auto. Qed.

(** C10 at the one-byte input [0x4D]: the padding tests [i > len + 1] and
    [i > len] never hold, since [i] stops at [len]; so the encoder writes
    "TQAA" where padded base64 is "TQ==", and decoding gives the byte
    back with two zero bytes after it. *)
Theorem base64_roundtrip_one_byte :
  base64Encode [77] = "TQAA"%string
  /\ base64_std [77] = "TQ=="%string
  /\ base64Decode (base64Encode [77]) = [77; 0; 0]
  /\ base64Decode (base64Encode [77]) <> [77]
  /\ base64Decode (base64_std [77]) = [77].
Proof. vm_compute. repeat split; try reflexivity. discriminate. Qed.

Lemma string_append_nil (s : string) : String.append s EmptyString = s.
Proof. induction s as [|c s IH]; cbn; [reflexivity|]. rewrite IH. reflexivity. Qed.

Lemma string_append_assoc (s1 s2 s3 : string) :
  String.append (String.append s1 s2) s3 = String.append s1 (String.append s2 s3).
Proof.
  induction s1 as [|c s1 IH]; cbn; [reflexivity|]. rewrite IH. reflexivity.
Qed.

Lemma push_group (result : string) (c0 c1 c2 c3 : ascii) :
  push (push (push (push result c0) c1) c2) c3
  = String.append result
      (String c0 (String c1 (String c2 (String c3 EmptyString)))).
Proof. unfold push. rewrite !string_append_assoc. reflexivity. Qed.

(** The 24-bit triple of three octets, as the encoder computes it. *)
Lemma triple_value a b c :
  0 <= a < 256 -> 0 <= b < 256 -> 0 <= c < 256 ->
  u32 (u32 (Z.shiftl a 16) + u32 (Z.shiftl b 8) + c) = a * 65536 + b * 256 + c.
Proof.
  intros Ha Hb Hc. rewrite !Z.shiftl_mul_pow2 by lia.
  change (2 ^ 16) with 65536. change (2 ^ 8) with 256.
  unfold u32. change (2 ^ 32) with 4294967296.
  rewrite (Z.mod_small (a * 65536)), (Z.mod_small (b * 256)) by lia.
  apply Z.mod_small. lia.
Qed.

Lemma byte_at_middle done (a : Z) rest :
  byte_at (done ++ a :: rest) (Z.of_nat (List.length done)) = a.
Proof. unfold byte_at. rewrite Nat2Z.id. apply nth_middle. Qed.

Ltac decide_ltb :=
  repeat match goal with
    | |- context [?x <? ?y] =>
        first [ replace (x <? y) with true by (symmetry; apply Z.ltb_lt; lia)
              | replace (x <? y) with false by (symmetry; apply Z.ltb_ge; lia) ]
    end.

(** The encoder writes the groups of its input and never a pad
    character: after an octet is read [i] is at most [len]. *)
Lemma encode_loop_groups fuel : forall data done rest result len i,
  data = done ++ rest -> Forall (fun b => 0 <= b < 256) rest ->
  (List.length rest <= fuel)%nat ->
  len = Z.of_nat (List.length data) -> i = Z.of_nat (List.length done) ->
  encode_loop fuel data len i result = String.append result (groups rest).
Proof.
  induction fuel as [|fuel IH]; intros data done rest result len i Hd Hb Hf Hl Hi.
  - destruct rest; [|cbn [List.length] in Hf; lia].
    cbn [encode_loop groups]. rewrite string_append_nil. reflexivity.
  - assert (List.length data = (List.length done + List.length rest)%nat)
      as Hlen by (rewrite Hd; apply length_app).
    cbn [encode_loop].
    destruct rest as [|a [|b [|c rest]]]; cbn [List.length] in *.
    + decide_ltb. cbn [groups]. rewrite string_append_nil. reflexivity.
    + pose proof (Forall_inv Hb) as Ha. cbv beta in Ha.
      assert (byte_at data i = a) as Ea
        by (rewrite Hd, Hi; apply byte_at_middle).
      decide_ltb. cbv beta iota zeta. decide_ltb. rewrite Ea.
      rewrite push_group, (triple_value a 0 0) by lia.
      rewrite (IH data (done ++ [a]) []);
        [ | rewrite Hd, <- app_assoc; reflexivity | constructor
          | cbn [List.length]; lia | assumption
          | rewrite length_app; cbn [List.length]; lia ].
      cbn [groups]. rewrite string_append_nil. reflexivity.
    + pose proof (Forall_inv Hb) as Ha.
      pose proof (Forall_inv (Forall_inv_tail Hb)) as Hb0. cbv beta in Ha, Hb0.
      assert (byte_at data i = a) as Ea
        by (rewrite Hd, Hi; apply byte_at_middle).
      assert (byte_at data (i + 1) = b) as Eb.
      { replace (i + 1) with (Z.of_nat (List.length (done ++ [a])))
          by (rewrite length_app; cbn [List.length]; lia).
        replace data with ((done ++ [a]) ++ [b])
          by (rewrite Hd, <- app_assoc; reflexivity).
        apply byte_at_middle. }
      decide_ltb. cbv beta iota zeta. decide_ltb.
      cbv beta iota zeta. decide_ltb. rewrite Ea, Eb.
      rewrite push_group, (triple_value a b 0) by lia.
      rewrite (IH data (done ++ [a; b]) []);
        [ | rewrite Hd, <- app_assoc; reflexivity | constructor
          | cbn [List.length]; lia | assumption
          | rewrite length_app; cbn [List.length]; lia ].
      cbn [groups]. rewrite string_append_nil. reflexivity.
    + pose proof (Forall_inv Hb) as Ha.
      pose proof (Forall_inv (Forall_inv_tail Hb)) as Hb0.
      pose proof (Forall_inv (Forall_inv_tail (Forall_inv_tail Hb))) as Hc0.
      pose proof (Forall_inv_tail (Forall_inv_tail (Forall_inv_tail Hb)))
        as Hrest.
      cbv beta in Ha, Hb0, Hc0.
      assert (byte_at data i = a) as Ea
        by (rewrite Hd, Hi; apply byte_at_middle).
      assert (byte_at data (i + 1) = b) as Eb.
      { replace (i + 1) with (Z.of_nat (List.length (done ++ [a])))
          by (rewrite length_app; cbn [List.length]; lia).
        replace data with ((done ++ [a]) ++ b :: c :: rest)
          by (rewrite Hd, <- app_assoc; reflexivity).
        apply byte_at_middle. }
      assert (byte_at data (i + 1 + 1) = c) as Ec.
      { replace (i + 1 + 1) with (Z.of_nat (List.length (done ++ [a; b])))
          by (rewrite length_app; cbn [List.length]; lia).
        replace data with ((done ++ [a; b]) ++ c :: rest)
          by (rewrite Hd, <- app_assoc; reflexivity).
        apply byte_at_middle. }
      decide_ltb. cbv beta iota zeta. decide_ltb.
      cbv beta iota zeta. decide_ltb. rewrite Ea, Eb, Ec.
      rewrite push_group, (triple_value a b c) by lia.
      rewrite (IH data (done ++ [a; b; c]) rest);
        [ | rewrite Hd, <- app_assoc; reflexivity | assumption
          | lia | assumption
          | rewrite length_app; cbn [List.length]; lia ].
      cbn [groups]. rewrite string_append_assoc. reflexivity.
Qed.

Lemma base64Encode_groups data :
  Forall (fun b => 0 <= b < 256) data -> base64Encode data = groups data.
Proof.
  intros Hb. unfold base64Encode. rewrite Nat2Z.id.
  apply (encode_loop_groups _ data [] data EmptyString);
    [reflexivity | assumption | lia | reflexivity | reflexivity].
Qed.

Lemma decodeTable_char_at k : 0 <= k < 64 -> decodeTable (code (char_at k)) = k.
Proof.
  intros Hk.
  assert (forallb (fun n => decodeTable (code (char_at n)) =? n)
                  (map Z.of_nat (seq 0 64)) = true) as Hall
      by (vm_compute; reflexivity).
  rewrite forallb_forall in Hall.
  apply Z.eqb_eq, Hall, in_map_iff.
  exists (Z.to_nat k). split; [lia|]. apply in_seq. lia.
Qed.

Lemma sextet_range t s : 0 <= Z.land (Z.shiftr t s) 63 < 64.
Proof.
  change 63 with (Z.ones 6). rewrite Z.land_ones by lia.
  apply Z.mod_pos_bound. reflexivity.
Qed.

(** One character that the table knows, with and without an output
    byte. *)
Lemma decode_step_skip c rest val valb res k valb' :
  decodeTable (code c) = k -> 0 <= k < 64 ->
  valb' = valb + 6 -> valb' < 0 ->
  decode_loop (String c rest) val valb res
  = decode_loop rest (int32 (Z.shiftl val 6 + k)) valb' res.
Proof.
  intros Hk Hr -> Hv. cbn [decode_loop]. rewrite Hk.
  replace (k =? -1) with false by (symmetry; apply Z.eqb_neq; lia).
  replace (0 <=? valb + 6) with false by (symmetry; apply Z.leb_gt; lia).
  reflexivity.
Qed.

Lemma decode_step_out c rest val valb res k valb' valb'' :
  decodeTable (code c) = k -> 0 <= k < 64 ->
  valb' = valb + 6 -> 0 <= valb' -> valb'' = valb' - 8 ->
  decode_loop (String c rest) val valb res
  = decode_loop rest (int32 (Z.shiftl val 6 + k)) valb''
      (res ++ [Z.land (Z.shiftr (int32 (Z.shiftl val 6 + k)) valb') 0xFF]).
Proof.
  intros Hk Hr -> Hv ->. cbn [decode_loop]. rewrite Hk.
  replace (k =? -1) with false by (symmetry; apply Z.eqb_neq; lia).
  replace (0 <=? valb + 6) with true by (symmetry; apply Z.leb_le; lia).
  reflexivity.
Qed.

(** The sextets of a triple of octets. *)
Lemma sextets_of_triple a b c :
  0 <= a < 256 -> 0 <= b < 256 -> 0 <= c < 256 ->
  let t := a * 65536 + b * 256 + c in
  Z.land (Z.shiftr t 18) 63 = a / 4
  /\ Z.land (Z.shiftr t 12) 63 = (a mod 4) * 16 + b / 16
  /\ Z.land (Z.shiftr t 6) 63 = (b mod 16) * 4 + c / 64
  /\ Z.land t 63 = c mod 64.
Proof.
  intros Ha Hb Hc t. subst t.
  change 63 with (Z.ones 6). rewrite !Z.land_ones, !Z.shiftr_div_pow2 by lia.
  change (2 ^ 18) with 262144. change (2 ^ 12) with 4096.
  change (2 ^ 6) with 64.
  repeat split; Z.to_euclidean_division_equations; lia.
Qed.

(** The bytes the decoder takes out of four sextets: only the low bits of
    [val] count, so what [val] held before and its 32-bit wrap do not
    matter. *)
Lemma bytes_of_sextets val k0 k1 k2 k3 :
  0 <= k0 < 64 -> 0 <= k1 < 64 -> 0 <= k2 < 64 -> 0 <= k3 < 64 ->
  let v1 := int32 (Z.shiftl val 6 + k0) in
  let v2 := int32 (Z.shiftl v1 6 + k1) in
  let v3 := int32 (Z.shiftl v2 6 + k2) in
  let v4 := int32 (Z.shiftl v3 6 + k3) in
  Z.land (Z.shiftr v2 4) 255 = (k0 * 4 + k1 / 16) mod 256
  /\ Z.land (Z.shiftr v3 2) 255 = (k1 mod 16) * 16 + k2 / 4
  /\ Z.land (Z.shiftr v4 0) 255 = (k2 mod 4) * 64 + k3.
Proof.
  intros H0 H1 H2 H3 v1 v2 v3 v4. subst v1 v2 v3 v4. unfold int32.
  change 255 with (Z.ones 8).
  rewrite !Z.land_ones, !Z.shiftr_div_pow2, !Z.shiftl_mul_pow2 by lia.
  change (2 ^ 31) with 2147483648. change (2 ^ 32) with 4294967296.
  change (2 ^ 6) with 64. change (2 ^ 4) with 16. change (2 ^ 2) with 4.
  change (2 ^ 0) with 1. change (2 ^ 8) with 256.
  repeat split; Z.to_euclidean_division_equations; lia.
Qed.

(** Decoding one group gives its three octets back and leaves the
    decoder between groups. *)
Lemma decode_group a b c rest val res :
  0 <= a < 256 -> 0 <= b < 256 -> 0 <= c < 256 ->
  exists val',
    decode_loop (String.append (group a b c) rest) val (-8) res
    = decode_loop rest val' (-8) (res ++ [a; b; c]).
Proof.
  intros Ha Hb Hc. unfold group, sextet. cbn [String.append].
  destruct (sextets_of_triple a b c Ha Hb Hc) as [E0 [E1 [E2 E3]]].
  cbv zeta in *.
  set (t := a * 65536 + b * 256 + c) in *.
  pose proof (sextet_range t 18) as R0. pose proof (sextet_range t 12) as R1.
  pose proof (sextet_range t 6) as R2.
  assert (0 <= Z.land t 63 < 64) as R3
      by (rewrite E3; apply Z.mod_pos_bound; reflexivity).
  rewrite (decode_step_skip _ _ val (-8) res _ (-2)
             (decodeTable_char_at _ R0) R0 eq_refl eq_refl).
  rewrite (decode_step_out _ _ _ (-2) res _ 4 (-4)
             (decodeTable_char_at _ R1) R1 eq_refl ltac:(lia) eq_refl).
  rewrite (decode_step_out _ _ _ (-4) _ _ 2 (-6)
             (decodeTable_char_at _ R2) R2 eq_refl ltac:(lia) eq_refl).
  rewrite (decode_step_out _ _ _ (-6) _ _ 0 (-8)
             (decodeTable_char_at _ R3) R3 eq_refl ltac:(lia) eq_refl).
  destruct (bytes_of_sextets val _ _ _ _ R0 R1 R2 R3) as [B1 [B2 B3]].
  cbv zeta in B1, B2, B3. rewrite B1, B2, B3, E0, E1, E2, E3.
  replace ((a / 4 * 4 + (a mod 4 * 16 + b / 16) / 16) mod 256) with a
    by (Z.to_euclidean_division_equations; lia).
  replace ((a mod 4 * 16 + b / 16) mod 16 * 16 + (b mod 16 * 4 + c / 64) / 4)
    with b by (Z.to_euclidean_division_equations; lia).
  replace ((b mod 16 * 4 + c / 64) mod 4 * 64 + c mod 64) with c
    by (Z.to_euclidean_division_equations; lia).
  eexists. rewrite <- !app_assoc. reflexivity.
Qed.

Lemma zero_fill_group a b c rest :
  zero_fill (a :: b :: c :: rest) = a :: b :: c :: zero_fill rest.
Proof.
  unfold zero_fill. cbn [List.length app].
  replace (S (S (S (List.length rest))) mod 3)%nat
    with (List.length rest mod 3)%nat; [reflexivity|].
  replace (S (S (S (List.length rest)))) with (List.length rest + 1 * 3)%nat
    by lia.
  rewrite Nat.Div0.mod_add. reflexivity.
Qed.

Lemma decode_groups n : forall data val res,
  (List.length data <= n)%nat -> Forall (fun b => 0 <= b < 256) data ->
  decode_loop (groups data) val (-8) res = res ++ zero_fill data.
Proof.
  induction n as [|n IH]; intros data val res Hn Hb.
  - destruct data; [|cbn [List.length] in Hn; lia].
    cbn. rewrite app_nil_r. reflexivity.
  - destruct data as [|a [|b [|c rest]]].
    + cbn. rewrite app_nil_r. reflexivity.
    + pose proof (Forall_inv Hb) as Ha. cbv beta in Ha.
      cbn [groups]. rewrite <- (string_append_nil (group a 0 0)).
      destruct (decode_group a 0 0 EmptyString val res) as [v' ->]; try lia.
      reflexivity.
    + pose proof (Forall_inv Hb) as Ha.
      pose proof (Forall_inv (Forall_inv_tail Hb)) as Hb0. cbv beta in Ha, Hb0.
      cbn [groups]. rewrite <- (string_append_nil (group a b 0)).
      destruct (decode_group a b 0 EmptyString val res) as [v' ->]; try lia.
      reflexivity.
    + pose proof (Forall_inv Hb) as Ha.
      pose proof (Forall_inv (Forall_inv_tail Hb)) as Hb0.
      pose proof (Forall_inv (Forall_inv_tail (Forall_inv_tail Hb))) as Hc0.
      pose proof (Forall_inv_tail (Forall_inv_tail (Forall_inv_tail Hb)))
        as Hrest.
      cbv beta in Ha, Hb0, Hc0. cbn [groups].
      destruct (decode_group a b c (groups rest) val res) as [v' ->]; try lia.
      rewrite IH; [|cbn [List.length] in Hn; lia|assumption].
      rewrite zero_fill_group, <- app_assoc. reflexivity.
Qed.

(** X16.  What the pair of functions does on every byte sequence: decoding the
    encoder's text gives the input filled up with zero bytes to a multiple
    of three, so the input comes back exactly when its length is a
    multiple of three. *)
Theorem base64_roundtrip_zero_fill :
  forall data,
    Forall (fun b => 0 <= b < 256) data ->
    base64Decode (base64Encode data) = zero_fill data
    /\ (base64Decode (base64Encode data) = data
        <-> (List.length data mod 3 = 0)%nat).
Proof.
  intros data Hb.
  assert (base64Decode (base64Encode data) = zero_fill data) as E.
  { rewrite base64Encode_groups by assumption.
    unfold base64Decode.
    destruct (groups data) eqn:Eg.
    - destruct data as [|a [|b [|c rest]]]; [reflexivity|discriminate..].
    - rewrite <- Eg. apply (decode_groups (List.length data)); [lia|assumption]. }
  split; [assumption|]. rewrite E. unfold zero_fill.
  pose proof (Nat.mod_upper_bound (List.length data) 3 ltac:(lia)) as Hm.
  split.
  - intros H. apply (f_equal (@List.length Z)) in H.
    rewrite length_app, repeat_length in H.
    destruct (List.length data mod 3)%nat as [|[|[|m]]] eqn:Em;
      [reflexivity | cbn in H; lia | cbn in H; lia | lia].
  - intros ->. cbn. apply app_nil_r.
Qed.

(** * Further properties *)

Import BitStream Baseline Readback Processor.

(** ** Bit strings the writer packs *)

Lemma round_step bb n :
  8 <= n <= 23 -> bb mod 2 ^ (24 - n) = 0 ->
  let c := Z.land (Z.shiftr bb 16) 255 in
  let bb' := int32 (Z.shiftl bb 8) in
  0 <= c < 256
  /\ bb' mod 2 ^ (24 - (n - 8)) = 0
  /\ (bb mod 2 ^ 24) / 2 ^ (24 - n)
     = c * 2 ^ (n - 8) + (bb' mod 2 ^ 24) / 2 ^ (24 - (n - 8)).
Proof.
  intros Hn Hz. cbv zeta.
  change 255 with (Z.ones 8). rewrite Z.land_ones, Z.shiftr_div_pow2, Z.shiftl_mul_pow2 by lia.
  unfold int32.
  assert (n = 8 \/ n = 9 \/ n = 10 \/ n = 11 \/ n = 12 \/ n = 13 \/ n = 14 \/ n = 15
          \/ n = 16 \/ n = 17 \/ n = 18 \/ n = 19 \/ n = 20 \/ n = 21 \/ n = 22 \/ n = 23) as Hc by lia.
  repeat (destruct Hc as [-> | Hc]); try subst n;
    cbn in Hz |- *; (split; [|split]); Z.to_euclidean_division_equations; lia.
Qed.

Lemma be_value_acc raw : forall acc,
  be_value acc raw = acc * 256 ^ Z.of_nat (List.length raw) + be_value 0 raw.
Proof.
  unfold be_value.
  induction raw as [|c raw IH]; intros acc; cbn [fold_left List.length].
  - change (256 ^ Z.of_nat 0) with 1. lia.
  - rewrite IH, (IH (0 * 256 + c)). rewrite Nat2Z.inj_succ, Z.pow_succ_r by lia. lia.
Qed.

Lemma stuff_app r1 r2 : stuff (r1 ++ r2) = stuff r1 ++ stuff r2.
Proof. apply flat_map_app. Qed.

Lemma pow256 k : 0 <= k -> 256 ^ k = 2 ^ (8 * k).
Proof. intros Hk. change 256 with (2 ^ 8). rewrite <- Z.pow_mul_r by lia. reflexivity. Qed.

(** The loop moves whole bytes from the top of the 24-bit window to the
    sink and keeps the rest. *)
Lemma writeBits_loop_packs fuel : forall bb n o,
  0 <= n <= 23 -> (Z.to_nat n <= fuel)%nat -> bb mod 2 ^ (24 - n) = 0 ->
  let w' := writeBits_loop fuel bb n o in
  exists raw,
    out w' = o ++ stuff raw
    /\ Forall (fun c => 0 <= c < 256) raw
    /\ 8 * Z.of_nat (List.length raw) + bitCnt w' = n
    /\ aligned w'
    /\ be_value 0 raw * 2 ^ bitCnt w' + pending w'
       = (bb mod 2 ^ 24) / 2 ^ (24 - n).
Proof.
  induction fuel as [|fuel IH]; intros bb n o Hn Hf Hz; cbv zeta.
  - assert (n = 0) as -> by lia. cbn [writeBits_loop].
    exists []. unfold aligned, pending. cbn [out bitCnt bitBuf stuff flat_map List.length be_value fold_left].
    rewrite app_nil_r. repeat split; try lia; try constructor; assumption.
  - destruct (Z.lt_ge_cases n 8) as [Hlt | Hge].
    + rewrite writeBits_loop_done by assumption.
      exists []. unfold aligned, pending. cbn [out bitCnt bitBuf stuff flat_map List.length be_value fold_left].
      rewrite app_nil_r. repeat split; try lia; try constructor; assumption.
    + rewrite writeBits_loop_round by assumption. cbv zeta.
      destruct (round_step bb n ltac:(lia) Hz) as [Hc [Hz' HX]]. cbv zeta in Hc, Hz', HX.
      set (c := Z.land (Z.shiftr bb 16) 255) in *.
      set (bb' := int32 (Z.shiftl bb 8)) in *.
      rewrite stuff_one.
      destruct (IH bb' (n - 8) (o ++ stuff [c]) ltac:(lia) ltac:(lia) Hz')
        as [raw [Ho [Hb [Hl [Ha Hv]]]]].
      set (w1 := writeBits_loop fuel bb' (n - 8) (o ++ stuff [c])) in *.
      exists (c :: raw). rewrite Ho.
      split; [rewrite <- app_assoc, <- stuff_app; reflexivity|].
      split; [constructor; assumption|].
      split; [cbn [List.length]; lia|].
      split; [assumption|].
      rewrite HX, <- Hv.
      change (be_value 0 (c :: raw)) with (be_value (0 * 256 + c) raw).
      rewrite be_value_acc, pow256 by lia.
      replace (n - 8) with (8 * Z.of_nat (List.length raw) + bitCnt w1) by lia.
      destruct Ha as [Hcnt _].
      rewrite Z.pow_add_r by lia. ring.
Qed.

Lemma pending_range w : aligned w -> 0 <= pending w < 2 ^ bitCnt w.
Proof.
  intros [Hc Hz]. unfold pending.
  assert (0 < 2 ^ (24 - bitCnt w)) by (apply Z.pow_pos_nonneg; lia).
  assert (2 ^ 24 = 2 ^ bitCnt w * 2 ^ (24 - bitCnt w)) as E
    by (rewrite <- Z.pow_add_r by lia; f_equal; lia).
  pose proof (Z.mod_pos_bound (bitBuf w) (2 ^ 24) ltac:(lia)) as Hm.
  split; [apply Z.div_pos; lia|].
  apply Z.div_lt_upper_bound; lia.
Qed.

Lemma lor_disjoint_add a code k len :
  0 <= k -> 0 <= len -> a mod 2 ^ (k + len) = 0 -> 0 <= code < 2 ^ len ->
  Z.lor a (Z.shiftl code k) = a + code * 2 ^ k.
Proof.
  intros Hk Hl Ha Hc.
  rewrite <- Z.shiftl_mul_pow2 by lia.
  rewrite <- Z.lxor_lor, <- Z.add_nocarry_lxor; try reflexivity.
  all: apply Z.bits_inj'; intros i Hi; rewrite Z.land_spec, Z.bits_0.
  all: destruct (Z.lt_ge_cases i (k + len)) as [Hlt | Hge].
  all: try (rewrite <- (Z.mod_pow2_bits_low a (k + len) i), Ha, Z.bits_0 by lia;
            reflexivity).
  all: rewrite Z.shiftl_spec by lia.
  all: rewrite <- (Z.mod_small code (2 ^ len)) by lia.
  all: rewrite Z.mod_pow2_bits_high by lia.
  all: apply andb_false_r.
Qed.

Lemma window_insert bb cnt len code :
  0 <= cnt < 8 -> 0 <= len <= 16 -> 0 <= code < 2 ^ len ->
  bb mod 2 ^ (24 - cnt) = 0 ->
  let bb' := int32 (bb + code * 2 ^ (24 - (cnt + len))) in
  bb' mod 2 ^ (24 - (cnt + len)) = 0
  /\ (bb' mod 2 ^ 24) / 2 ^ (24 - (cnt + len))
     = (bb mod 2 ^ 24) / 2 ^ (24 - cnt) * 2 ^ len + code.
Proof.
  intros Hcnt Hlen Hcode Hz. cbv zeta. unfold int32.
  assert (cnt = 0 \/ cnt = 1 \/ cnt = 2 \/ cnt = 3 \/ cnt = 4 \/ cnt = 5
          \/ cnt = 6 \/ cnt = 7) as Hc by lia.
  assert (len = 0 \/ len = 1 \/ len = 2 \/ len = 3 \/ len = 4 \/ len = 5
          \/ len = 6 \/ len = 7 \/ len = 8 \/ len = 9 \/ len = 10 \/ len = 11
          \/ len = 12 \/ len = 13 \/ len = 14 \/ len = 15 \/ len = 16) as Hl by lia.
  repeat (destruct Hc as [-> | Hc]); try subst cnt;
  repeat (destruct Hl as [-> | Hl]); try subst len;
    cbn in Hz, Hcode |- *; split; Z.to_euclidean_division_equations; lia.
Qed.

(** One call: the new bits go right behind the pending ones. *)
Lemma writeBits_packs w code len :
  aligned w -> 0 <= len <= 16 -> 0 <= code < 2 ^ len ->
  let w' := stbiw__jpg_writeBits w (code, len) in
  exists raw,
    out w' = out w ++ stuff raw
    /\ Forall (fun c => 0 <= c < 256) raw
    /\ 8 * Z.of_nat (List.length raw) + bitCnt w' = bitCnt w + len
    /\ aligned w'
    /\ be_value 0 raw * 2 ^ bitCnt w' + pending w' = pending w * 2 ^ len + code.
Proof.
  intros Ha Hl Hc. cbv zeta. unfold stbiw__jpg_writeBits. cbn [fst snd].
  destruct Ha as [Hcnt Hz].
  rewrite (lor_disjoint_add _ _ _ len) by
    (try lia; replace (24 - (bitCnt w + len) + len) with (24 - bitCnt w) by lia;
     assumption).
  destruct (window_insert (bitBuf w) (bitCnt w) len code Hcnt Hl Hc Hz)
    as [Hz' HX]. cbv zeta in Hz', HX.
  destruct (writeBits_loop_packs (Z.to_nat (bitCnt w + len))
              (int32 (bitBuf w + code * 2 ^ (24 - (bitCnt w + len))))
              (bitCnt w + len) (out w) ltac:(lia) ltac:(lia) Hz')
    as [raw [Ho [Hb [Hlen [Hal Hv]]]]].
  exists raw. unfold pending at 2. rewrite <- HX. auto.
Qed.

Lemma be_value_app r1 r2 :
  be_value 0 (r1 ++ r2)
  = be_value 0 r1 * 2 ^ (8 * Z.of_nat (List.length r2)) + be_value 0 r2.
Proof.
  unfold be_value at 1. rewrite fold_left_app. fold (be_value 0 r1).
  fold (be_value (be_value 0 r1) r2).
  rewrite be_value_acc, pow256 by lia. reflexivity.
Qed.

Lemma bits_length_nonneg calls :
  Forall fits calls ->
  0 <= bits_length calls.
Proof.
  induction 1 as [|b calls Hb _ IH]; cbn [bits_length fold_right]; [lia|].
  fold (bits_length calls). unfold fits in Hb. lia.
Qed.

Lemma bits_value_acc calls : forall acc,
  Forall fits calls ->
  bits_value acc calls = acc * 2 ^ bits_length calls + bits_value 0 calls.
Proof.
  induction calls as [|b calls IH]; intros acc Hc;
    cbn [bits_value bits_length fold_left fold_right].
  - change (2 ^ 0) with 1. lia.
  - fold (bits_length calls). fold (bits_value (acc * 2 ^ snd b + fst b) calls).
    fold (bits_value (0 * 2 ^ snd b + fst b) calls).
    pose proof (Forall_inv Hc) as Hb. pose proof (Forall_inv_tail Hc) as Ht.
    unfold fits in Hb. pose proof (bits_length_nonneg calls Ht) as Hn.
    rewrite (IH _ Ht), (IH (0 * 2 ^ snd b + fst b) Ht).
    rewrite Z.pow_add_r by lia. ring.
Qed.

(** A run of calls: the sink gets the stuffed bytes of the bit string made
    of the pending bits and the codes in call order, most significant bit
    first; what does not fill a byte stays pending. *)
Lemma fold_writeBits_packs calls : forall w,
  aligned w ->
  Forall fits calls ->
  let w' := fold_left stbiw__jpg_writeBits calls w in
  exists raw,
    out w' = out w ++ stuff raw
    /\ Forall (fun c => 0 <= c < 256) raw
    /\ 8 * Z.of_nat (List.length raw) + bitCnt w' = bitCnt w + bits_length calls
    /\ aligned w'
    /\ be_value 0 raw * 2 ^ bitCnt w' + pending w' = bits_value (pending w) calls.
Proof.
  induction calls as [|[code len] calls IH]; intros w Ha Hc; cbv zeta.
  - exists []. cbn [fold_left stuff flat_map be_value bits_value bits_length
                    fold_right List.length].
    rewrite app_nil_r. repeat split; try lia; try constructor; apply Ha.
  - pose proof (Forall_inv Hc) as Hb. pose proof (Forall_inv_tail Hc) as Ht.
    unfold fits in Hb. cbn [fst snd] in Hb. destruct Hb as [Hlen Hcode].
    destruct (writeBits_packs w code len Ha Hlen Hcode)
      as [raw1 [Ho1 [Hb1 [Hl1 [Ha1 Hv1]]]]].
    cbn [fold_left].
    set (w1 := stbiw__jpg_writeBits w (code, len)) in *.
    destruct (IH w1 Ha1 Ht) as [raw2 [Ho2 [Hb2 [Hl2 [Ha2 Hv2]]]]].
    set (w2 := fold_left stbiw__jpg_writeBits calls w1) in *.
    exists (raw1 ++ raw2).
    split; [rewrite Ho2, Ho1, stuff_app, app_assoc; reflexivity|].
    split; [apply Forall_app; split; assumption|].
    split; [rewrite length_app; cbn [bits_length fold_right snd];
            fold (bits_length calls); lia|].
    split; [assumption|].
    cbn [bits_value fold_left fst snd].
    fold (bits_value (pending w * 2 ^ len + code) calls).
    rewrite <- Hv1, (bits_value_acc calls _ Ht).
    rewrite (bits_value_acc calls (pending w1) Ht) in Hv2.
    rewrite be_value_app.
    pose proof (bits_length_nonneg calls Ht) as Hn.
    destruct Ha1 as [Hc1 _]. destruct Ha2 as [Hc2 _].
    assert (2 ^ (8 * Z.of_nat (List.length raw2)) * 2 ^ bitCnt w2
            = 2 ^ bitCnt w1 * 2 ^ bits_length calls) as E
        by (rewrite <- !Z.pow_add_r by lia; f_equal; lia).
    set (A := 2 ^ (8 * Z.of_nat (List.length raw2))) in *.
    set (B := 2 ^ bitCnt w2) in *. set (C := 2 ^ bitCnt w1) in *.
    set (D := 2 ^ bits_length calls) in *.
    replace ((be_value 0 raw1 * A + be_value 0 raw2) * B + pending w2)
      with (be_value 0 raw1 * (A * B) + (be_value 0 raw2 * B + pending w2))
      by ring.
    rewrite E, Hv2. ring.
Qed.

(** X2.  The fill bits push out every bit that is still pending: with
    [k] bits pending, [1 <= k <= 7], the call delivers one byte, the
    pending bits followed by [8 - k] one bits (and the stuffing zero when
    that byte is 0xFF); with none pending it delivers nothing. *)
Theorem fillBits_flush w :
  aligned w ->
  out (stbiw__jpg_writeBits w fillBits)
  = out w ++ (if bitCnt w =? 0 then []
              else stuff [pending w * 2 ^ (8 - bitCnt w)
                          + (2 ^ (8 - bitCnt w) - 1)]).
Proof.
  intros Ha. pose proof (pending_range w Ha) as Hp.
  destruct (writeBits_packs w 0x7F 7 Ha ltac:(lia) ltac:(cbn; lia))
    as [raw [Ho [Hb [Hl [Ha' Hv]]]]].
  change (stbiw__jpg_writeBits w (127, 7)) with (stbiw__jpg_writeBits w fillBits) in *.
  set (w' := stbiw__jpg_writeBits w fillBits) in *.
  pose proof (pending_range w' Ha') as Hp'.
  destruct Ha as [Hc _]. destruct Ha' as [Hc' _].
  rewrite Ho. f_equal.
  destruct raw as [|v [|v2 raw]]; cbn [List.length] in Hl.
  - replace (bitCnt w =? 0) with true by (symmetry; apply Z.eqb_eq; lia).
    reflexivity.
  - replace (bitCnt w =? 0) with false by (symmetry; apply Z.eqb_neq; lia).
    do 2 f_equal. cbn [be_value fold_left] in Hv.
    assert (bitCnt w' = bitCnt w - 1) as E by lia. rewrite E in *.
    assert (bitCnt w = 1 \/ bitCnt w = 2 \/ bitCnt w = 3 \/ bitCnt w = 4
            \/ bitCnt w = 5 \/ bitCnt w = 6 \/ bitCnt w = 7) as Hcase by lia.
    repeat (destruct Hcase as [Ec | Hcase]); try rename Hcase into Ec;
      rewrite Ec in *; cbn in Hv, Hp' |- *; lia.
  - lia.
Qed.

Lemma fillBits_flush_witness :
  aligned (mkWriter 10485760 3 [])
  /\ out (stbiw__jpg_writeBits (mkWriter 10485760 3 []) fillBits) = [191].
Proof.
  assert (aligned (mkWriter 10485760 3 [])) as Ha
      by (unfold aligned; cbn; split; [lia|reflexivity]).
  split; [exact Ha|].
  exact (fillBits_flush (mkWriter 10485760 3 []) Ha).
Defined.

(** X1.  A run of [stbiw__jpg_writeBits] calls whose codes fit their
    lengths ([len <= 16], [code < 2^len]), from a writer with fewer than 8
    bits pending: the sink gets the byte-stuffed form of a byte string
    [raw]; [raw] followed by the bits left pending is, read most
    significant bit first, the bits pending before followed by the codes
    in call order; fewer than 8 bits stay pending. *)
Theorem writeBits_packs_msb_first :
  forall calls w,
    aligned w -> Forall fits calls ->
    let w' := fold_left stbiw__jpg_writeBits calls w in
    exists raw,
      out w' = out w ++ stuff raw
      /\ Forall (fun c => 0 <= c < 256) raw
      /\ 8 * Z.of_nat (List.length raw) + bitCnt w'
         = bitCnt w + bits_length calls
      /\ aligned w'
      /\ be_value 0 raw * 2 ^ bitCnt w' + pending w'
         = bits_value (pending w) calls.
Proof. exact fold_writeBits_packs. Qed.

Lemma writeBits_packs_msb_first_witness :
  aligned (mkWriter 0 0 [])
  /\ Forall fits [(5, 3); (0x1FF, 9)]
  /\ exists raw,
       out (fold_left stbiw__jpg_writeBits [(5, 3); (0x1FF, 9)]
                      (mkWriter 0 0 []))
       = [] ++ stuff raw
       /\ be_value 0 raw * 2 ^ 4 + 15 = bits_value 0 [(5, 3); (0x1FF, 9)].
Proof.
  assert (aligned (mkWriter 0 0 [])) as Ha
      by (unfold aligned; cbn; split; [lia|reflexivity]).
  assert (Forall fits [(5, 3); (0x1FF, 9)]) as Hc
      by (repeat constructor; cbn; lia).
  split; [exact Ha|]. split; [exact Hc|].
  destruct (writeBits_packs_msb_first _ _ Ha Hc) as [raw [Ho [_ [_ [_ Hv]]]]].
  exists raw. split; [exact Ho | exact Hv].
Defined.

(** ** Magnitude bits read back *)

(** The size of a nonzero value brackets its magnitude. *)
Lemma size_spec_bounds v :
  v <> 0 ->
  1 <= size_spec v /\ 2 ^ (size_spec v - 1) <= Z.abs v < 2 ^ size_spec v.
Proof.
  intros Hv. unfold size_spec.
  pose proof (Z.log2_nonneg (Z.abs v)) as Hn.
  pose proof (Z.log2_spec (Z.abs v) ltac:(lia)) as Hs.
  replace (Z.log2 (Z.abs v) + 1 - 1) with (Z.log2 (Z.abs v)) by lia.
  replace (Z.log2 (Z.abs v) + 1) with (Z.succ (Z.log2 (Z.abs v))) by lia.
  lia.
Qed.

Lemma size_spec_le v k : 0 <= k -> v <> 0 -> Z.abs v < 2 ^ k -> size_spec v <= k.
Proof.
  intros Hk Hv Hlt. destruct (size_spec_bounds v Hv) as [H1 [Hlo _]].
  destruct (Z.le_gt_cases (size_spec v) k) as [|Hgt]; [assumption|].
  assert (2 ^ k <= 2 ^ (size_spec v - 1)) by (apply Z.pow_le_mono_r; lia).
  lia.
Qed.

(** The magnitude bits of a nonzero value: [size] bits, the value itself
    when it is positive, and [v + 2^size - 1] when it is negative. *)
Lemma magnitude_bits v :
  v <> 0 ->
  fst (magnitude_spec v)
  = if v <? 0 then v + 2 ^ size_spec v - 1 else v.
Proof.
  intros Hv. unfold magnitude_spec. cbn [fst].
  destruct (size_spec_bounds v Hv) as [H1 [Hlo Hhi]].
  destruct (v <? 0) eqn:E; [|reflexivity]. apply Z.ltb_lt in E.
  rewrite Z.land_ones by lia.
  assert (0 < 2 ^ (size_spec v - 1)) by (apply Z.pow_pos_nonneg; lia).
  assert (2 ^ size_spec v = 2 * 2 ^ (size_spec v - 1)) as E2.
  { replace (size_spec v) with (Z.succ (size_spec v - 1)) at 1 by lia.
    apply Z.pow_succ_r. lia. }
  symmetry. apply Z.mod_unique with (q := -1); lia.
Qed.

Lemma calcBits_range v :
  v <> 0 -> Z.abs v < 65536 ->
  1 <= snd (stbiw__jpg_calcBits v) <= 16
  /\ 0 <= fst (stbiw__jpg_calcBits v) < 2 ^ snd (stbiw__jpg_calcBits v).
Proof.
  intros Hv Hlt. rewrite calcBits_magnitude by assumption.
  rewrite magnitude_bits by assumption. unfold magnitude_spec. cbn [snd].
  destruct (size_spec_bounds v Hv) as [H1 [Hlo Hhi]].
  pose proof (size_spec_le v 16 ltac:(lia) Hv Hlt) as H16.
  assert (2 ^ size_spec v = 2 * 2 ^ (size_spec v - 1)) as E2.
  { replace (size_spec v) with (Z.succ (size_spec v - 1)) at 1 by lia.
    apply Z.pow_succ_r. lia. }
  destruct (v <? 0) eqn:E; [apply Z.ltb_lt in E | apply Z.ltb_ge in E]; lia.
Qed.

(** X3.  The pair [stbiw__jpg_calcBits] gives for a nonzero value below
    [2^16] in magnitude determines the value: the size is between 1 and
    16, the bits fit the size, bits with the top bit set are the value
    itself and the others are the value plus [2^size - 1]. *)
Theorem calcBits_invertible :
  forall v, v <> 0 -> Z.abs v < 65536 ->
    let b := fst (stbiw__jpg_calcBits v) in
    let n := snd (stbiw__jpg_calcBits v) in
    1 <= n <= 16 /\ 0 <= b < 2 ^ n
    /\ v = (if 2 ^ (n - 1) <=? b then b else b - 2 ^ n + 1).
Proof.
  intros v Hv Hlt. cbv zeta.
  destruct (calcBits_range v Hv Hlt) as [Hn Hb].
  split; [assumption|]. split; [assumption|].
  rewrite calcBits_magnitude in * by assumption.
  rewrite magnitude_bits in * by assumption.
  unfold magnitude_spec in *. cbn [snd] in *.
  destruct (size_spec_bounds v Hv) as [H1 [Hlo Hhi]].
  assert (2 ^ size_spec v = 2 * 2 ^ (size_spec v - 1)) as E2.
  { replace (size_spec v) with (Z.succ (size_spec v - 1)) at 1 by lia.
    apply Z.pow_succ_r. lia. }
  destruct (v <? 0) eqn:E; [apply Z.ltb_lt in E | apply Z.ltb_ge in E].
  - replace (_ <=? _) with false by (symmetry; apply Z.leb_gt; lia). lia.
  - replace (_ <=? _) with true by (symmetry; apply Z.leb_le; lia). lia.
Qed.

Lemma calcBits_invertible_witness :
  -3 <> 0 /\ Z.abs (-3) < 65536
  /\ -3 = (if 2 ^ (snd (stbiw__jpg_calcBits (-3)) - 1)
              <=? fst (stbiw__jpg_calcBits (-3))
           then fst (stbiw__jpg_calcBits (-3))
           else fst (stbiw__jpg_calcBits (-3))
                - 2 ^ snd (stbiw__jpg_calcBits (-3)) + 1).
Proof.
  assert (-3 <> 0) as H0 by lia.
  assert (Z.abs (-3) < 65536) as H1 by (cbn; lia).
  split; [exact H0|]. split; [exact H1|].
  exact (proj2 (proj2 (calcBits_invertible (-3) H0 H1))).
Defined.

(** ** Prefix codes *)

Lemma assign_keep t : forall (h : htable) s,
  ~ In s (map fst t) -> fold_left assign t h s = h s.
Proof.
  induction t as [|[a b] t IH]; intros h s Hn; [reflexivity|].
  cbn [fold_left]. rewrite IH.
  - unfold assign, store. cbn [fst snd].
    destruct (s =? a) eqn:E; [|reflexivity].
    apply Z.eqb_eq in E. subst a. exfalso. apply Hn. left. reflexivity.
  - intros H. apply Hn. right. assumption.
Qed.

(** Every canonical code fits into its length. *)
Lemma canonical_from_fits counts : forall j code syms,
  0 <= j -> 0 <= code -> kraftb j code counts = true ->
  Forall (fun e : Z * bits =>
            j <= snd (snd e) < j + Z.of_nat (List.length counts)
            /\ 0 <= fst (snd e) < 2 ^ snd (snd e))
         (canonical_from j code counts syms).
Proof.
  induction counts as [|n counts IH]; intros j code syms Hj Hc Hkr;
    [constructor|].
  cbn [kraftb] in Hkr. repeat (apply andb_true_iff in Hkr as [Hkr ?]).
  apply Z.leb_le in Hkr.
  repeat match goal with H : (_ <=? _) = true |- _ => apply Z.leb_le in H end.
  cbn [canonical_from List.length]. apply Forall_app. split.
  - apply Forall_forall. intros [s [c l]] Hin.
    apply in_combine_r, in_map_iff in Hin. destruct Hin as [i [E Hi]].
    injection E as <- <-. apply in_seq in Hi. cbn [fst snd]. lia.
  - eapply Forall_impl; [|apply (IH (j + 1) (2 * (code + n))); [lia|lia|assumption]].
    cbn beta. intros e He. lia.
Qed.

(** In assignment order a later code, cut to the length of an earlier
    one, is larger than the earlier one. *)
Lemma canonical_chain_prefix t : forall j code,
  0 <= code -> canonical_chain j code t ->
  ForallOrdPairs
    (fun a b : Z * bits =>
       snd (snd a) <= snd (snd b)
       /\ (fst (snd a) + 1) * 2 ^ (snd (snd b) - snd (snd a)) <= fst (snd b)) t.
Proof.
  induction t as [|[s [c l]] t IH]; intros j code Hc H; [constructor|].
  cbn [canonical_chain] in H. destruct H as [Hj [Hcl Ht]].
  assert (0 < 2 ^ (l - j)) by (apply Z.pow_pos_nonneg; lia).
  assert (0 <= c) by nia.
  constructor; [|apply (IH l (c + 1)); [lia|assumption]].
  pose proof (canonical_chain_lower t l (c + 1) ltac:(lia) Ht) as Hlow.
  eapply Forall_impl; [|exact Hlow]. cbn beta.
  intros [s' [c' l']]. cbn [fst snd]. tauto.
Qed.

Section TableProofs.
Variables nrcodes std_table : list Z.
Hypothesis Hwf : well_formedb nrcodes std_table = true.
Variable h : htable.

Lemma canonical_codes_entry s :
  In s std_table ->
  In (s, stbiw__jpg_buildHuffmanTable nrcodes std_table h s)
     (canonical_codes nrcodes std_table).
Proof.
  intros Hs.
  destruct (well_formedb_parts _ _ Hwf)
    as [c0 [counts [Hnr [Hlen [Hkr [Hsum Hnd]]]]]].
  assert (map fst (canonical_codes nrcodes std_table) = std_table) as Hfst.
  { unfold canonical_codes. rewrite Hnr. cbn [tl].
    rewrite canonical_from_symbols by (assumption || lia).
    rewrite Hsum, Nat2Z.id. apply firstn_all. }
  rewrite <- Hfst in Hs. apply in_map_iff in Hs.
  destruct Hs as [[s' v] [E Hin]]. cbn [fst] in E. subst s'.
  rewrite buildHuffmanTable_spec by assumption.
  rewrite (assign_lookup _ h s v); [assumption| |assumption].
  rewrite Hfst. assumption.
Qed.

Lemma canonical_codes_props :
  let t := canonical_codes nrcodes std_table in
  NoDup (map fst t)
  /\ Forall (fun e : Z * bits =>
            1 <= snd (snd e) <= 16 /\ 0 <= fst (snd e) < 2 ^ snd (snd e)) t
  /\ ForallOrdPairs
       (fun a b : Z * bits =>
          snd (snd a) <= snd (snd b)
          /\ (fst (snd a) + 1) * 2 ^ (snd (snd b) - snd (snd a)) <= fst (snd b)) t.
Proof.
  cbv zeta.
  destruct (well_formedb_parts _ _ Hwf)
    as [c0 [counts [Hnr [Hlen [Hkr [Hsum Hnd]]]]]].
  unfold canonical_codes. rewrite Hnr. cbn [tl].
  split; [|split].
  - rewrite canonical_from_symbols by (assumption || lia).
    rewrite Hsum, Nat2Z.id, firstn_all. assumption.
  - eapply Forall_impl;
      [|apply (canonical_from_fits counts 1 0); [lia|lia|assumption]].
    cbn beta. intros e He. lia.
  - apply (canonical_chain_prefix _ 1 0); [lia|].
    apply canonical_from_chain; [assumption|lia].
Qed.

Lemma canonical_entry_fits s (v : bits) :
  In (s, v) (canonical_codes nrcodes std_table) ->
  1 <= snd v <= 16 /\ 0 <= fst v < 2 ^ snd v.
Proof.
  intros Hin. destruct canonical_codes_props as [_ [Hfit _]].
  rewrite Forall_forall in Hfit. exact (Hfit _ Hin).
Qed.

Lemma table_entry_fits s :
  In s std_table ->
  1 <= snd (stbiw__jpg_buildHuffmanTable nrcodes std_table h s) <= 16
  /\ 0 <= fst (stbiw__jpg_buildHuffmanTable nrcodes std_table h s)
       < 2 ^ snd (stbiw__jpg_buildHuffmanTable nrcodes std_table h s).
Proof.
  intros Hs. exact (canonical_entry_fits s _ (canonical_codes_entry s Hs)).
Qed.

Lemma table_entries_prefix s1 s2 :
  In s1 std_table -> In s2 std_table -> s1 <> s2 ->
  let e1 := stbiw__jpg_buildHuffmanTable nrcodes std_table h s1 in
  let e2 := stbiw__jpg_buildHuffmanTable nrcodes std_table h s2 in
  snd e1 <= snd e2 ->
  Z.shiftr (fst e2) (snd e2 - snd e1) <> fst e1.
Proof.
  intros H1 H2 Hne. cbv zeta. intros Hle.
  destruct canonical_codes_props as [Hnd [_ Hord]].
  pose proof (canonical_codes_entry s1 H1) as I1.
  pose proof (canonical_codes_entry s2 H2) as I2.
  revert I1 I2 Hle.
  generalize (stbiw__jpg_buildHuffmanTable nrcodes std_table h s1).
  generalize (stbiw__jpg_buildHuffmanTable nrcodes std_table h s2).
  intros e2 e1 I1 I2 Hle.
  rewrite Z.shiftr_div_pow2 by lia.
  destruct (ForallOrdPairs_In Hord _ _ I1 I2) as [E | [Hlt | Hlt]];
    [ | cbn [fst snd] in Hlt .. ].
  - injection E as E _. contradiction.
  - destruct Hlt as [_ Hlt].
    assert (0 < 2 ^ (snd e2 - snd e1)) by (apply Z.pow_pos_nonneg; lia).
    assert (fst e1 + 1 <= fst e2 / 2 ^ (snd e2 - snd e1))
      by (apply Z.div_le_lower_bound; lia).
    lia.
  - destruct Hlt as [Hl Hlt].
    replace (snd e2 - snd e1) with 0 in * by lia.
    replace (snd e1 - snd e2) with 0 in * by lia.
    change (2 ^ 0) with 1 in *. rewrite Z.div_1_r. lia.
Qed.
End TableProofs.

(** X4.  A table built from a well-formed specification is a prefix
    code on the listed symbols: every code fits its length, which is
    between 1 and 16, and the code of another symbol, cut to the length
    of a shorter or equally long one, differs from it. *)
Theorem buildHuffmanTable_prefix_code :
  forall nrcodes std_table (h : htable) s1 s2,
    well_formedb nrcodes std_table = true ->
    In s1 std_table -> In s2 std_table -> s1 <> s2 ->
    let e1 := stbiw__jpg_buildHuffmanTable nrcodes std_table h s1 in
    let e2 := stbiw__jpg_buildHuffmanTable nrcodes std_table h s2 in
    1 <= snd e1 <= 16 /\ 0 <= fst e1 < 2 ^ snd e1
    /\ (snd e1 <= snd e2 -> Z.shiftr (fst e2) (snd e2 - snd e1) <> fst e1).
Proof.
  intros nrcodes std_table h s1 s2 Hwf H1 H2 Hne. cbv zeta.
  destruct (table_entry_fits nrcodes std_table Hwf h s1 H1) as [Hl Hc].
  split; [exact Hl|]. split; [exact Hc|].
  exact (table_entries_prefix nrcodes std_table Hwf h s1 s2 H1 H2 Hne).
Qed.

Lemma buildHuffmanTable_prefix_code_witness :
  well_formedb stbiw__jpg_std_dc_luminance_nrcodes
               stbiw__jpg_std_dc_luminance_values = true
  /\ 0 <= fst (stbiw__jpg_buildHuffmanTable
                 stbiw__jpg_std_dc_luminance_nrcodes
                 stbiw__jpg_std_dc_luminance_values (fun _ => (0, 0)) 0)
     < 2 ^ snd (stbiw__jpg_buildHuffmanTable
                  stbiw__jpg_std_dc_luminance_nrcodes
                  stbiw__jpg_std_dc_luminance_values (fun _ => (0, 0)) 0).
Proof.
  assert (well_formedb stbiw__jpg_std_dc_luminance_nrcodes
                       stbiw__jpg_std_dc_luminance_values = true) as Hwf
      by (vm_compute; reflexivity).
  assert (In 0 stbiw__jpg_std_dc_luminance_values) as H1
      by (left; reflexivity).
  assert (In 11 stbiw__jpg_std_dc_luminance_values) as H2
      by (do 11 right; left; reflexivity).
  assert (0 <> 11) as Hne by lia.
  split; [exact Hwf|].
  exact (proj1 (proj2 (buildHuffmanTable_prefix_code _ _ (fun _ => (0, 0))
                         0 11 Hwf H1 H2 Hne))).
Defined.

(** X5.  The builder writes the rows of the listed symbols only: a
    symbol that the value table does not list keeps what the array held
    before the call. *)
Theorem buildHuffmanTable_keeps_unlisted :
  forall nrcodes std_table (h : htable) s,
    well_formedb nrcodes std_table = true -> ~ In s std_table ->
    stbiw__jpg_buildHuffmanTable nrcodes std_table h s = h s.
Proof.
  intros nrcodes std_table h s Hwf Hs.
  rewrite buildHuffmanTable_spec by assumption.
  apply assign_keep.
  destruct (well_formedb_parts _ _ Hwf)
    as [c0 [counts [Hnr [Hlen [Hkr [Hsum Hnd]]]]]].
  unfold canonical_codes. rewrite Hnr. cbn [tl].
  rewrite canonical_from_symbols by (assumption || lia).
  rewrite Hsum, Nat2Z.id, firstn_all. assumption.
Qed.

Lemma buildHuffmanTable_keeps_unlisted_witness :
  well_formedb stbiw__jpg_std_dc_luminance_nrcodes
               stbiw__jpg_std_dc_luminance_values = true
  /\ ~ In 12 stbiw__jpg_std_dc_luminance_values
  /\ stbiw__jpg_buildHuffmanTable
       stbiw__jpg_std_dc_luminance_nrcodes
       stbiw__jpg_std_dc_luminance_values (fun _ => (7, 7)) 12 = (7, 7).
Proof.
  assert (well_formedb stbiw__jpg_std_dc_luminance_nrcodes
                       stbiw__jpg_std_dc_luminance_values = true) as Hwf
      by (vm_compute; reflexivity).
  assert (~ In 12 stbiw__jpg_std_dc_luminance_values) as Hs
      by (intros H; repeat (destruct H as [H|H]; [discriminate|]); exact H).
  split; [exact Hwf|]. split; [exact Hs|].
  exact (buildHuffmanTable_keeps_unlisted _ _ (fun _ => (7, 7)) 12 Hwf Hs).
Defined.

(** ** Bytes of a data unit *)

Lemma coversb_In values symbols s :
  coversb values symbols = true -> In s symbols -> In s values.
Proof.
  unfold coversb. rewrite forallb_forall. intros H Hs.
  apply H, existsb_exists in Hs. destruct Hs as [x [Hx E]].
  apply Z.eqb_eq in E. subst x. assumption.
Qed.

Lemma calcBits_fits v :
  v <> 0 -> Z.abs v < 65536 -> fits (stbiw__jpg_calcBits v).
Proof.
  intros Hv Hlt. destruct (calcBits_range v Hv Hlt). unfold fits. lia.
Qed.

Lemma dc_spec_baseline diff :
  Z.abs diff < 2048 -> Forall baseline_token (dc_spec diff).
Proof.
  intros Hd. unfold dc_spec. destruct (diff =? 0) eqn:E.
  - repeat constructor.
  - apply Z.eqb_neq in E. constructor; [|constructor; [|constructor]].
    + cbn [baseline_token]. unfold baseline_dc_symbols.
      destruct (size_spec_bounds diff E) as [H1 _].
      pose proof (size_spec_le diff 11 ltac:(lia) E Hd) as H11.
      apply in_map_iff. exists (Z.to_nat (size_spec diff)).
      split; [lia|apply in_seq; lia].
    + cbn [baseline_token]. rewrite <- calcBits_magnitude by lia.
      apply calcBits_fits; lia.
Qed.

Lemma run_tokens_baseline run v :
  v <> 0 -> Z.abs v < 1024 -> Forall baseline_token (run_tokens run v).
Proof.
  intros Hv Hlt. unfold run_tokens. apply Forall_app. split.
  - apply Forall_forall. intros t Ht. apply repeat_spec in Ht. subst t.
    cbn [baseline_token ZRL]. right. left. reflexivity.
  - constructor; [|constructor; [|constructor]].
    + cbn [baseline_token]. right. right. apply in_flat_map.
      exists (Z.of_nat (run mod 16)). split.
      * apply in_map, in_seq.
        pose proof (Nat.mod_upper_bound run 16 ltac:(lia)). lia.
      * apply in_map. rewrite calcBits_size by lia.
        destruct (size_spec_bounds v Hv) as [H1 _].
        pose proof (size_spec_le v 10 ltac:(lia) Hv Hlt) as H10.
        apply in_map_iff. exists (Z.to_nat (size_spec v)).
        split; [lia|apply in_seq; lia].
    + cbn [baseline_token]. apply calcBits_fits; lia.
Qed.

Lemma ac_spec_baseline ac :
  Forall (fun v => Z.abs v < 1024) ac ->
  forall run, Forall baseline_token (ac_spec run ac).
Proof.
  induction 1 as [|v ac Hv _ IH]; intros run; cbn [ac_spec].
  - destruct (run =? 0)%nat; repeat constructor.
  - destruct (v =? 0) eqn:E; [apply IH|].
    apply Z.eqb_neq in E. apply Forall_app. split; [|apply IH].
    apply run_tokens_baseline; assumption.
Qed.

Section BlockBytes.
Variables nrDC valuesDC nrAC valuesAC : list Z.
Variables hDC hAC : htable.
Hypothesis wfDC : well_formedb nrDC valuesDC = true.
Hypothesis wfAC : well_formedb nrAC valuesAC = true.
Hypothesis coverDC : coversb valuesDC baseline_dc_symbols = true.
Hypothesis coverAC : coversb valuesAC baseline_ac_symbols = true.

Lemma baseline_code_fits t :
  baseline_token t ->
  fits (code_of (stbiw__jpg_buildHuffmanTable nrDC valuesDC hDC)
                (stbiw__jpg_buildHuffmanTable nrAC valuesAC hAC) t).
Proof.
  destruct t as [c | s | b]; cbn [baseline_token code_of]; intros H.
  - apply (coversb_In _ _ _ coverDC) in H.
    destruct (table_entry_fits nrDC valuesDC wfDC hDC c H). unfold fits. lia.
  - apply (coversb_In _ _ _ coverAC) in H.
    destruct (table_entry_fits nrAC valuesAC wfAC hAC s H). unfold fits. lia.
  - assumption.
Qed.

(** X7.  With tables built from well-formed specifications that list the
    baseline symbols, a block of 64 coefficients with AC values below
    1024 and a DC difference below 2048 in magnitude adds to the sink the
    byte-stuffed bytes of its Huffman codes and magnitude bits, in token
    order and most significant bit first, behind the bits that were
    pending; fewer than 8 bits stay pending. *)
Theorem processDU_packs DU w DC :
  List.length DU = 64%nat -> aligned w ->
  Z.abs (DUat DU 0 - DC) < 2048 ->
  Forall (fun v => Z.abs v < 1024) (tl DU) ->
  let HTDC := stbiw__jpg_buildHuffmanTable nrDC valuesDC hDC in
  let HTAC := stbiw__jpg_buildHuffmanTable nrAC valuesAC hAC in
  let calls :=
    map (code_of HTDC HTAC) (dc_spec (DUat DU 0 - DC) ++ ac_spec 0 (tl DU)) in
  let w' := fst (stbiw__jpg_processDU stbiw__jpg_writeBits HTDC HTAC DU w DC) in
  exists raw,
    out w' = out w ++ stuff raw
    /\ Forall (fun c => 0 <= c < 256) raw
    /\ 8 * Z.of_nat (List.length raw) + bitCnt w' = bitCnt w + bits_length calls
    /\ aligned w'
    /\ be_value 0 raw * 2 ^ bitCnt w' + pending w' = bits_value (pending w) calls.
Proof.
  intros Hlen Ha Hd Hac. cbv zeta.
  destruct DU as [|d0 ac]; [discriminate|]. cbn [tl List.length] in *.
  set (HTDC := stbiw__jpg_buildHuffmanTable nrDC valuesDC hDC).
  set (HTAC := stbiw__jpg_buildHuffmanTable nrAC valuesAC hAC).
  assert (fst (stbiw__jpg_processDU stbiw__jpg_writeBits HTDC HTAC (d0 :: ac) w DC)
          = fold_left stbiw__jpg_writeBits
              (map (code_of HTDC HTAC)
                   (dc_spec (DUat (d0 :: ac) 0 - DC) ++ ac_spec 0 ac)) w) as ->.
  { unfold stbiw__jpg_processDU. cbn [fst].
    rewrite (encode_AC_spec _ HTDC HTAC) by lia.
    rewrite (encode_DC_spec _ HTDC HTAC) by lia.
    rewrite map_app, fold_left_app. reflexivity. }
  apply fold_writeBits_packs; [assumption|].
  apply Forall_map. eapply Forall_impl; [intros t; apply baseline_code_fits|].
  apply Forall_app. split.
  - apply dc_spec_baseline. assumption.
  - apply ac_spec_baseline. assumption.
Qed.
End BlockBytes.

Lemma processDU_packs_witness :
  exists raw,
    out (fst (stbiw__jpg_processDU stbiw__jpg_writeBits
                (stbiw__jpg_buildHuffmanTable
                   stbiw__jpg_std_dc_luminance_nrcodes
                   stbiw__jpg_std_dc_luminance_values (fun _ => (0, 0)))
                (stbiw__jpg_buildHuffmanTable
                   stbiw__jpg_std_ac_luminance_nrcodes
                   stbiw__jpg_std_ac_luminance_values (fun _ => (0, 0)))
                Samples.block (mkWriter 0 0 []) 0))
    = [] ++ stuff raw.
Proof.
  assert (well_formedb stbiw__jpg_std_dc_luminance_nrcodes
                       stbiw__jpg_std_dc_luminance_values = true) as HwDC
      by (vm_compute; reflexivity).
  assert (well_formedb stbiw__jpg_std_ac_luminance_nrcodes
                       stbiw__jpg_std_ac_luminance_values = true) as HwAC
      by (vm_compute; reflexivity).
  assert (coversb stbiw__jpg_std_dc_luminance_values baseline_dc_symbols
          = true) as HcDC by (vm_compute; reflexivity).
  assert (coversb stbiw__jpg_std_ac_luminance_values baseline_ac_symbols
          = true) as HcAC by (vm_compute; reflexivity).
  assert (List.length Samples.block = 64%nat) as Hlen by reflexivity.
  assert (aligned (mkWriter 0 0 [])) as Ha
      by (unfold aligned; cbn; split; [lia|reflexivity]).
  assert (Z.abs (DUat Samples.block 0 - 0) < 2048) as Hd by (cbn; lia).
  assert (Forall (fun v => Z.abs v < 1024) (tl Samples.block)) as Hac
      by (repeat constructor; cbn; lia).
  destruct (processDU_packs _ _ _ _ (fun _ => (0, 0)) (fun _ => (0, 0))
              HwDC HwAC HcDC HcAC Samples.block (mkWriter 0 0 []) 0
              Hlen Ha Hd Hac) as [raw [Ho _]].
  exists raw. exact Ho.
Defined.

(** ** Edges of the stream assembler *)

Lemma for_loop_empty start limit step : limit <= start -> for_loop start limit step = [].
Proof.
  intros H. unfold for_loop. replace (Z.to_nat (limit - start)) with 0%nat by lia.
  reflexivity.
Qed.

Lemma mcu_origins_empty width height subsample :
  width <= 0 \/ height <= 0 -> mcu_origins width height subsample = [].
Proof.
  intros H. unfold mcu_origins.
  destruct (Z.le_gt_cases height 0) as [Hh | Hh].
  - rewrite (for_loop_empty 0 height) by lia. reflexivity.
  - rewrite (for_loop_empty 0 width) by lia.
    induction (for_loop 0 height (mcu_size subsample)); [reflexivity|assumption].
Qed.

Section EncoderEdges.
Variables YDC0 UDC0 YAC0 UAC0 : htable.
Variable quantized : Z -> Z -> nat -> list Z.

Lemma writer_start_fill hdr :
  out (stbiw__jpg_writeBits (mkWriter 0 0 hdr) fillBits) = hdr.
Proof. reflexivity. Qed.


End EncoderEdges.

(** X10.  Bytes 159..162 of the stream hold the height and the width,
    each as two bytes, high byte first, and modulo 65536: a side of 65536
    or more is recorded without its high bits. *)
Theorem frame_header_dimensions width height subsample :
  let hdr := headers width height subsample in
  nth 159 hdr 0 * 256 + nth 160 hdr 0 = height mod 65536
  /\ nth 161 hdr 0 * 256 + nth 162 hdr 0 = width mod 65536.
Proof.
  cbv zeta.
  assert (nth 159 (headers width height subsample) 0 = u8 (Z.shiftr height 8)
          /\ nth 160 (headers width height subsample) 0 = u8 (Z.land height 255)
          /\ nth 161 (headers width height subsample) 0 = u8 (Z.shiftr width 8)
          /\ nth 162 (headers width height subsample) 0 = u8 (Z.land width 255))
    as [-> [-> [-> ->]]]
      by (unfold headers; vm_compute; repeat split; reflexivity).
  unfold u8. change 255 with (Z.ones 8).
  rewrite !Z.land_ones, !Z.shiftr_div_pow2 by lia. change (2 ^ 8) with 256.
  split; Z.to_euclidean_division_equations; lia.
Qed.


Lemma scale_of_monotone q1 q2 :
  1 <= q1 <= q2 -> 0 <= scale_of q2 <= scale_of q1.
Proof.
  intros Hq.
  assert (forall q, 1 <= q ->
            scale_of q = (if q <? 50 then 5000 ÷ q
                          else if 100 <? q then 0 else 200 - q * 2)) as Hscale.
  { intros q H1. unfold scale_of, quality_setup. cbn [snd].
    replace (q =? 0) with false by (symmetry; apply Z.eqb_neq; lia).
    replace (q <? 1) with false by (symmetry; apply Z.ltb_ge; lia).
    destruct (100 <? q) eqn:E.
    - apply Z.ltb_lt in E.
      replace (q <? 50) with false by (symmetry; apply Z.ltb_ge; lia).
      reflexivity.
    - reflexivity. }
  rewrite !Hscale by lia.
  assert (forall a b, 1 <= a <= b -> b < 50 -> 0 <= 5000 ÷ b <= 5000 ÷ a) as Hquot.
  { intros a b Hab Hb. split; [apply Z.quot_pos; lia|].
    apply Z.quot_le_compat_l; lia. }
  assert (forall a, 1 <= a < 50 -> 102 <= 5000 ÷ a) as Hlow.
  { intros a Ha. change 102 with (5000 ÷ 49). apply Z.quot_le_compat_l; lia. }
  destruct (q1 <? 50) eqn:F1; destruct (q2 <? 50) eqn:F2;
    [apply Z.ltb_lt in F1 | apply Z.ltb_lt in F1
     | apply Z.ltb_ge in F1 | apply Z.ltb_ge in F1];
    [apply Z.ltb_lt in F2 | apply Z.ltb_ge in F2
     | apply Z.ltb_lt in F2 | apply Z.ltb_ge in F2]; try lia.
  - apply Hquot; lia.
  - specialize (Hlow q1 ltac:(lia)).
    destruct (100 <? q2) eqn:E2;
      [apply Z.ltb_lt in E2 | apply Z.ltb_ge in E2]; lia.
  - destruct (100 <? q1) eqn:E1; destruct (100 <? q2) eqn:E2;
      [apply Z.ltb_lt in E1 | apply Z.ltb_lt in E1
       | apply Z.ltb_ge in E1 | apply Z.ltb_ge in E1];
      [apply Z.ltb_lt in E2 | apply Z.ltb_ge in E2
       | apply Z.ltb_lt in E2 | apply Z.ltb_ge in E2]; lia.
Qed.

Lemma divisor_monotone QT s1 s2 i :
  0 <= at_ QT i -> 0 <= s2 <= s1 -> divisor QT s2 i <= divisor QT s1 i.
Proof.
  intros Ha Hs. unfold divisor.
  assert ((at_ QT i * s2 + 50) ÷ 100 <= (at_ QT i * s1 + 50) ÷ 100) as Hle
      by (apply Z.quot_le_mono; nia).
  repeat match goal with
         | |- context [?a <? ?b] =>
             let E := fresh "E" in
             destruct (a <? b) eqn:E;
             [apply Z.ltb_lt in E | apply Z.ltb_ge in E]
         end; lia.
Qed.

(** X12.  A higher quality never gives a larger divisor: from quality 1
    on, every luminance and chrominance divisor falls or stays as the
    quality grows. *)
Theorem divisors_fall_with_quality q1 q2 i :
  1 <= q1 <= q2 ->
  yti q2 i <= yti q1 i /\ uvti q2 i <= uvti q1 i.
Proof.
  intros Hq. pose proof (scale_of_monotone q1 q2 Hq) as Hs.
  unfold yti, uvti. split; apply divisor_monotone;
    auto using YQT_nonneg, UVQT_nonneg.
Qed.


Lemma divisors_fall_with_quality_witness :
  1 <= 10 <= 90 /\ yti 90 0 <= yti 10 0 /\ uvti 90 0 <= uvti 10 0.
Proof.
  assert (1 <= 10 <= 90) as H by lia.
  split; [exact H|]. exact (divisors_fall_with_quality 10 90 0 H).
Defined.

(** ** Transport coding, decoder side *)

Lemma decodeTable_pad : decodeTable (code "="%char) = -1.
Proof. vm_compute. reflexivity. Qed.

(** A character the table does not know ends the decoding. *)
Lemma decode_loop_cut s1 : forall c s2 val valb res,
  decodeTable (code c) = -1 ->
  decode_loop (String.append s1 (String c s2)) val valb res
  = decode_loop s1 val valb res.
Proof.
  induction s1 as [|c1 s1 IH]; intros c s2 val valb res Hc.
  - cbn [String.append decode_loop]. rewrite Hc. reflexivity.
  - cbn [String.append decode_loop].
    destruct (decodeTable (code c1) =? -1); [reflexivity|].
    destruct (0 <=? valb + 6); apply IH; assumption.
Qed.

(** X15.  The decoder stops at the first character outside the 64
    characters of the table, whatever follows it: padding, white space or
    more text. *)
Theorem base64Decode_stops_at_unknown :
  forall s1 c s2,
    decodeTable (code c) = -1 ->
    base64Decode (String.append s1 (String c s2)) = base64Decode s1.
Proof.
  intros s1 c s2 Hc. destruct s1 as [|c1 s1].
  - cbn [String.append base64Decode decode_loop]. rewrite Hc. reflexivity.
  - change (String.append (String c1 s1) (String c s2))
      with (String c1 (String.append s1 (String c s2))).
    unfold base64Decode.
    apply (decode_loop_cut (String c1 s1) c s2 0 (-8) [] Hc).
Qed.

Lemma base64Decode_stops_at_unknown_witness :
  decodeTable (code "="%char) = -1
  /\ base64Decode (String.append "TWE" (String "="%char "TWFu")) = base64Decode "TWE".
Proof.
  split; [exact decodeTable_pad|].
  exact (base64Decode_stops_at_unknown "TWE" "="%char "TWFu" decodeTable_pad).
Defined.

Lemma std_triple a b c :
  0 <= a < 256 -> 0 <= b < 256 -> 0 <= c < 256 ->
  Z.shiftl a 16 + Z.shiftl b 8 + c = a * 65536 + b * 256 + c.
Proof. intros. rewrite !Z.shiftl_mul_pow2 by lia. reflexivity. Qed.

Lemma decode_std_one a val res :
  0 <= a < 256 ->
  decode_loop (base64_std [a]) val (-8) res = res ++ [a].
Proof.
  intros Ha. cbn [base64_std]. unfold sextet.
  replace (Z.shiftl a 16) with (a * 65536 + 0 * 256 + 0)
    by (rewrite Z.shiftl_mul_pow2 by lia; change (2 ^ 16) with 65536; lia).
  destruct (sextets_of_triple a 0 0 Ha ltac:(lia) ltac:(lia)) as [E0 [E1 _]].
  cbv zeta in *. set (t := a * 65536 + 0 * 256 + 0) in *.
  pose proof (sextet_range t 18) as R0. pose proof (sextet_range t 12) as R1.
  rewrite (decode_step_skip _ _ val (-8) res _ (-2)
             (decodeTable_char_at _ R0) R0 eq_refl eq_refl).
  rewrite (decode_step_out _ _ _ (-2) res _ 4 (-4)
             (decodeTable_char_at _ R1) R1 eq_refl ltac:(lia) eq_refl).
  cbn [decode_loop]. rewrite decodeTable_pad. cbn [Z.eqb].
  destruct (bytes_of_sextets val _ _ 0 0 R0 R1 ltac:(lia) ltac:(lia))
    as [B1 _].
  cbv zeta in B1. rewrite B1, E0, E1.
  replace ((a / 4 * 4 + (a mod 4 * 16 + 0 / 16) / 16) mod 256) with a
    by (Z.to_euclidean_division_equations; lia).
  reflexivity.
Qed.

Lemma decode_std_two a b val res :
  0 <= a < 256 -> 0 <= b < 256 ->
  decode_loop (base64_std [a; b]) val (-8) res = res ++ [a; b].
Proof.
  intros Ha Hb. cbn [base64_std]. unfold sextet.
  replace (Z.shiftl a 16 + Z.shiftl b 8) with (a * 65536 + b * 256 + 0)
    by (rewrite !Z.shiftl_mul_pow2 by lia; change (2 ^ 16) with 65536;
        change (2 ^ 8) with 256; lia).
  destruct (sextets_of_triple a b 0 Ha Hb ltac:(lia)) as [E0 [E1 [E2 _]]].
  cbv zeta in *. set (t := a * 65536 + b * 256 + 0) in *.
  pose proof (sextet_range t 18) as R0. pose proof (sextet_range t 12) as R1.
  pose proof (sextet_range t 6) as R2.
  rewrite (decode_step_skip _ _ val (-8) res _ (-2)
             (decodeTable_char_at _ R0) R0 eq_refl eq_refl).
  rewrite (decode_step_out _ _ _ (-2) res _ 4 (-4)
             (decodeTable_char_at _ R1) R1 eq_refl ltac:(lia) eq_refl).
  rewrite (decode_step_out _ _ _ (-4) _ _ 2 (-6)
             (decodeTable_char_at _ R2) R2 eq_refl ltac:(lia) eq_refl).
  cbn [decode_loop]. rewrite decodeTable_pad. cbn [Z.eqb].
  destruct (bytes_of_sextets val _ _ _ 0 R0 R1 R2 ltac:(lia)) as [B1 [B2 _]].
  cbv zeta in B1, B2. rewrite B1, B2, E0, E1, E2.
  replace ((a / 4 * 4 + (a mod 4 * 16 + b / 16) / 16) mod 256) with a
    by (Z.to_euclidean_division_equations; lia).
  replace ((a mod 4 * 16 + b / 16) mod 16 * 16 + (b mod 16 * 4 + 0 / 64) / 4)
    with b by (Z.to_euclidean_division_equations; lia).
  rewrite <- app_assoc. reflexivity.
Qed.

Lemma base64_std_group a b c rest :
  0 <= a < 256 -> 0 <= b < 256 -> 0 <= c < 256 ->
  base64_std (a :: b :: c :: rest)
  = String.append (group a b c) (base64_std rest).
Proof.
  intros Ha Hb Hc. cbn [base64_std]. unfold group, sextet.
  rewrite Z.shiftr_0_r, std_triple by assumption. reflexivity.
Qed.

Lemma decode_std n : forall data val res,
  (List.length data <= n)%nat -> Forall (fun b => 0 <= b < 256) data ->
  decode_loop (base64_std data) val (-8) res = res ++ data.
Proof.
  induction n as [|n IH]; intros data val res Hn Hb.
  - destruct data; [|cbn [List.length] in Hn; lia].
    cbn. rewrite app_nil_r. reflexivity.
  - destruct data as [|a [|b [|c rest]]].
    + cbn. rewrite app_nil_r. reflexivity.
    + pose proof (Forall_inv Hb) as Ha. cbv beta in Ha.
      apply decode_std_one. assumption.
    + pose proof (Forall_inv Hb) as Ha.
      pose proof (Forall_inv (Forall_inv_tail Hb)) as Hb0. cbv beta in Ha, Hb0.
      apply decode_std_two; assumption.
    + pose proof (Forall_inv Hb) as Ha.
      pose proof (Forall_inv (Forall_inv_tail Hb)) as Hb0.
      pose proof (Forall_inv (Forall_inv_tail (Forall_inv_tail Hb))) as Hc0.
      pose proof (Forall_inv_tail (Forall_inv_tail (Forall_inv_tail Hb)))
        as Hrest.
      cbv beta in Ha, Hb0, Hc0.
      rewrite base64_std_group by assumption.
      destruct (decode_group a b c (base64_std rest) val res) as [v' ->];
        try assumption.
      rewrite IH; [|cbn [List.length] in Hn; lia|assumption].
      rewrite <- app_assoc. reflexivity.
Qed.

(** X14.  The decoder inverts padded base64: it gives back every byte
    sequence from its standard text with ['='] padding. *)
Theorem base64Decode_inverts_padded :
  forall data,
    Forall (fun b => 0 <= b < 256) data ->
    base64Decode (base64_std data) = data.
Proof.
  intros data Hb. unfold base64Decode.
  destruct (base64_std data) eqn:E.
  - destruct data as [|a [|b [|c rest]]]; [reflexivity|discriminate..].
  - rewrite <- E. apply (decode_std (List.length data)); [lia|assumption].
Qed.

Lemma base64Decode_inverts_padded_witness :
  Forall (fun b => 0 <= b < 256) [77; 97]
  /\ base64Decode (base64_std [77; 97]) = [77; 97].
Proof.
  assert (Forall (fun b => 0 <= b < 256) [77; 97]) as H
      by (repeat constructor; lia).
  split; [exact H|]. exact (base64Decode_inverts_padded [77; 97] H).
Defined.

Lemma char_at_not_pad k : 0 <= k < 64 -> char_at k <> "="%char.
Proof.
  intros Hk E. pose proof (decodeTable_char_at k Hk) as H.
  rewrite E, decodeTable_pad in H. lia.
Qed.

Lemma groups_shape n : forall data,
  (List.length data <= n)%nat ->
  String.length (groups data) = (4 * ((List.length data + 2) / 3))%nat
  /\ Forall (fun c => exists k, 0 <= k < 64 /\ c = char_at k)
            (list_ascii_of_string (groups data)).
Proof.
  assert (forall t s, exists k, 0 <= k < 64 /\ sextet t s = char_at k) as Hsx
      by (intros t s; eexists; split; [apply sextet_range|reflexivity]).
  assert (forall t, exists k, 0 <= k < 64 /\ char_at (Z.land t 63) = char_at k)
    as Hlow.
  { intros t. exists (Z.land t 63). split; [|reflexivity].
    rewrite <- (Z.shiftr_0_r t). apply sextet_range. }
  induction n as [|n IH]; intros data Hn.
  - destruct data; [|cbn [List.length] in Hn; lia]. cbn. auto.
  - destruct data as [|a [|b [|c rest]]].
    + cbn. auto.
    + cbn [groups group String.length list_ascii_of_string List.length].
      split; [reflexivity|]. repeat constructor; auto.
    + cbn [groups group String.length list_ascii_of_string List.length].
      split; [reflexivity|]. repeat constructor; auto.
    + cbn [List.length] in Hn. destruct (IH rest ltac:(lia)) as [Hl Hc].
      cbn [groups group String.append String.length list_ascii_of_string
           List.length].
      split.
      * rewrite Hl.
        replace (S (S (S (List.length rest))) + 2)%nat
          with (List.length rest + 2 + 1 * 3)%nat by lia.
        rewrite Nat.div_add by lia. lia.
      * repeat (constructor; [auto|]). assumption.
Qed.

(** X13.  The text of [n] bytes has [4 * ceil(n / 3)] characters, the
    size the function reserves, all of them from the 64 characters of the
    table: no ['='] is ever written. *)
Theorem base64Encode_length_alphabet :
  forall data,
    Forall (fun b => 0 <= b < 256) data ->
    String.length (base64Encode data) = (4 * ((List.length data + 2) / 3))%nat
    /\ Forall (fun c => exists k, 0 <= k < 64 /\ c = char_at k)
              (list_ascii_of_string (base64Encode data))
    /\ ~ In "="%char (list_ascii_of_string (base64Encode data)).
Proof.
  intros data Hb. rewrite base64Encode_groups by assumption.
  destruct (groups_shape (List.length data) data (le_n _)) as [Hl Hc].
  split; [assumption|]. split; [assumption|].
  intros Hin. rewrite Forall_forall in Hc.
  destruct (Hc _ Hin) as [k [Hk E]]. symmetry in E.
  exact (char_at_not_pad k Hk E).
Qed.

Lemma base64Encode_length_alphabet_witness :
  Forall (fun b => 0 <= b < 256) [77]
  /\ String.length (base64Encode [77]) = (4 * ((List.length [77] + 2) / 3))%nat.
Proof.
  assert (Forall (fun b => 0 <= b < 256) [77]) as H by (repeat constructor; lia).
  split; [exact H|]. exact (proj1 (base64Encode_length_alphabet [77] H)).
Defined.

(** Decoding the encoder's text, for every byte sequence. *)
Lemma decode_encode_zero_fill data :
  Forall (fun b => 0 <= b < 256) data ->
  base64Decode (base64Encode data) = zero_fill data.
Proof.
  intros Hb. rewrite base64Encode_groups by assumption.
  unfold base64Decode. destruct (groups data) eqn:Eg.
  - destruct data as [|a [|b [|c rest]]]; [reflexivity|discriminate..].
  - rewrite <- Eg. apply (decode_groups (List.length data)); [lia|assumption].
Qed.

Lemma base64_roundtrip_zero_fill_witness :
  Forall (fun b => 0 <= b < 256) [77; 97]
  /\ base64Decode (base64Encode [77; 97]) = zero_fill [77; 97].
Proof.
  assert (Forall (fun b => 0 <= b < 256) [77; 97]) as H
      by (repeat constructor; lia).
  split; [exact H|]. exact (proj1 (base64_roundtrip_zero_fill [77; 97] H)).
Defined.

(** ** Downscaling *)

Lemma for_loop_unit n :
  for_loop 0 n 1 = map Z.of_nat (seq 0 (Z.to_nat n)).
Proof.
  rewrite for_loop_steps by lia.
  replace ((n + 1 - 1) / 1) with n by (rewrite Z.div_1_r; lia).
  apply map_ext. intros k. lia.
Qed.

Lemma upd_middle (pre : list Z) a rest x :
  upd (pre ++ a :: rest) (List.length pre) x = pre ++ x :: rest.
Proof.
  induction pre as [|p pre IH]; cbn [app List.length upd]; [reflexivity|].
  rewrite IH. reflexivity.
Qed.

Lemma store_at_middle (pre : list Z) a rest i x :
  i = Z.of_nat (List.length pre) ->
  store_at (pre ++ a :: rest) i x = pre ++ x :: rest.
Proof.
  intros ->. unfold store_at.
  replace (_ <? 0) with false by (symmetry; apply Z.ltb_ge; lia).
  rewrite Nat2Z.id. apply upd_middle.
Qed.

Section DownscaleProofs.
Variable scaled : Z -> Z -> Z -> Z.
Variable srcPixels : list Z.
Variables srcWidth srcHeight srcStride dstWidth dstHeight : Z.

Lemma copy_pixel_fills pre rest y x :
  int32 (int32 (int32 (y * dstWidth) + x) * 3) = Z.of_nat (List.length pre) ->
  copy_pixel scaled srcPixels srcWidth srcHeight srcStride dstWidth dstHeight
             y (pre ++ 0 :: 0 :: 0 :: rest) x
  = (pre ++ rgb_at scaled srcPixels srcWidth srcHeight srcStride dstWidth dstHeight y x) ++ rest.
Proof.
  intros Hd. unfold copy_pixel, rgb_at. cbv zeta.
  set (s := srcPixel scaled srcWidth srcHeight srcStride dstWidth dstHeight y x).
  rewrite Hd. rewrite (store_at_middle pre) by reflexivity.
  replace (pre ++ byte_at srcPixels s :: 0 :: 0 :: rest)
    with ((pre ++ [byte_at srcPixels s]) ++ 0 :: 0 :: rest)
    by (rewrite <- app_assoc; reflexivity).
  rewrite (store_at_middle (pre ++ [_]))
    by (rewrite length_app; cbn [List.length]; lia).
  replace ((pre ++ [byte_at srcPixels s]) ++ byte_at srcPixels (s + 1) :: 0 :: rest)
    with ((pre ++ [byte_at srcPixels s; byte_at srcPixels (s + 1)]) ++ 0 :: rest)
    by (rewrite <- !app_assoc; reflexivity).
  rewrite (store_at_middle (pre ++ [_; _]))
    by (rewrite length_app; cbn [List.length]; lia).
  rewrite <- !app_assoc. reflexivity.
Qed.

Lemma row_fills y m : forall x0 pre rest,
  dstWidth * dstHeight * 3 < 2 ^ 31 -> 0 <= y < dstHeight ->
  Z.of_nat (x0 + m) <= dstWidth ->
  (y * dstWidth + Z.of_nat x0) * 3 = Z.of_nat (List.length pre) ->
  fold_left (copy_pixel scaled srcPixels srcWidth srcHeight srcStride
                        dstWidth dstHeight y)
            (map Z.of_nat (seq x0 m)) (pre ++ repeat 0 (3 * m) ++ rest)
  = pre ++ flat_map (rgb_at scaled srcPixels srcWidth srcHeight srcStride dstWidth dstHeight y) (map Z.of_nat (seq x0 m)) ++ rest.
Proof.
  induction m as [|m IH]; intros x0 pre rest Hsize Hy Hx Hd; [reflexivity|].
  replace (3 * S m)%nat with (S (S (S (3 * m)))) by lia.
  cbn [seq map fold_left flat_map repeat app].
  assert (0 <= y * dstWidth <= (dstHeight - 1) * dstWidth) as Hrow by nia.
  assert (y * dstWidth + Z.of_nat x0 <= dstWidth * dstHeight - 1) as Hpix
      by nia.
  rewrite copy_pixel_fills
    by (rewrite (int32_small (y * dstWidth)) by lia;
        rewrite (int32_small (y * dstWidth + Z.of_nat x0)) by lia;
        rewrite int32_small by lia; assumption).
  rewrite (IH (S x0) (pre ++ rgb_at scaled srcPixels srcWidth srcHeight srcStride dstWidth dstHeight y (Z.of_nat x0)) rest).
  - rewrite <- !app_assoc. reflexivity.
  - assumption.
  - assumption.
  - lia.
  - rewrite length_app. unfold rgb_at. cbn [List.length]. lia.
Qed.

Lemma rows_fill (W : nat) h : forall y0 pre rest,
  dstWidth = Z.of_nat W ->
  dstWidth * dstHeight * 3 < 2 ^ 31 -> Z.of_nat (y0 + h) <= dstHeight ->
  Z.of_nat y0 * dstWidth * 3 = Z.of_nat (List.length pre) ->
  fold_left
    (fun dst y =>
       fold_left (copy_pixel scaled srcPixels srcWidth srcHeight srcStride
                             dstWidth dstHeight y)
                 (map Z.of_nat (seq 0 W)) dst)
    (map Z.of_nat (seq y0 h)) (pre ++ repeat 0 (h * (3 * W)) ++ rest)
  = pre ++ flat_map (fun y => flat_map (rgb_at scaled srcPixels srcWidth srcHeight srcStride dstWidth dstHeight y) (map Z.of_nat (seq 0 W)))
                    (map Z.of_nat (seq y0 h)) ++ rest.
Proof.
  induction h as [|h IH]; intros y0 pre rest HW Hsize Hy Hd; [reflexivity|].
  cbn [seq map fold_left flat_map Nat.mul].
  rewrite repeat_app, <- app_assoc.
  rewrite row_fills by lia.
  rewrite app_assoc.
  rewrite (IH (S y0) _ rest HW).
  - rewrite <- !app_assoc. reflexivity.
  - assumption.
  - lia.
  - rewrite length_app.
    rewrite (flat_map_const_length _ 3%nat) by reflexivity.
    rewrite length_map, length_seq. lia.
Qed.

Lemma downscaleRGBA_pixels :
  0 <= dstWidth -> 0 <= dstHeight -> dstWidth * dstHeight * 3 < 2 ^ 31 ->
  downscaleRGBA scaled srcPixels srcWidth srcHeight srcStride dstWidth dstHeight
  = Some (flat_map (fun y => flat_map (rgb_at scaled srcPixels srcWidth srcHeight srcStride dstWidth dstHeight y)
                                (map Z.of_nat (seq 0 (Z.to_nat dstWidth))))
                   (map Z.of_nat (seq 0 (Z.to_nat dstHeight)))).
Proof.
  intros Hw Hh Hsize. unfold downscaleRGBA. cbv zeta.
  assert (0 <= dstWidth * dstHeight <= dstWidth * dstHeight * 3) as Hprod
      by nia.
  rewrite (int32_small (dstWidth * dstHeight)) by lia.
  rewrite int32_small by lia.
  replace (_ <? 0) with false by (symmetry; apply Z.ltb_ge; nia).
  f_equal. rewrite !for_loop_unit.
  replace (Z.to_nat (dstWidth * dstHeight * 3))
    with (Z.to_nat dstHeight * (3 * Z.to_nat dstWidth))%nat by nia.
  pose proof (rows_fill (Z.to_nat dstWidth) (Z.to_nat dstHeight) 0 [] []
                ltac:(lia) Hsize ltac:(lia)
                ltac:(cbn [List.length]; lia)) as H.
  cbn [app] in H. rewrite !app_nil_r in H. exact H.
Qed.

(** X17.  For a target whose byte count [dstWidth * dstHeight * 3] fits
    an [int], the result has that many bytes, and the three bytes of
    every target pixel are the first three bytes (red, green, blue) of
    the source pixel that the two clamped indices select; the alpha byte
    is left out. *)
Theorem downscaleRGBA_copies_rgb x y k :
  dstWidth * dstHeight * 3 < 2 ^ 31 ->
  0 <= x < dstWidth -> 0 <= y < dstHeight -> 0 <= k < 3 ->
  exists dst,
    downscaleRGBA scaled srcPixels srcWidth srcHeight srcStride
                  dstWidth dstHeight = Some dst
    /\ Z.of_nat (List.length dst) = dstWidth * dstHeight * 3
    /\ byte_at dst ((y * dstWidth + x) * 3 + k)
       = byte_at srcPixels
           (srcPixel scaled srcWidth srcHeight srcStride dstWidth dstHeight y x
            + k).
Proof.
  intros Hsize Hx Hy Hk.
  eexists. split; [apply downscaleRGBA_pixels; lia|].
  assert (forall yy, List.length
            (flat_map (rgb_at scaled srcPixels srcWidth srcHeight srcStride dstWidth dstHeight yy) (map Z.of_nat (seq 0 (Z.to_nat dstWidth))))
          = (Z.to_nat dstWidth * 3)%nat) as Hrow.
  { intros yy. rewrite (flat_map_const_length _ 3%nat) by reflexivity.
    rewrite length_map, length_seq. reflexivity. }
  split.
  - rewrite (flat_map_const_length _ _ _ Hrow), length_map, length_seq. nia.
  - unfold byte_at at 1.
    replace (Z.to_nat ((y * dstWidth + x) * 3 + k))
      with (Z.to_nat y * (Z.to_nat dstWidth * 3)
            + (Z.to_nat x * 3 + Z.to_nat k))%nat by nia.
    rewrite (nth_flat_map_const _ _ 0 _ _ _ Hrow)
      by (rewrite ?length_map, ?length_seq; nia).
    rewrite (nth_flat_map_const _ 3%nat 0)
      by (try reflexivity; rewrite ?length_map, ?length_seq; lia).
    rewrite !(map_nth Z.of_nat _ 0%nat), !seq_nth by lia.
    cbn [Nat.add]. rewrite !Z2Nat.id by lia.
    unfold rgb_at. cbv zeta.
    assert (k = 0 \/ k = 1 \/ k = 2) as [-> | [-> | ->]] by lia;
      cbn [Z.to_nat Pos.to_nat Pos.iter_op Nat.add nth];
      rewrite ?Z.add_0_r; reflexivity.
Qed.

(** X18.  When the scaled indices are not negative and a row holds at
    least [srcWidth] pixels of 4 bytes, the three source bytes read for a
    target pixel lie inside a bitmap of [srcHeight] rows of [srcStride]
    bytes. *)
Theorem srcPixel_in_bounds x y :
  1 <= srcWidth -> 1 <= srcHeight -> srcWidth * 4 <= srcStride ->
  0 <= scaled srcWidth dstWidth x -> 0 <= scaled srcHeight dstHeight y ->
  let s := srcPixel scaled srcWidth srcHeight srcStride dstWidth dstHeight y x in
  0 <= s /\ s + 2 < srcHeight * srcStride.
Proof.
  intros Hw Hh Hs Hx Hy. cbv zeta. unfold srcPixel. cbv zeta.
  set (sx := Z.min (scaled srcWidth dstWidth x) (srcWidth - 1)).
  set (sy := Z.min (scaled srcHeight dstHeight y) (srcHeight - 1)).
  assert (0 <= sx <= srcWidth - 1) by (unfold sx; lia).
  assert (0 <= sy <= srcHeight - 1) by (unfold sy; lia).
  split; [nia|].
  assert (sy * srcStride <= (srcHeight - 1) * srcStride) by nia.
  lia.
Qed.
End DownscaleProofs.

Lemma downscaleRGBA_copies_rgb_witness :
  1 * 1 * 3 < 2 ^ 31 /\ 0 <= 0 < 1 /\ 0 <= 1 < 3
  /\ exists dst,
       downscaleRGBA (fun s d n => n * s / d)
                     [1; 2; 3; 4; 5; 6; 7; 8; 9; 10; 11; 12; 13; 14; 15; 16]
                     2 2 8 1 1 = Some dst
       /\ Z.of_nat (List.length dst) = 1 * 1 * 3
       /\ byte_at dst ((0 * 1 + 0) * 3 + 1)
          = byte_at [1; 2; 3; 4; 5; 6; 7; 8; 9; 10; 11; 12; 13; 14; 15; 16]
                    (srcPixel (fun s d n => n * s / d) 2 2 8 1 1 0 0 + 1).
Proof.
  assert (1 * 1 * 3 < 2 ^ 31) as Hs by (cbn; lia).
  assert (0 <= 0 < 1) as H0 by lia.
  assert (0 <= 1 < 3) as H1 by lia.
  split; [exact Hs|]. split; [exact H0|]. split; [exact H1|].
  exact (downscaleRGBA_copies_rgb (fun s d n => n * s / d)
           [1; 2; 3; 4; 5; 6; 7; 8; 9; 10; 11; 12; 13; 14; 15; 16]
           2 2 8 1 1 0 0 1 Hs H0 H0 H1).
Defined.

Lemma srcPixel_in_bounds_witness :
  0 <= srcPixel (fun s d n => n * s / d) 4 4 16 2 2 1 1
  /\ srcPixel (fun s d n => n * s / d) 4 4 16 2 2 1 1 + 2 < 4 * 16.
Proof.
  exact (srcPixel_in_bounds (fun s d n => n * s / d) 4 4 16 2 2 1 1
           ltac:(lia) ltac:(lia) ltac:(lia)
           ltac:(cbn; lia) ltac:(cbn; lia)).
Defined.

(** ** The pipeline *)

Lemma upd_length l : forall i x, List.length (upd l i x) = List.length l.
Proof.
  induction l as [|a l IH]; intros [|i] x; cbn [upd List.length];
    try reflexivity. rewrite IH. reflexivity.
Qed.

Lemma store_at_length v i x : List.length (store_at v i x) = List.length v.
Proof. unfold store_at. destruct (i <? 0); [reflexivity|apply upd_length]. Qed.

Lemma fold_left_length {A} (f : list Z -> A -> list Z) l :
  (forall v a, List.length (f v a) = List.length v) ->
  forall v, List.length (fold_left f l v) = List.length v.
Proof.
  intros Hf. induction l as [|a l IH]; intros v; [reflexivity|].
  cbn [fold_left]. rewrite IH. apply Hf.
Qed.

Lemma downscaleRGBA_length scaled src sw sh ss dw dh dst :
  downscaleRGBA scaled src sw sh ss dw dh = Some dst ->
  0 <= int32 (int32 (dw * dh) * 3)
  /\ Z.of_nat (List.length dst) = int32 (int32 (dw * dh) * 3).
Proof.
  unfold downscaleRGBA. cbv zeta.
  destruct (int32 (int32 (dw * dh) * 3) <? 0) eqn:E; [discriminate|].
  apply Z.ltb_ge in E. intros H. injection H as <-. split; [assumption|].
  rewrite fold_left_length.
  - rewrite repeat_length. lia.
  - intros v y. apply fold_left_length. intros v' x.
    unfold copy_pixel. cbv zeta. rewrite !store_at_length. reflexivity.
Qed.

(** Bytes of the stream. *)
Lemma writeBits_loop_bytes fuel : forall bb n o,
  Forall (fun c => 0 <= c < 256) o ->
  Forall (fun c => 0 <= c < 256) (out (writeBits_loop fuel bb n o)).
Proof.
  induction fuel as [|fuel IH]; intros bb n o Ho; cbn [writeBits_loop];
    [assumption|].
  destruct (8 <=? n); [|assumption]. cbv zeta. apply IH.
  assert (0 <= Z.land (Z.shiftr bb 16) 255 < 256) as Hc.
  { change 255 with (Z.ones 8). rewrite Z.land_ones by lia.
    apply Z.mod_pos_bound. reflexivity. }
  unfold stbiw__putc.
  destruct (_ =? 255); repeat (apply Forall_app; split);
    try assumption; repeat constructor; lia.
Qed.

Lemma writeBits_bytes w b :
  Forall (fun c => 0 <= c < 256) (out w) ->
  Forall (fun c => 0 <= c < 256) (out (stbiw__jpg_writeBits w b)).
Proof. intros H. unfold stbiw__jpg_writeBits. apply writeBits_loop_bytes, H. Qed.

Lemma forallb_bytes l :
  forallb (fun c => (0 <=? c) && (c <? 256)) l = true ->
  Forall (fun c => 0 <= c < 256) l.
Proof.
  intros H. apply Forall_forall. intros c Hc.
  rewrite forallb_forall in H. specialize (H c Hc).
  apply andb_true_iff in H as [H1 H2].
  apply Z.leb_le in H1. apply Z.ltb_lt in H2. lia.
Qed.

Lemma u8_byte z : 0 <= u8 z < 256.
Proof. unfold u8. apply Z.mod_pos_bound. reflexivity. Qed.

Lemma headers_bytes width height subsample :
  Forall (fun c => 0 <= c < 256) (headers width height subsample).
Proof.
  unfold headers.
  repeat (apply Forall_app; split);
    try (apply forallb_bytes; vm_compute; reflexivity).
  unfold head1.
  repeat (constructor; [first [apply u8_byte | lia]|]). constructor.
Qed.

Section StreamBytes.
Variables YDC0 UDC0 YAC0 UAC0 : htable.
Variable quantized : Z -> Z -> nat -> list Z.

Lemma stbi_write_jpg_to_func_bytes data_null width height comp quality :
  Forall (fun c => 0 <= c < 256)
         (snd (stbi_write_jpg_to_func YDC0 UDC0 YAC0 UAC0 quantized
                                      data_null width height comp quality)).
Proof.
  unfold stbi_write_jpg_to_func.
  destruct (_ || _); [constructor|]. cbn [snd].
  apply Forall_app. split; [|repeat constructor; lia].
  apply writeBits_bytes. unfold scan_all.
  apply (scan_inv YDC0 UDC0 YAC0 UAC0 quantized
                  (fun w => Forall (fun c => 0 <= c < 256) (out w))).
  - intros w b. apply writeBits_bytes.
  - cbn [wr out]. apply headers_bytes.
Qed.
End StreamBytes.

Lemma base64Encode_nonempty data :
  Forall (fun b => 0 <= b < 256) data -> data <> [] ->
  base64Encode data <> EmptyString.
Proof.
  intros Hb Hne E. rewrite base64Encode_groups in E by assumption.
  destruct data as [|a [|b [|c rest]]]; [contradiction|discriminate..].
Qed.

Section ProcessorProofs.
Variable scaled : Z -> Z -> Z -> Z.
Variables fit_height fit_width : Z -> Z -> Z -> Z.
Variable empty_data_null : bool.
Variables YDC0 UDC0 YAC0 UAC0 : htable.
Variable quantized : Z -> Z -> nat -> list Z.

(** What the function gives once both JNI calls have succeeded. *)
Lemma processAndEncode_result this info pixels r :
  isLowMemory this = false ->
  let W := fst (target_size fit_height fit_width this info) in
  let H := snd (target_size fit_height fit_width this info) in
  processAndEncode scaled fit_height fit_width empty_data_null
                   YDC0 UDC0 YAC0 UAC0 quantized
                   this false false (Some info) (Some pixels)
  = Some r ->
  r = EmptyString
  \/ (W <> 0 /\ H <> 0
      /\ r = base64Encode
               (snd (stbi_write_jpg_to_func YDC0 UDC0 YAC0 UAC0 quantized
                       false W H 3 (quality_ this)))).
Proof.
  intros Hlow. cbv zeta. unfold processAndEncode. rewrite Hlow. cbn [orb].
  destruct (target_size fit_height fit_width this info) as [W H] eqn:Et.
  cbn [fst snd].
  destruct (downscaleRGBA scaled pixels (info_width info) (info_height info)
                          (info_stride info) W H) as [rgb|]; [|discriminate].
  destruct (int32 (W * H) <? 0); [discriminate|].
  generalize (match rgb with [] => empty_data_null | _ :: _ => false end).
  intros [|].
  { unfold stbi_write_jpg_to_func. cbn [orb Z.eqb]. intros E.
    injection E as <-. left. reflexivity. }
  destruct (Z.eq_dec W 0) as [->|HW].
  { unfold stbi_write_jpg_to_func. cbn [orb Z.eqb]. intros E.
    injection E as <-. left. reflexivity. }
  destruct (Z.eq_dec H 0) as [->|HH].
  { unfold stbi_write_jpg_to_func. cbn [Z.eqb]. rewrite orb_true_r.
    cbn [orb Z.eqb]. intros E. injection E as <-. left. reflexivity. }
  pose proof (accepted YDC0 UDC0 YAC0 UAC0 quantized W H 3 (quality_ this)
                HW HH ltac:(lia)) as Hacc.
  destruct (stbi_write_jpg_to_func YDC0 UDC0 YAC0 UAC0 quantized false W H 3
              (quality_ this)) as [res bytes].
  cbn [fst snd] in *. subst res. cbn [Z.eqb].
  unfold jpeg_write_callback. intros E. injection E as <-.
  right. split; [assumption|]. split; [assumption|]. reflexivity.
Qed.

(** The same when the byte count of the target fits an [int]. *)
Lemma processAndEncode_locked this info pixels :
  isLowMemory this = false ->
  let W := fst (target_size fit_height fit_width this info) in
  let H := snd (target_size fit_height fit_width this info) in
  - 2 ^ 31 <= W * H * 3 < 2 ^ 31 ->
  processAndEncode scaled fit_height fit_width empty_data_null
                   YDC0 UDC0 YAC0 UAC0 quantized
                   this false false (Some info) (Some pixels)
  = if W * H <? 0 then None
    else if (W =? 0) || (H =? 0) then Some EmptyString
    else Some (base64Encode
                 (snd (stbi_write_jpg_to_func YDC0 UDC0 YAC0 UAC0 quantized
                         false W H 3 (quality_ this)))).
Proof.
  intros Hlow. cbv zeta. unfold processAndEncode. rewrite Hlow. cbn [orb].
  destruct (target_size fit_height fit_width this info) as [W H] eqn:Et.
  cbn [fst snd]. intros Hfit.
  assert (int32 (W * H) = W * H) as Eprod by (apply int32_small; lia).
  assert (int32 (int32 (W * H) * 3) = W * H * 3) as Esize
      by (rewrite Eprod; apply int32_small; lia).
  rewrite Eprod.
  destruct (downscaleRGBA scaled pixels (info_width info) (info_height info)
                          (info_stride info) W H) as [rgb|] eqn:Ed.
  - destruct (downscaleRGBA_length _ _ _ _ _ _ _ _ Ed) as [Hpos Hlen].
    rewrite Esize in Hpos, Hlen.
    destruct (W * H <? 0) eqn:En; [reflexivity|]. apply Z.ltb_ge in En.
    destruct (Z.eq_dec W 0) as [->|HW].
    { cbn [Z.eqb orb]. unfold stbi_write_jpg_to_func.
      cbn [Z.eqb orb]. rewrite orb_true_r. reflexivity. }
    destruct (Z.eq_dec H 0) as [->|HH].
    { rewrite orb_true_r. unfold stbi_write_jpg_to_func.
      cbn [Z.eqb orb]. rewrite !orb_true_r. reflexivity. }
    replace (W =? 0) with false by (symmetry; apply Z.eqb_neq; assumption).
    replace (H =? 0) with false by (symmetry; apply Z.eqb_neq; assumption).
    cbn [orb].
    destruct rgb as [|r0 rgb]; [cbn [List.length] in Hlen; nia|].
    pose proof (accepted YDC0 UDC0 YAC0 UAC0 quantized W H 3 (quality_ this)
                  HW HH ltac:(lia)) as Hacc.
    destruct (stbi_write_jpg_to_func YDC0 UDC0 YAC0 UAC0 quantized false W H 3
                (quality_ this)) as [res bytes].
    cbn [fst snd] in *. subst res. cbn [Z.eqb].
    unfold jpeg_write_callback. reflexivity.
  - unfold downscaleRGBA in Ed. cbv zeta in Ed. rewrite Esize in Ed.
    destruct (W * H * 3 <? 0) eqn:En; [|discriminate].
    apply Z.ltb_lt in En.
    replace (W * H <? 0) with true by (symmetry; apply Z.ltb_lt; lia).
    reflexivity.
Qed.

(** X19.  When the byte count of the target, the product of its two
    sides and 3, fits an [int], the empty string is the failure value
    and nothing else: the call returns it exactly when the processor is
    in low memory state, a pointer is null, a JNI call fails or a target
    side comes out as 0. *)
Theorem processAndEncode_empty_iff this env_null bitmap_null getInfo lockPixels :
  (forall info,
      getInfo = Some info ->
      - 2 ^ 31 <= fst (target_size fit_height fit_width this info)
                  * snd (target_size fit_height fit_width this info) * 3
               < 2 ^ 31) ->
  processAndEncode scaled fit_height fit_width empty_data_null
                   YDC0 UDC0 YAC0 UAC0 quantized
                   this env_null bitmap_null getInfo lockPixels
  = Some EmptyString
  <-> (isLowMemory this = true \/ env_null = true \/ bitmap_null = true
       \/ getInfo = None \/ lockPixels = None
       \/ exists info,
            getInfo = Some info
            /\ (fst (target_size fit_height fit_width this info) = 0
                \/ snd (target_size fit_height fit_width this info) = 0)).
Proof.
  intros Hfit.
  destruct (isLowMemory this) eqn:Hlow.
  { unfold processAndEncode. rewrite Hlow. tauto. }
  destruct env_null.
  { unfold processAndEncode. rewrite Hlow. cbn [orb]. tauto. }
  destruct bitmap_null.
  { unfold processAndEncode. rewrite Hlow. cbn [orb]. tauto. }
  destruct getInfo as [info|].
  2:{ unfold processAndEncode. rewrite Hlow. cbn [orb]. tauto. }
  destruct lockPixels as [pixels|].
  2:{ unfold processAndEncode. rewrite Hlow. cbn [orb]. tauto. }
  rewrite (processAndEncode_locked this info pixels Hlow (Hfit info eq_refl)).
  clear Hfit.
  set (W := fst (target_size fit_height fit_width this info)).
  set (H := snd (target_size fit_height fit_width this info)).
  destruct (W * H <? 0) eqn:En.
  - apply Z.ltb_lt in En. split; [discriminate|].
    intros [F|[F|[F|[F|[F|[info' [E [F|F]]]]]]]]; try discriminate;
      injection E as <-; fold W in F; fold H in F; nia.
  - destruct (Z.eq_dec W 0) as [EW|HW].
    { rewrite EW. cbn [Z.eqb orb]. split; [|reflexivity]. intros _.
      do 5 right. exists info. split; [reflexivity|]. left. exact EW. }
    destruct (Z.eq_dec H 0) as [EH|HH].
    { rewrite EH, orb_true_r. split; [|reflexivity]. intros _.
      do 5 right. exists info. split; [reflexivity|]. right. exact EH. }
    replace (W =? 0) with false by (symmetry; apply Z.eqb_neq; assumption).
    replace (H =? 0) with false by (symmetry; apply Z.eqb_neq; assumption).
    cbn [orb]. split.
    + intros E. injection E as E. exfalso. revert E.
      apply base64Encode_nonempty; [apply stbi_write_jpg_to_func_bytes|].
      destruct (stbi_write_jpg_to_func_shape YDC0 UDC0 YAC0 UAC0 quantized
                  W H 3 (quality_ this) HW HH ltac:(lia))
        as [seg [flush [_ [_ [_ E]]]]].
      rewrite E. cbn [snd]. rewrite headers_SOI. discriminate.
    + intros [F|[F|[F|[F|[F|[info' [E [F|F]]]]]]]]; try discriminate;
        injection E as <-; contradiction.
Qed.

(** X20.  A text the call returns is the base64 text of a JPEG stream
    that runs from SOI to EOI, and [base64Decode] gives that stream back,
    followed by the zero bytes that fill it up to a multiple of three. *)
Theorem processAndEncode_decodes this env_null bitmap_null getInfo lockPixels s :
  processAndEncode scaled fit_height fit_width empty_data_null
                   YDC0 UDC0 YAC0 UAC0 quantized
                   this env_null bitmap_null getInfo lockPixels
  = Some s ->
  s <> EmptyString ->
  exists jpeg body,
    s = base64Encode jpeg
    /\ jpeg = [0xFF; 0xD8] ++ body ++ [0xFF; 0xD9]
    /\ base64Decode s = zero_fill jpeg.
Proof.
  intros Hs Hne.
  destruct (isLowMemory this) eqn:Hlow.
  { unfold processAndEncode in Hs. rewrite Hlow in Hs. congruence. }
  destruct env_null.
  { unfold processAndEncode in Hs. rewrite Hlow in Hs. cbn [orb] in Hs.
    congruence. }
  destruct bitmap_null.
  { unfold processAndEncode in Hs. rewrite Hlow in Hs. cbn [orb] in Hs.
    congruence. }
  destruct getInfo as [info|].
  2:{ unfold processAndEncode in Hs. rewrite Hlow in Hs. cbn [orb] in Hs.
      congruence. }
  destruct lockPixels as [pixels|].
  2:{ unfold processAndEncode in Hs. rewrite Hlow in Hs. cbn [orb] in Hs.
      congruence. }
  destruct (processAndEncode_result this info pixels s Hlow Hs)
    as [E0 | [HW [HH Es]]]; [contradiction|].
  clear Hs. rename Es into Hs.
  set (W := fst (target_size fit_height fit_width this info)) in *.
  set (H := snd (target_size fit_height fit_width this info)) in *.
  pose proof (stbi_write_jpg_to_func_bytes YDC0 UDC0 YAC0 UAC0 quantized
                false W H 3 (quality_ this)) as Hbytes.
  destruct (stbi_write_jpg_to_func_shape YDC0 UDC0 YAC0 UAC0 quantized
              W H 3 (quality_ this) HW HH ltac:(lia))
    as [seg [flush [_ [_ [_ E]]]]].
  rewrite E in Hs, Hbytes. cbn [snd] in Hs, Hbytes.
  revert Hs Hbytes. rewrite headers_SOI.
  generalize (skipn 2 (headers W H (subsample_of (quality_ this)))).
  intros hdr Hs Hbytes.
  exists ([255; 216] ++ hdr ++ seg ++ flush ++ [255; 217]), (hdr ++ seg ++ flush).
  rewrite <- !app_assoc in *.
  split; [exact Hs|]. split; [reflexivity|].
  rewrite Hs. apply decode_encode_zero_fill. assumption.
Qed.
End ProcessorProofs.

Lemma processAndEncode_empty_iff_witness :
  (forall info,
      Some (mkInfo 16 16 64) = Some info ->
      - 2 ^ 31
      <= fst (target_size (fun w h t => t * h / w) (fun w h t => t * w / h)
                          (setConfig initial 0 8 95) info)
         * snd (target_size (fun w h t => t * h / w) (fun w h t => t * w / h)
                            (setConfig initial 0 8 95) info) * 3
      < 2 ^ 31)
  /\ (processAndEncode (fun s d n => n * s / d)
                       (fun w h t => t * h / w) (fun w h t => t * w / h) false
                       (fun _ => (0, 0)) (fun _ => (0, 0))
                       (fun _ => (0, 0)) (fun _ => (0, 0))
                       (fun _ _ _ => repeat 0 64)
                       (setConfig initial 0 8 95) false false
                       (Some (mkInfo 16 16 64)) (Some (repeat 0 1024))
      = Some EmptyString
      <-> (isLowMemory (setConfig initial 0 8 95) = true
           \/ false = true \/ false = true
           \/ Some (mkInfo 16 16 64) = None
           \/ Some (repeat 0 1024) = None
           \/ exists info,
                Some (mkInfo 16 16 64) = Some info
                /\ (fst (target_size (fun w h t => t * h / w)
                                     (fun w h t => t * w / h)
                                     (setConfig initial 0 8 95) info) = 0
                    \/ snd (target_size (fun w h t => t * h / w)
                                        (fun w h t => t * w / h)
                                        (setConfig initial 0 8 95) info) = 0))).
Proof.
  assert (forall info,
      Some (mkInfo 16 16 64) = Some info ->
      - 2 ^ 31
      <= fst (target_size (fun w h t => t * h / w) (fun w h t => t * w / h)
                          (setConfig initial 0 8 95) info)
         * snd (target_size (fun w h t => t * h / w) (fun w h t => t * w / h)
                            (setConfig initial 0 8 95) info) * 3
      < 2 ^ 31) as Hfit.
  { intros info E. injection E as <-. vm_compute. split; [discriminate | reflexivity]. }
  split; [exact Hfit|].
  exact (processAndEncode_empty_iff
           (fun s d n => n * s / d)
           (fun w h t => t * h / w) (fun w h t => t * w / h) false
           (fun _ => (0, 0)) (fun _ => (0, 0))
           (fun _ => (0, 0)) (fun _ => (0, 0))
           (fun _ _ _ => repeat 0 64)
           (setConfig initial 0 8 95) false false
           (Some (mkInfo 16 16 64)) (Some (repeat 0 1024)) Hfit).
Defined.

Lemma processAndEncode_decodes_witness :
  exists s,
    processAndEncode (fun s d n => n * s / d)
                     (fun w h t => t * h / w) (fun w h t => t * w / h) false
                     (fun _ => (0, 0)) (fun _ => (0, 0))
                     (fun _ => (0, 0)) (fun _ => (0, 0))
                     (fun _ _ _ => repeat 0 64)
                     (setConfig initial 8 8 95) false false
                     (Some (mkInfo 16 16 64)) (Some (repeat 0 1024))
    = Some s
    /\ s <> EmptyString
    /\ exists jpeg body,
         s = base64Encode jpeg
         /\ jpeg = [0xFF; 0xD8] ++ body ++ [0xFF; 0xD9]
         /\ base64Decode s = zero_fill jpeg.
Proof.
  eexists. split; [vm_compute; reflexivity|].
  split; [discriminate|].
  apply (processAndEncode_decodes
           (fun s d n => n * s / d)
           (fun w h t => t * h / w) (fun w h t => t * w / h) false
           (fun _ => (0, 0)) (fun _ => (0, 0))
           (fun _ => (0, 0)) (fun _ => (0, 0))
           (fun _ _ _ => repeat 0 64)
           (setConfig initial 8 8 95) false false
           (Some (mkInfo 16 16 64)) (Some (repeat 0 1024)));
    [vm_compute; reflexivity | discriminate].
Defined.

(** ** The run-length coding loses nothing *)

Lemma trim_zeros n : trim (repeat 0 n) = [].
Proof. induction n as [|n IH]; cbn [repeat trim]; [|rewrite IH]; reflexivity. Qed.

Lemma trim_nonzero v l : v <> 0 -> trim (v :: l) = v :: trim l.
Proof.
  intros Hv. cbn [trim]. destruct (trim l); [|reflexivity].
  apply Z.eqb_neq in Hv. rewrite Hv. reflexivity.
Qed.

Lemma trim_run n v l :
  v <> 0 -> trim (repeat 0 n ++ v :: l) = repeat 0 n ++ v :: trim l.
Proof.
  intros Hv. induction n as [|n IH]; cbn [repeat app].
  - apply trim_nonzero. assumption.
  - cbn [trim]. rewrite IH. destruct n; reflexivity.
Qed.

Lemma trim_spec l :
  l = trim l ++ repeat 0 (List.length l - List.length (trim l)).
Proof.
  induction l as [|v l IH]; [reflexivity|].
  cbn [trim]. destruct (trim l) as [|t ts] eqn:E.
  - cbn [app List.length] in IH.
    destruct (v =? 0) eqn:Ev.
    + apply Z.eqb_eq in Ev. subst v. cbn [app List.length].
      replace (S (List.length l) - 0)%nat with (S (List.length l - 0)) by lia.
      cbn [repeat]. f_equal. exact IH.
    + cbn [app List.length]. f_equal.
      replace (S (List.length l) - 1)%nat with (List.length l - 0)%nat by lia.
      exact IH.
  - cbn [app List.length] in *.
    replace (S (List.length l) - S (S (List.length ts)))%nat
      with (List.length l - S (List.length ts))%nat by lia.
    f_equal. exact IH.
Qed.

Lemma trim_eq_same_length l1 l2 :
  List.length l1 = List.length l2 -> trim l1 = trim l2 -> l1 = l2.
Proof.
  intros Hl Ht. rewrite (trim_spec l1), (trim_spec l2), Ht, Hl. reflexivity.
Qed.

Lemma extend_calcBits v :
  v <> 0 -> Z.abs v < 65536 -> extend (stbiw__jpg_calcBits v) = v.
Proof.
  intros Hv Hlt. unfold extend.
  rewrite calcBits_magnitude by assumption.
  rewrite magnitude_bits by assumption.
  unfold magnitude_spec. cbn [snd].
  destruct (size_spec_bounds v Hv) as [H1 [Hlo Hhi]].
  assert (2 ^ size_spec v = 2 * 2 ^ (size_spec v - 1)) as E2.
  { replace (size_spec v) with (Z.succ (size_spec v - 1)) at 1 by lia.
    apply Z.pow_succ_r. lia. }
  destruct (v <? 0) eqn:E; [apply Z.ltb_lt in E | apply Z.ltb_ge in E].
  - replace (_ <=? _) with false by (symmetry; apply Z.leb_gt; lia). lia.
  - replace (_ <=? _) with true by (symmetry; apply Z.leb_le; lia). lia.
Qed.

Lemma fold_left_record l : forall l0, fold_left record l l0 = l0 ++ l.
Proof.
  induction l as [|b l IH]; intros l0; cbn [fold_left].
  - rewrite app_nil_r. reflexivity.
  - rewrite IH. unfold record. rewrite <- app_assoc. reflexivity.
Qed.

Lemma repeat_zero_shift n (l : list Z) :
  repeat 0 (S n) ++ l = repeat 0 n ++ 0 :: l.
Proof.
  induction n as [|n IH]; [reflexivity|].
  cbn [repeat app] in *. rewrite IH. reflexivity.
Qed.

Lemma bits_eqb_eq a b : bits_eqb a b = true <-> a = b.
Proof.
  unfold bits_eqb. destruct a as [a1 a2], b as [b1 b2]. cbn [fst snd].
  rewrite andb_true_iff, !Z.eqb_eq. split.
  - intros [-> ->]. reflexivity.
  - intros E. injection E as -> ->. auto.
Qed.

Lemma run_symbol_baseline run v :
  v <> 0 -> Z.abs v < 1024 ->
  let s := Z.shiftl (Z.of_nat (run mod 16)) 4 + snd (stbiw__jpg_calcBits v) in
  In s baseline_ac_symbols
  /\ s <> 0xF0 /\ s <> 0x00 /\ Z.to_nat (Z.shiftr s 4) = (run mod 16)%nat.
Proof.
  intros Hv Hlt. cbv zeta.
  pose proof (run_tokens_baseline run v Hv Hlt) as H.
  unfold run_tokens in H. apply Forall_app in H as [_ H].
  apply Forall_inv in H. cbn [baseline_token] in H.
  split; [exact H|].
  rewrite calcBits_size by lia.
  destruct (size_spec_bounds v Hv) as [H1 _].
  pose proof (size_spec_le v 10 ltac:(lia) Hv Hlt) as H10.
  pose proof (Nat.mod_upper_bound run 16 ltac:(lia)) as Hr.
  rewrite Z.shiftr_div_pow2, Z.shiftl_mul_pow2 by lia.
  change (2 ^ 4) with 16.
  split; [lia|]. split; [lia|].
  rewrite Z.div_add_l by lia. rewrite (Z.div_small (size_spec v)) by lia. lia.
Qed.

Section Lossless.
Variables nrAC valuesAC : list Z.
Variable hAC : htable.
Hypothesis wfAC : well_formedb nrAC valuesAC = true.
Hypothesis coverAC : coversb valuesAC baseline_ac_symbols = true.

Lemma table_injective s1 s2 :
  In s1 valuesAC -> In s2 valuesAC ->
  stbiw__jpg_buildHuffmanTable nrAC valuesAC hAC s1
  = stbiw__jpg_buildHuffmanTable nrAC valuesAC hAC s2 ->
  s1 = s2.
Proof.
  intros H1 H2 E. destruct (Z.eq_dec s1 s2) as [|Hne]; [assumption|].
  exfalso.
  pose proof (table_entries_prefix nrAC valuesAC wfAC hAC s1 s2 H1 H2 Hne)
    as Hp. cbv zeta in Hp. rewrite E in Hp.
  rewrite Z.sub_diag, Z.shiftr_0_r in Hp. apply Hp; [lia|reflexivity].
Qed.

Lemma symbol_of_table s :
  In s baseline_ac_symbols ->
  symbol_of (stbiw__jpg_buildHuffmanTable nrAC valuesAC hAC)
            (stbiw__jpg_buildHuffmanTable nrAC valuesAC hAC s) = s.
Proof.
  intros Hs. unfold symbol_of.
  set (HT := stbiw__jpg_buildHuffmanTable nrAC valuesAC hAC).
  assert (forall x, In x (filter (fun s' => bits_eqb (HT s') (HT s))
                                 baseline_ac_symbols) -> x = s) as Hall.
  { intros x Hx. apply filter_In in Hx as [Hin Heq].
    apply bits_eqb_eq in Heq.
    apply table_injective; [| |exact Heq];
      apply (coversb_In _ _ _ coverAC); assumption. }
  assert (In s (filter (fun s' => bits_eqb (HT s') (HT s))
                       baseline_ac_symbols)) as Hin
      by (apply filter_In; split; [assumption|apply bits_eqb_eq; reflexivity]).
  destruct (filter _ baseline_ac_symbols) as [|x l]; [contradiction|].
  cbn [hd]. apply Hall. left. reflexivity.
Qed.

Lemma read_ZRLs k r :
  read_AC (stbiw__jpg_buildHuffmanTable nrAC valuesAC hAC)
          (repeat (stbiw__jpg_buildHuffmanTable nrAC valuesAC hAC 0xF0) k ++ r)
  = repeat 0 (16 * k)
    ++ read_AC (stbiw__jpg_buildHuffmanTable nrAC valuesAC hAC) r.
Proof.
  induction k as [|k IH]; [reflexivity|].
  replace (16 * S k)%nat with (16 + 16 * k)%nat by lia.
  rewrite repeat_app, <- app_assoc, <- IH.
  cbn [repeat app read_AC].
  rewrite symbol_of_table by (right; left; reflexivity).
  reflexivity.
Qed.

(** Reading the calls of the AC terms back gives the coefficients up to
    the last nonzero one. *)
Lemma read_AC_spec HTDC ac :
  Forall (fun v => Z.abs v < 1024) ac ->
  forall run,
    read_AC (stbiw__jpg_buildHuffmanTable nrAC valuesAC hAC)
            (map (code_of HTDC (stbiw__jpg_buildHuffmanTable nrAC valuesAC hAC))
                 (ac_spec run ac))
    = trim (repeat 0 run ++ ac).
Proof.
  set (HT := stbiw__jpg_buildHuffmanTable nrAC valuesAC hAC).
  induction 1 as [|v ac Hv _ IH]; intros run.
  - rewrite app_nil_r, trim_zeros. cbn [ac_spec].
    destruct (run =? 0)%nat; [reflexivity|].
    cbn [map code_of EOB read_AC]. unfold HT.
    rewrite symbol_of_table by (left; reflexivity). reflexivity.
  - cbn [ac_spec]. destruct (v =? 0) eqn:E.
    + apply Z.eqb_eq in E. subst v. rewrite IH.
      rewrite repeat_zero_shift. reflexivity.
    + apply Z.eqb_neq in E.
      destruct (run_symbol_baseline run v E Hv) as [Hin [HF [H0 Hr]]].
      cbv zeta in Hin, HF, H0, Hr.
      unfold run_tokens. rewrite !map_app, map_repeat.
      cbn [map code_of ZRL app]. rewrite <- app_assoc. cbn [app].
      specialize (IH 0%nat). cbn [repeat app] in IH.
      unfold HT in *. rewrite read_ZRLs.
      cbn [read_AC].
      rewrite symbol_of_table by assumption.
      apply Z.eqb_neq in HF, H0. rewrite HF, H0.
      rewrite Hr, extend_calcBits by lia.
      rewrite IH.
      rewrite trim_run by assumption.
      rewrite app_assoc, <- repeat_app.
      replace (16 * (run / 16) + run mod 16)%nat with run
        by (pose proof (Nat.div_mod_eq run 16); lia).
      reflexivity.
Qed.

(** X21.  The AC calls of a data unit determine its AC coefficients: two
    blocks of 64 coefficients with AC values below 1024 in magnitude for
    which [stbiw__jpg_processDU] makes the same AC calls have the same AC
    coefficients. *)
Theorem encode_AC_lossless DU1 DU2 :
  List.length DU1 = 64%nat -> List.length DU2 = 64%nat ->
  Forall (fun v => Z.abs v < 1024) (tl DU1) ->
  Forall (fun v => Z.abs v < 1024) (tl DU2) ->
  encode_AC record (stbiw__jpg_buildHuffmanTable nrAC valuesAC hAC) DU1 []
  = encode_AC record (stbiw__jpg_buildHuffmanTable nrAC valuesAC hAC) DU2 [] ->
  tl DU1 = tl DU2.
Proof.
  intros Hl1 Hl2 Hr1 Hr2 E.
  destruct DU1 as [|d1 ac1]; [discriminate|].
  destruct DU2 as [|d2 ac2]; [discriminate|].
  cbn [tl List.length] in *.
  set (HT := stbiw__jpg_buildHuffmanTable nrAC valuesAC hAC) in *.
  rewrite !(encode_AC_spec record HT HT) in E by lia.
  rewrite !fold_left_record in E. cbn [app] in E.
  apply (f_equal (read_AC HT)) in E. unfold HT in E.
  rewrite !read_AC_spec in E by assumption. cbn [repeat app] in E.
  apply trim_eq_same_length; [lia|assumption].
Qed.
End Lossless.

(** X22.  The DC calls of a data unit determine its DC coefficient,
    whatever the table: with the same predictor and DC differences below
    [2^16] in magnitude, two blocks for which [stbiw__jpg_processDU]
    makes the same DC calls have the same [DU[0]]. *)
Theorem encode_DC_lossless (HTDC : Z -> bits) DU1 DU2 DC :
  Z.abs (DUat DU1 0 - DC) < 65536 -> Z.abs (DUat DU2 0 - DC) < 65536 ->
  encode_DC record HTDC DU1 [] DC = encode_DC record HTDC DU2 [] DC ->
  DUat DU1 0 = DUat DU2 0.
Proof.
  intros H1 H2 E.
  rewrite !(encode_DC_spec record HTDC HTDC) in E by assumption.
  rewrite !fold_left_record in E. cbn [app] in E. unfold dc_spec in E.
  destruct (Z.eq_dec (DUat DU1 0 - DC) 0) as [Z1|N1];
    destruct (Z.eq_dec (DUat DU2 0 - DC) 0) as [Z2|N2]; [lia| | |].
  - rewrite Z1 in E. apply Z.eqb_neq in N2. rewrite N2 in E. discriminate.
  - rewrite Z2 in E. apply Z.eqb_neq in N1. rewrite N1 in E. discriminate.
  - pose proof N1 as B1. pose proof N2 as B2.
    apply Z.eqb_neq in B1, B2. rewrite B1, B2 in E.
    cbn [map code_of] in E.
    apply (f_equal (fun l => nth 1 l (0, 0))) in E. cbn [nth] in E.
    rename E into Em.
    rewrite <- !calcBits_magnitude in Em by assumption.
    apply (f_equal extend) in Em.
    rewrite !extend_calcBits in Em by assumption. lia.
Qed.

Lemma encode_AC_lossless_witness :
  encode_AC record
            (stbiw__jpg_buildHuffmanTable stbiw__jpg_std_ac_luminance_nrcodes
               stbiw__jpg_std_ac_luminance_values (fun _ => (0, 0)))
            (5 :: Samples.block_ac) []
  = encode_AC record
              (stbiw__jpg_buildHuffmanTable stbiw__jpg_std_ac_luminance_nrcodes
                 stbiw__jpg_std_ac_luminance_values (fun _ => (0, 0)))
              (7 :: Samples.block_ac) []
  /\ tl (5 :: Samples.block_ac) = tl (7 :: Samples.block_ac).
Proof.
  assert (well_formedb stbiw__jpg_std_ac_luminance_nrcodes
                       stbiw__jpg_std_ac_luminance_values = true) as Hwf
      by (vm_compute; reflexivity).
  assert (coversb stbiw__jpg_std_ac_luminance_values baseline_ac_symbols
          = true) as Hcov by (vm_compute; reflexivity).
  assert (List.length (5 :: Samples.block_ac) = 64%nat) as Hl1 by reflexivity.
  assert (List.length (7 :: Samples.block_ac) = 64%nat) as Hl2 by reflexivity.
  assert (Forall (fun v => Z.abs v < 1024) Samples.block_ac) as Hr
      by (repeat constructor; cbn; lia).
  assert (encode_AC record
            (stbiw__jpg_buildHuffmanTable stbiw__jpg_std_ac_luminance_nrcodes
               stbiw__jpg_std_ac_luminance_values (fun _ => (0, 0)))
            (5 :: Samples.block_ac) []
          = encode_AC record
              (stbiw__jpg_buildHuffmanTable stbiw__jpg_std_ac_luminance_nrcodes
                 stbiw__jpg_std_ac_luminance_values (fun _ => (0, 0)))
              (7 :: Samples.block_ac) []) as E by (vm_compute; reflexivity).
  split; [exact E|].
  exact (encode_AC_lossless _ _ (fun _ => (0, 0)) Hwf Hcov
           (5 :: Samples.block_ac) (7 :: Samples.block_ac) Hl1 Hl2 Hr Hr E).
Defined.

Lemma encode_DC_lossless_witness :
  Z.abs (DUat [5; 1] 0 - 3) < 65536 /\ Z.abs (DUat [5; 2] 0 - 3) < 65536
  /\ encode_DC record Samples.sym_table [5; 1] [] 3
     = encode_DC record Samples.sym_table [5; 2] [] 3
  /\ DUat [5; 1] 0 = DUat [5; 2] 0.
Proof.
  assert (Z.abs (DUat [5; 1] 0 - 3) < 65536) as H1 by (cbn; lia).
  assert (Z.abs (DUat [5; 2] 0 - 3) < 65536) as H2 by (cbn; lia).
  assert (encode_DC record Samples.sym_table [5; 1] [] 3
          = encode_DC record Samples.sym_table [5; 2] [] 3) as E
      by (vm_compute; reflexivity).
  split; [exact H1|]. split; [exact H2|]. split; [exact E|].
  exact (encode_DC_lossless Samples.sym_table [5; 1] [5; 2] 3 H1 H2 E).
Defined.

(** ** The quantisation tables in the stream *)

Lemma headers_tables width height subsample i :
  0 <= i < 64 ->
  nth (Z.to_nat (25 + i)) (headers width height subsample) 0
  = at_ YQT (at_ stbiw__jpg_ZigZag i)
  /\ nth (Z.to_nat (90 + i)) (headers width height subsample) 0
     = at_ UVQT (at_ stbiw__jpg_ZigZag i).
Proof.
  intros Hi.
  assert (forallb
            (fun k =>
               (nth (Z.to_nat (25 + k)) (headers width height subsample) 0
                =? at_ YQT (at_ stbiw__jpg_ZigZag k))
               && (nth (Z.to_nat (90 + k)) (headers width height subsample) 0
                   =? at_ UVQT (at_ stbiw__jpg_ZigZag k)))
            (map Z.of_nat (seq 0 64)) = true) as Hall
      by (unfold headers; vm_compute; reflexivity).
  rewrite forallb_forall in Hall.
  specialize (Hall i). rewrite andb_true_iff, !Z.eqb_eq in Hall.
  apply Hall. apply in_map_iff. exists (Z.to_nat i).
  split; [lia|apply in_seq; lia].
Qed.

Section TablesInStream.
Variables YDC0 UDC0 YAC0 UAC0 : htable.
Variable quantized : Z -> Z -> nat -> list Z.

(** X23.  Whatever the quality, the two quantisation tables in the
    stream (bytes 25..88 and 90..153) are the base tables [YQT] and
    [UVQT] read through the zigzag table: they are not the divisors that
    the quality scales. *)
Theorem stream_tables_ignore_quality width height comp quality i :
  width <> 0 -> height <> 0 -> 1 <= comp <= 4 -> 0 <= i < 64 ->
  let bytes := snd (stbi_write_jpg_to_func YDC0 UDC0 YAC0 UAC0 quantized
                      false width height comp quality) in
  nth (Z.to_nat (25 + i)) bytes 0 = at_ YQT (at_ stbiw__jpg_ZigZag i)
  /\ nth (Z.to_nat (90 + i)) bytes 0 = at_ UVQT (at_ stbiw__jpg_ZigZag i).
Proof.
  intros Hw Hh Hc Hi. cbv zeta.
  destruct (stbi_write_jpg_to_func_shape YDC0 UDC0 YAC0 UAC0 quantized
              width height comp quality Hw Hh Hc)
    as [seg [flush [_ [_ [_ E]]]]].
  rewrite E. cbn [snd].
  rewrite !app_nth1 by (rewrite headers_length; lia).
  apply headers_tables. assumption.
Qed.
End TablesInStream.

Lemma stream_tables_ignore_quality_witness :
  nth (Z.to_nat (25 + 0))
      (snd (stbi_write_jpg_to_func (fun _ => (0, 0)) (fun _ => (0, 0))
              (fun _ => (0, 0)) (fun _ => (0, 0))
              (fun _ _ _ => repeat 0 64) false 8 8 3 100)) 0
  = at_ YQT (at_ stbiw__jpg_ZigZag 0)
  /\ yti 100 0 = 1.
Proof.
  split; [|reflexivity].
  exact (proj1 (stream_tables_ignore_quality
                  (fun _ => (0, 0)) (fun _ => (0, 0))
                  (fun _ => (0, 0)) (fun _ => (0, 0))
                  (fun _ _ _ => repeat 0 64) 8 8 3 100 0
                  ltac:(lia) ltac:(lia) ltac:(lia) ltac:(lia))).
Defined.
